(** * node-apn: provider, client and retry policy

    A shallow embedding of [lib/provider.js] and [lib/client.js] (the
    dispatcher, the HTTP/2 requester and the retry policy of the APNs
    provider client), and the properties of its specification.

    JavaScript objects are finite maps from property names to values;
    promises are represented by the way they settle; the network is a
    script of exchanges that the requests consume one after the other,
    and every effect of the client is appended to a log. *)

From stdpp Require Import gmap strings list fin_maps pretty.
From Stdlib Require Import ZArith Permutation Ascii.
From Equations Require Import Equations.

#[local] Open Scope string_scope.
#[local] Open Scope list_scope.
#[local] Open Scope Z_scope.

(** ** JavaScript values *)

Module JS.

#[warnings="-register-all"]
Inductive value : Type :=
  | VUndef
  | VNull
  | VBool (b : bool)
  | VNum (n : Z)
  | VStr (s : string)
  | VArr (items : list value)
  | VObj (fields : gmap string value)
  | VErr (message : string).

(** [VErr m] is an error object ([new VError(m)]) with message [m];
    numbers are the integers, which is all the client compares. *)

Abbreviation obj := (gmap string value).

(** [o.k]: reading a property that is absent yields [undefined]. *)
Definition get (k : string) (o : obj) : value := default VUndef (o !! k).

(** [v.k] on any value: [None] stands for the TypeError raised on
    [null] and [undefined]. *)
Definition prop (v : value) (k : string) : option value :=
  match v with
  | VUndef | VNull => None
  | VObj o => Some (get k o)
  | VErr m => Some (if decide (k = "message") then VStr m else VUndef)
  | _ => Some VUndef
  end.

(** Truthiness, as tested by [if], [||] and [&&]. *)
Definition truthy (v : value) : bool :=
  match v with
  | VUndef | VNull => false
  | VBool b => b
  | VNum n => negb (n =? 0)
  | VStr s => negb (String.eqb s "")
  | VArr _ | VObj _ | VErr _ => true
  end.

(** [a || b]. *)
Definition or_else (a b : value) : value := if truthy a then a else b.

Fixpoint index_keys (i : nat) (vs : list value) : list (string * value) :=
  match vs with
  | [] => []
  | v :: vs' => (pretty i, v) :: index_keys (S i) vs'
  end.

Fixpoint chars (s : string) : list value :=
  match s with
  | EmptyString => []
  | String c s' => VStr (String c EmptyString) :: chars s'
  end.

(** The own enumerable properties copied by [{...v}]. An error object is
    never spread by the client: it only ever sits under the [error] key. *)
Definition own_props (v : value) : obj :=
  match v with
  | VObj o => o
  | VArr vs => list_to_map (index_keys 0%nat vs)
  | VStr s => list_to_map (index_keys 0%nat (chars s))
  | _ => ∅
  end.

(** [{...a, ...b}]: the properties of [b] win. *)
Definition spread (a b : obj) : obj := b ∪ a.

(** [s.includes(needle)]. *)
Definition includes (s needle : string) : bool :=
  match String.index 0%nat needle s with
  | Some _ => true
  | None => false
  end.

(** No character of [s] is a slash. *)
Fixpoint slash_free (s : string) : bool :=
  match s with
  | EmptyString => true
  | String ch s' => negb (Ascii.eqb ch "/"%char) && slash_free s'
  end.

(** [a === b] against a number or a string literal. *)
Definition strict_eq_num (v : value) (n : Z) : bool :=
  match v with VNum m => m =? n | _ => false end.

Definition strict_eq_str (v : value) (s : string) : bool :=
  match v with VStr t => String.eqb t s | _ => false end.

(** The double quote, for the messages that quote their argument. *)
Definition dquote : string := String (Ascii.ascii_of_nat 34) EmptyString.

Section Builtins.

(** The coercion to a number of a value that is neither a number nor
    [null] or [undefined] (a string, a boolean, an object through its
    primitive); [None] is NaN. It is the engine's. *)
Variable ToNumber : value -> option Z.

(** [v == n] for a number [n]. *)
Definition loose_eq_num (v : value) (n : Z) : bool :=
  match v with
  | VNum m => m =? n
  | VUndef | VNull => false
  | _ => match ToNumber v with Some m => m =? n | None => false end
  end.

End Builtins.

(** The text holds a percent sign. *)
Fixpoint has_percent (s : string) : bool :=
  match s with
  | EmptyString => false
  | String ch s' => Ascii.eqb ch "%"%char || has_percent s'
  end.

Section Formats.

(** [sprintf] of the extsprintf package, by which VError reads its first
    argument, for a format that is given no argument: [inl] is the text
    it makes of the format, [inr] the message of the Error it throws
    when a conversion finds no argument. It is the library's. *)
Variable sprintf : string -> string + string.

(** [new VError(text)] for a text that was put together from other
    values: [inl] is the message of the error, [inr] the message of the
    Error that the constructor throws. A text without a percent sign
    holds no conversion and is its own message. *)
Definition VError (text : string) : string + string :=
  if has_percent text then sprintf text else inl text.

End Formats.

End JS.

(** ** The client ([lib/client.js]) *)

Module Client.
Import JS.

Inductive session_kind : Type :=
  | Push      (* [this.session] *)
  | Manage.   (* [this.manageChannelsSession] *)

(** The two flags of an HTTP/2 session that the client reads. *)
Record http2_session : Type := {
  closed : bool;
  destroyed : bool;
}.

Record endpoint : Type := {
  host : string;
  port : Z;
}.

(** The prepared configuration ([this.config]) as far as the client reads
    it; the token it holds is mutable and lives in the state below. *)
Record config : Type := {
  address : string;
  manageChannelsAddress : string;
  proxy : option endpoint;
  manageChannelsProxy : option endpoint;
  connectionRetryLimit : Z;
}.

(** Modelled from the spec: the TokenSource of section 4.1 ([current],
    [generation], [issuedAt]); its code is not among the sources. *)
Record token_source : Type := {
  current : string;
  generation : Z;
  issuedAt : Z;
}.

(** [{headers, body}] as built by the provider. *)
Record builtNotification : Type := {
  headers : obj;
  body : string;
}.

(** What a request stream emits. *)
Inductive stream_error : Type :=
  | ErrorString (text : string)      (* [typeof error === 'string'] *)
  | ErrorObject (message : string).

Inductive stream_event : Type :=
  | OnResponse (response_headers : obj)
  | OnData (data : string)
  | OnEnd
  | OnTimeout
  | OnAborted
  | OnError (error : stream_error)
  | OnFrameError (frameType errorCode streamId : Z).

(** One request as the network answers it: the events of its stream, in
    order, and whether the session is closed under it meanwhile (GOAWAY,
    session error). *)
Record exchange : Type := {
  events : list stream_event;
  closes : bool;
}.

(** The effects of the client, in the order they happen. *)
Inductive io : Type :=
  | Dial (k : session_kind)                 (* [createProxySocket] *)
  | Connect (k : session_kind)              (* [http2.connect] *)
  | Request (k : session_kind) (authority path httpMethod : string)
            (sent_headers : obj)            (* [session.request(headers)] *)
  | StreamWrite (data : string)             (* [request.write] *)
  | StreamEnd                               (* [request.end] *)
  | Sleep (retryAfter : value)              (* [setTimeout] before a retry *)
  | SessionClose (k : session_kind)         (* [session.close] *)
  | SessionDestroy (k : session_kind)       (* [session.destroy] *)
  | Callback.                               (* the callback of [shutdown] *)

(** The client together with its surroundings: [net] scripts the answers
    to the requests still to come, [dials] the outcomes of the proxy
    connections still to come ([Some cause] is a failure). *)
Record state : Type := {
  isDestroyed : bool;
  session : option http2_session;
  manageChannelsSession : option http2_session;
  token : option token_source;
  now : Z;
  net : list exchange;
  dials : list (option string);
  log : list io;
}.

(** A promise, by the way it settles. A native error thrown by the engine
    is an object without own enumerable properties: [native_error]. *)
Inductive settlement : Type :=
  | Resolved (v : obj)
  | Rejected (e : obj).

Definition native_error : obj := ∅.

Definition emit (e : io) (w : state) : state :=
  {| isDestroyed := isDestroyed w; session := session w;
     manageChannelsSession := manageChannelsSession w; token := token w;
     now := now w; net := net w; dials := dials w; log := log w ++ [e] |}.

Definition session_of (k : session_kind) (w : state) : option http2_session :=
  match k with
  | Push => session w
  | Manage => manageChannelsSession w
  end.

Definition set_session (k : session_kind) (s : option http2_session)
    (w : state) : state :=
  {| isDestroyed := isDestroyed w;
     session := match k with Push => s | Manage => session w end;
     manageChannelsSession :=
       match k with Push => manageChannelsSession w | Manage => s end;
     token := token w; now := now w; net := net w; dials := dials w;
     log := log w |}.

Definition set_token (t : option token_source) (w : state) : state :=
  {| isDestroyed := isDestroyed w; session := session w;
     manageChannelsSession := manageChannelsSession w; token := t;
     now := now w; net := net w; dials := dials w; log := log w |}.

Definition set_net (n : list exchange) (w : state) : state :=
  {| isDestroyed := isDestroyed w; session := session w;
     manageChannelsSession := manageChannelsSession w; token := token w;
     now := now w; net := n; dials := dials w; log := log w |}.

Definition set_dials (d : list (option string)) (w : state) : state :=
  {| isDestroyed := isDestroyed w; session := session w;
     manageChannelsSession := manageChannelsSession w; token := token w;
     now := now w; net := net w; dials := d; log := log w |}.

Definition set_isDestroyed (b : bool) (w : state) : state :=
  {| isDestroyed := b; session := session w;
     manageChannelsSession := manageChannelsSession w; token := token w;
     now := now w; net := net w; dials := dials w; log := log w |}.

(** *** Sessions *)

(** [session.destroy] leaves the session closed and destroyed. So does
    [session.close], once no stream is open: the session is destroyed
    before the callback of [close] runs, which is when
    [closeAndDestroySession] goes on. *)

Definition destroySession (k : session_kind) (w : state) : state :=
  match session_of k w with
  | None => w
  | Some s =>
      if destroyed s then w
      else emit (SessionDestroy k)
             (set_session k (Some {| closed := true; destroyed := true |}) w)
  end.

Definition closeAndDestroySession (k : session_kind) (w : state) : state :=
  match session_of k w with
  | None => w
  | Some s =>
      let w1 :=
        if closed s then w
        else emit (SessionClose k)
               (set_session k
                  (Some {| closed := true; destroyed := true |}) w) in
      destroySession k w1
  end.

(** *** Paths and labels *)

Definition makePath (type subDirectory : string) : option string :=
  if decide (type = "channels") then
    Some ("/1/apps/" +:+ subDirectory +:+ "/channels")
  else if decide (type = "allChannels") then
    Some ("/1/apps/" +:+ subDirectory +:+ "/all-channels")
  else if decide (type = "device") then
    Some ("/3/device/" +:+ subDirectory)
  else if decide (type = "broadcasts") then
    Some ("/4/broadcasts/apps/" +:+ subDirectory)
  else None.

Definition subDirectoryLabel (type : string) : option string :=
  if decide (type = "device") then Some "device"
  else if decide (type = "channels") then Some "bundleId"
  else if decide (type = "allChannels") then Some "bundleId"
  else if decide (type = "broadcasts") then Some "bundleId"
  else None.

(** [subDirectoryObject[label] = subDirectory] on an empty object: an
    assignment to [__proto__] of a string makes no property. *)
Definition makeSubDirectoryTypeObject (label subDirectory : string) : obj :=
  if decide (label = "__proto__") then ∅
  else {[ label := VStr subDirectory ]}.

(** The members that a plain object inherits from [Object.prototype],
    as the text that the session makes of them when it is given one as
    the value of a header: the functions, and the prototype itself under
    [__proto__]. *)
Definition inherited (name : string) : option string :=
  if decide (name = "constructor") then
    Some "function Object() { [native code] }"
  else if decide (name = "__proto__") then Some "[object Object]"
  else if decide (name ∈ ["toString"; "toLocaleString"; "valueOf";
                          "hasOwnProperty"; "isPrototypeOf";
                          "propertyIsEnumerable"; "__defineGetter__";
                          "__defineSetter__"; "__lookupGetter__";
                          "__lookupSetter__"]) then
    Some ("function " +:+ name +:+ "() { [native code] }")
  else None.

(** [HTTPMethod[method]] on the plain object
    [{post: 'POST', get: 'GET', delete: 'DELETE'}]: [None] is
    [undefined]. A name that the object inherits gives a member that is
    not [null], which [write] takes for a method like the other three. *)
Definition HTTPMethod (method : string) : option string :=
  if decide (method = "post") then Some "POST"
  else if decide (method = "get") then Some "GET"
  else if decide (method = "delete") then Some "DELETE"
  else inherited method.

Definition retryStatusCodes : list Z := [408; 429; 500; 502; 503; 504].

Definition TIMEOUT_STATUS : string := "(timeout)".
Definition ABORTED_STATUS : string := "(aborted)".
Definition ERROR_STATUS : string := "(error)".

Definition createHeaderObject (uniqueId requestId channelId : value) : obj :=
  let header : obj := ∅ in
  let header :=
    if truthy uniqueId then <["apns-unique-id" := uniqueId]> header
    else header in
  let header :=
    if truthy requestId then <["apns-request-id" := requestId]> header
    else header in
  let header :=
    if truthy channelId then <["apns-channel-id" := channelId]> header
    else header in
  header.

Section Modelled.

(** The reading of a format by the library behind VError. *)
Variable sprintf : string -> string + string.

(** The engine's own functions are parameters: [JSON.parse] ([inr] is
    the message of the SyntaxError it throws), the coercion behind [==]
    and the conversion of a value inside a template literal. *)
Variable JSON_parse : string -> value + string.
Variable ToNumber : value -> option Z.
Variable ToString : value -> string.

(** Modelled from the spec: the minting of a provider token from the
    signing key at a given issue time, which is not among the sources. *)
Variable sign : Z -> string.

Variable c : config.

(** Modelled from the spec: [isExpired] and [regenerate] of the
    TokenSource (section 4.1), which are not among the sources. *)
Definition isExpired (t : token_source) (now_ threshold : Z) : bool :=
  threshold <=? now_ - issuedAt t.

Definition regenerate (observed : option Z) (now_ : Z) (t : token_source)
    : token_source :=
  match observed with
  | Some g =>
      if g =? generation t then
        {| current := sign now_; generation := generation t + 1;
           issuedAt := now_ |}
      else t
  | None => t
  end.

(** Modelled from the spec: [extend(target, source)] of [util/extend],
    which overlays [source] on [target]. *)
Definition extend (target source : obj) : obj := source ∪ target.

(** *** Connecting *)

Definition proxy_of (k : session_kind) : option endpoint :=
  match k with
  | Push => proxy c
  | Manage => manageChannelsProxy c
  end.

(** [createProxySocket]: the tunnel, or the rejection
    [{error: VError('cannot connect to proxy server: ...')}], for a cause
    that VError takes as it is, that is, one without a percent sign. *)
Definition createProxySocket (k : session_kind) (w : state)
    : state * option obj :=
  let w1 := emit (Dial k) w in
  match dials w1 with
  | Some cause :: rest =>
      (set_dials rest w1,
       Some {[ "error" :=
                 VErr ("cannot connect to proxy server: " +:+ cause) ]})
  | None :: rest => (set_dials rest w1, None)
  | [] => (w1, None)
  end.

(** [connect] and [manageChannelsConnect]; [Some reason] is a rejection.
    Calls do not overlap here, so no connection attempt is ever found
    in flight. This is the code on a client on which no dial for the
    session was refused before: after a refused dial the promise of that
    attempt stays with the client, and every later call returns it
    without another dial. The state has no field for that promise; the
    log shows it, as a dial that no connection follows. *)
Definition connect_session (k : session_kind) (w : state)
    : state * option obj :=
  let '(w1, failure) :=
    match proxy_of k with
    | Some _ => createProxySocket k w
    | None => (w, None)
    end in
  match failure with
  | Some reason => (w1, Some reason)
  | None =>
      (emit (Connect k)
         (set_session k (Some {| closed := false; destroyed := false |}) w1),
       None)
  end.

Definition connect : state -> state * option obj := connect_session Push.
Definition manageChannelsConnect : state -> state * option obj :=
  connect_session Manage.

(** *** One request *)

(** The variables that the handlers of [request] share. *)
Record request_vars : Type := {
  status : value;
  retryAfter : value;
  uniqueId : value;
  requestId : value;
  channelId : value;
  responseData : string;
  tokenGeneration : option Z;
  live_token : option token_source;     (* [this.config.token] *)
  promise : option settlement;          (* [None] while pending *)
}.

(** [resolve] and [reject]: a settled promise stays as it is. *)
Definition settle (s : settlement) (r : request_vars) : request_vars :=
  {| status := status r; retryAfter := retryAfter r;
     uniqueId := uniqueId r; requestId := requestId r;
     channelId := channelId r; responseData := responseData r;
     tokenGeneration := tokenGeneration r; live_token := live_token r;
     promise := match promise r with Some s0 => Some s0 | None => Some s end |}.

Definition set_status (v : value) (r : request_vars) : request_vars :=
  {| status := v; retryAfter := retryAfter r;
     uniqueId := uniqueId r; requestId := requestId r;
     channelId := channelId r; responseData := responseData r;
     tokenGeneration := tokenGeneration r; live_token := live_token r;
     promise := promise r |}.

Definition set_live_token (t : option token_source) (r : request_vars)
    : request_vars :=
  {| status := status r; retryAfter := retryAfter r;
     uniqueId := uniqueId r; requestId := requestId r;
     channelId := channelId r; responseData := responseData r;
     tokenGeneration := tokenGeneration r; live_token := t;
     promise := promise r |}.

Definition unexpected (cause : string) : settlement :=
  Rejected {[ "error" :=
    VErr ("Unexpected error processing APNs response: " +:+ cause) ]}.

(** The three kinds of failure that carry [status] and [retryAfter]. *)
Definition status_error (r : request_vars) (headerObject : obj)
    (message : string) : settlement :=
  Rejected (spread headerObject
    (<["status" := status r]> (<["retryAfter" := retryAfter r]>
       {[ "error" := VErr message ]}))).

(** The handler of [end], with its [try] and [catch]. *)
Definition on_end (now_ : Z) (r : request_vars) : request_vars :=
  let headerObject :=
    createHeaderObject (uniqueId r) (requestId r) (channelId r) in
  if strict_eq_num (status r) 200 || strict_eq_num (status r) 201
     || strict_eq_num (status r) 204 then
    if String.eqb (responseData r) "" then
      settle (Resolved (spread headerObject ∅)) r
    else
      match JSON_parse (responseData r) with
      | inr cause => settle (unexpected cause) r
      | inl body_ => settle (Resolved (spread headerObject (own_props body_))) r
      end
  else if strict_eq_str (status r) TIMEOUT_STATUS
          || strict_eq_str (status r) ABORTED_STATUS
          || strict_eq_str (status r) ERROR_STATUS then
    settle (status_error r headerObject
              "Timeout, aborted, or other unknown error") r
  else if negb (String.eqb (responseData r) "") then
    match JSON_parse (responseData r) with
    | inr cause => settle (unexpected cause) r
    | inl response =>
        let other :=
          settle (Rejected
            (<["response" := response]> (<["retryAfter" := retryAfter r]>
               (<["status" := status r]> headerObject)))) r in
        if strict_eq_num (status r) 403 then
          (* [status === 403 && response.reason === ...] *)
          match prop response "reason" with
          | None =>
              settle (unexpected
                "Cannot read properties of null (reading 'reason')") r
          | Some reason =>
              if strict_eq_str reason "ExpiredProviderToken" then
                match live_token r with
                | None =>
                    settle (unexpected
                      "Cannot read properties of null (reading 'regenerate')")
                      r
                | Some t =>
                    let r1 :=
                      set_live_token
                        (Some (regenerate (tokenGeneration r) now_ t)) r in
                    settle (status_error r headerObject "ExpiredProviderToken")
                      r1
                end
              else other
          end
        else if strict_eq_num (status r) 500 then
          (* [status === 500 && response.reason === ...] *)
          match prop response "reason" with
          | None =>
              settle (unexpected
                "Cannot read properties of null (reading 'reason')") r
          | Some reason =>
              if strict_eq_str reason "InternalServerError" then
                settle (status_error r headerObject
                          "Error 500, stream ended unexpectedly") r
              else other
          end
        else other
    end
  else
    settle (Rejected (spread headerObject
      {[ "error" := VErr ("stream ended unexpectedly with status "
                          +:+ ToString (status r) +:+ " and empty body") ]})) r.

(** The handlers of the stream, one event at a time. *)
Definition handle (now_ : Z) (r : request_vars) (ev : stream_event)
    : request_vars :=
  match ev with
  | OnResponse hs =>
      {| status := get ":status" hs;
         retryAfter := get "Retry-After" hs;
         uniqueId := get "apns-unique-id" hs;
         requestId := get "apns-request-id" hs;
         channelId := get "apns-channel-id" hs;
         responseData := responseData r;
         tokenGeneration := tokenGeneration r; live_token := live_token r;
         promise := promise r |}
  | OnData data =>
      {| status := status r; retryAfter := retryAfter r;
         uniqueId := uniqueId r; requestId := requestId r;
         channelId := channelId r;
         responseData := responseData r +:+ data;
         tokenGeneration := tokenGeneration r; live_token := live_token r;
         promise := promise r |}
  | OnEnd => on_end now_ r
  | OnTimeout =>
      settle (Rejected {[ "error" := VErr "apn write timeout" ]})
        (set_status (VStr TIMEOUT_STATUS) r)
  | OnAborted =>
      settle (Rejected {[ "error" := VErr "apn write aborted" ]})
        (set_status (VStr ABORTED_STATUS) r)
  | OnError error =>
      let text :=
        match error with ErrorString t => t | ErrorObject m => m end in
      settle (Rejected {[ "error" := VErr ("apn write failed: " +:+ text) ]})
        (set_status (VStr ERROR_STATUS) r)
  | OnFrameError frameType errorCode streamId =>
      settle (Rejected {[ "error" :=
        VErr ("Request frame error: (frameType: " +:+ pretty frameType
              +:+ ", errorCode " +:+ pretty errorCode
              +:+ ", streamId: " +:+ pretty streamId +:+ ")") ]}) r
  end.

(** [request(session, address, notification, path, httpMethod)]. The
    session hands out a stream; the next exchange of [net] answers it; a
    stream that nothing else settles is settled by its timer. *)
Definition request (k : session_kind) (address_ : string)
    (notification : builtNotification) (path httpMethod : string)
    (w : state) : state * settlement :=
  let headers0 :=
    extend (<[":scheme" := VStr "https"]> (<[":method" := VStr httpMethod]>
              (<[":authority" := VStr address_]> {[ ":path" := VStr path ]})))
           (headers notification) in
  let '(tk, headers1, generation_) :=
    match token w with
    | Some t =>
        let t1 :=
          if isExpired t (now w) 3300
          then regenerate (Some (generation t)) (now w) t else t in
        (Some t1,
         <["authorization" := VStr ("bearer " +:+ current t1)]> headers0,
         Some (generation t1))
    | None => (None, headers0, None)
    end in
  let ex :=
    match net w with
    | e :: _ => e
    | [] => {| events := []; closes := false |}
    end in
  let w1 :=
    emit (Request k address_ path httpMethod headers1)
      (set_net (tail (net w)) w) in
  let w2 :=
    if String.eqb (body notification) "{}" then w1
    else emit (StreamWrite (body notification)) w1 in
  let w3 := emit StreamEnd w2 in
  let r :=
    fold_left (handle (now w)) (events ex)
      {| status := VNull; retryAfter := VNull; uniqueId := VNull;
         requestId := VNull; channelId := VNull; responseData := "";
         tokenGeneration := generation_; live_token := tk;
         promise := None |} in
  let w4 := set_token (live_token r) w3 in
  let w5 := if closes ex then closeAndDestroySession k w4 else w4 in
  (w5,
   match promise r with
   | Some s => s
   | None => Rejected {[ "error" := VErr "apn write timeout" ]}
   end).

(** *** The retry policy *)

Definition closed_or_destroyed : settlement :=
  Rejected {[ "error" :=
    VErr "client session is either closed or destroyed" ]}.

(** [this.isDestroyed || session.closed]; [None] is the TypeError of
    reading [closed] from a session that was never set. *)
Definition is_gone (k : session_kind) (w : state) : option bool :=
  if isDestroyed w then Some true
  else match session_of k w with
       | None => None
       | Some s => Some (closed s)
       end.

Equations? retryRequest (error : obj) (k : session_kind) (address_ : string)
    (notification : builtNotification) (path httpMethod : string)
    (count : Z) (w : state) : state * settlement
    by wf (Z.to_nat (connectionRetryLimit c - count)) lt :=
  retryRequest error k address_ notification path httpMethod count w
    with is_gone k w := {
    | None => (w, Rejected native_error)
    | Some true => (w, closed_or_destroyed)
    | Some false with decide (connectionRetryLimit c < count + 1) := {
        (* [retryCount > this.config.connectionRetryLimit] *)
        | left _ => (w, Rejected error)
        | right _
            with request k address_ notification path httpMethod
                   (emit (Sleep (or_else (get "retryAfter" error) (VNum 0))) w)
            := {
            | (w2, Resolved v) => (w2, Resolved v)
            | (w2, Rejected e) =>
                retryRequest e k address_ notification path httpMethod
                  (count + 1) w2 } } }.
Proof. lia. Qed.

(** *** Writing one notification *)

(** The test of [write] on a failed request:
    [retryStatusCodes.includes(error.status) ||
     (typeof error.error !== 'undefined' && error.status == 403 &&
      error.error.message === 'ExpiredProviderToken')];
    [None] is the TypeError of reading [message] from [null]. *)
Definition is_retryable (error : obj) : option bool :=
  if existsb (strict_eq_num (get "status" error)) retryStatusCodes then
    Some true
  else
    match get "error" error with
    | VUndef => Some false
    | inner =>
        if loose_eq_num ToNumber (get "status" error) 403 then
          match prop inner "message" with
          | None => None
          | Some m => Some (strict_eq_str m "ExpiredProviderToken")
          end
        else Some false
    end.

(** [!session || session.closed || session.destroyed]. *)
Definition needs_connect (s : option http2_session) : bool :=
  match s with
  | None => true
  | Some s => closed s || destroyed s
  end.

(** The [try] around [this.request] and its [catch], which both branches
    of [write] share but for the session and the address. *)
Definition write_on (k : session_kind) (address_ : string)
    (subDirectoryInformation : obj) (notification : builtNotification)
    (path httpMethod : string) (retryCount : Z) (w : state)
    : state * settlement :=
  match request k address_ notification path httpMethod w with
  | (w1, Resolved sentRequest) =>
      (w1, Resolved (spread subDirectoryInformation sentRequest))
  | (w1, Rejected error) =>
      match is_retryable error with
      | None => (w1, Rejected native_error)
      | Some true =>
          match retryRequest error k address_ notification path httpMethod
                  retryCount w1 with
          | (w2, Resolved resentRequest) =>
              (w2, Resolved (spread subDirectoryInformation resentRequest))
          | (w2, Rejected error2) =>
              let w3 :=
                if loose_eq_num ToNumber (get "status" error2) 500
                then closeAndDestroySession k w2 else w2 in
              (w3, Rejected (spread subDirectoryInformation
                               (delete "retryAfter" error2)))
          end
      | Some false =>
          (w1, Rejected (spread subDirectoryInformation
                           (delete "retryAfter" error)))
      end
  end.

(** [write(notification, subDirectory, type, method, count)]. *)
Definition write (notification : builtNotification)
    (subDirectory type method : string) (count : option Z) (w : state)
    : state * settlement :=
  let retryCount := default 0 count in
  let label := default type (subDirectoryLabel type) in
  let subDirectoryInformation := makeSubDirectoryTypeObject label subDirectory in
  match makePath type subDirectory with
  | None =>
      match VError sprintf ("could not make a path for " +:+ type +:+ " and "
                            +:+ subDirectory) with
      | inl message =>
          (w, Rejected (<["error" := VErr message]> subDirectoryInformation))
      | inr _ => (w, Rejected native_error)
      end
  | Some path =>
      match HTTPMethod method with
      | None =>
          match VError sprintf ("invalid httpMethod " +:+ dquote +:+ method
                                +:+ dquote) with
          | inl message =>
              (w, Rejected (<["error" := VErr message]>
                              subDirectoryInformation))
          | inr _ => (w, Rejected native_error)
          end
      | Some httpMethod =>
          if isDestroyed w then
            (w, Rejected (<["error" := VErr "client is destroyed"]>
                            subDirectoryInformation))
          else if includes path "/1/apps/" then
            let '(w1, failure) :=
              if needs_connect (manageChannelsSession w)
              then manageChannelsConnect w else (w, None) in
            match failure with
            | Some error =>
                (w1, Rejected (<["error" := VObj error]>
                                 subDirectoryInformation))
            | None =>
                write_on Manage (manageChannelsAddress c)
                  subDirectoryInformation notification path httpMethod
                  retryCount w1
            end
          else
            let '(w1, failure) :=
              if needs_connect (session w) then connect w else (w, None) in
            match failure with
            | Some error =>
                (w1, Rejected (<["error" := VObj (delete "retryAfter" error)]>
                                 subDirectoryInformation))
            | None =>
                write_on Push (address c) subDirectoryInformation
                  notification path httpMethod retryCount w1
            end
      end
  end.

End Modelled.

(** [shutdown(callback)]; [callback] tells whether one was passed. *)
Definition shutdown (callback : bool) (w : state) : state :=
  if isDestroyed w then
    if callback then emit Callback w else w
  else
    let w1 := set_isDestroyed true w in
    let w2 := closeAndDestroySession Push w1 in
    let w3 := closeAndDestroySession Manage w2 in
    if callback then emit Callback w3 else w3.

End Client.

(** ** The provider ([lib/provider.js]) *)

Module Provider.
Import JS.

(** An entry of [Promise.allSettled]. *)
Inductive settled : Type :=
  | Fulfilled (v : value)
  | RejectedWith (reason : value).

Record BatchResult : Type := {
  sent : list value;
  failed : list value;
}.

(** The way an [async] function ends. *)
Inductive completion (A : Type) : Type :=
  | Returns (a : A)
  | Throws (e : value).
Arguments Returns {A} a.
Arguments Throws {A} e.

(** An argument that is one item or an array of them. *)
Inductive one_or_many (A : Type) : Type :=
  | One (x : A)
  | Many (xs : list A).
Arguments One {A} x.
Arguments Many {A} xs.

(** [if (!Array.isArray(x)) x = [x]]. *)
Definition to_array {A : Type} (x : one_or_many A) : list A :=
  match x with
  | One a => [a]
  | Many xs => xs
  end.

(** [sentNotificationValue.status || sentNotificationValue.error], as a
    condition; [None] is the TypeError of reading a property of [null] or
    [undefined]. *)
Definition flagged (v : value) : option bool :=
  match prop v "status" with
  | None => None
  | Some st =>
      if truthy st then Some true
      else match prop v "error" with
           | None => None
           | Some e => Some (truthy e)
           end
  end.

(** The [forEach] over the settled promises, pushing to [sent] and
    [failed]. *)
Fixpoint collect (sentNotifications : list settled) (acc : BatchResult)
    : completion BatchResult :=
  match sentNotifications with
  | [] => Returns acc
  | Fulfilled v :: rest =>
      match flagged v with
      | None =>
          Throws (VErr ("Cannot read properties of "
                        +:+ (match v with VNull => "null" | _ => "undefined" end)
                        +:+ " (reading 'status')"))
      | Some true =>
          collect rest {| sent := sent acc; failed := failed acc ++ [v] |}
      | Some false =>
          collect rest {| sent := sent acc ++ [v]; failed := failed acc |}
      end
  | RejectedWith reason :: rest =>
      collect rest {| sent := sent acc; failed := failed acc ++ [reason] |}
  end.

Section Dispatcher.

(** The reading of a format by the library behind VError. *)
Variable sprintf : string -> string + string.

(** The client is a dependency of the provider ([dependencies.Client]):
    its state and its [write], whose promise settles one way or the
    other. *)
Variable W : Type.
Variable client_write :
  Client.builtNotification -> string -> string -> string -> W -> W * settled.

(** The notification and its methods belong to the payload builder, which
    is outside the sources: they are parameters. The two methods that
    change a notification return the changed one. *)
Variable notification : Type.
Variable headers : notification -> obj.
Variable compile : notification -> string.
Variable addPushTypeToPayloadIfNeeded : notification -> notification.
Variable removeNonChannelRelatedProperties : notification -> notification.

(** [Promise.allSettled(items.map(async item => ...))]: one settled entry
    per item, in the order of the items. The requests are started in that
    order; how they interleave afterwards is not followed. *)
Fixpoint allSettled {A : Type} (f : A -> W -> W * settled) (items : list A)
    (w : W) : W * list settled :=
  match items with
  | [] => (w, [])
  | x :: rest =>
      let '(w1, o) := f x w in
      let '(w2, os) := allSettled f rest w1 in
      (w2, o :: os)
  end.

Definition empty_batch : BatchResult := {| sent := []; failed := [] |}.

Definition send (n : notification) (recipients : one_or_many string) (w : W)
    : W * completion BatchResult :=
  let builtNotification :=
    {| Client.headers := headers n; Client.body := compile n |} in
  let recipients := to_array recipients in
  let '(w1, sentNotifications) :=
    allSettled
      (fun token => client_write builtNotification token "device" "post")
      recipients w in
  (w1, collect sentNotifications empty_batch).

(** The [switch] on the action: the type and the method, or nothing. *)
Definition action_route (action : string) : option (string * string) :=
  if decide (action = "create") then Some ("channels", "post")
  else if decide (action = "read") then Some ("channels", "get")
  else if decide (action = "readAll") then Some ("allChannels", "get")
  else if decide (action = "delete") then Some ("channels", "delete")
  else None.

(** What the callback of [manageChannels] does to a notification before
    it builds it. *)
Definition prepare (action : string) (n : notification) : notification :=
  removeNonChannelRelatedProperties
    (if decide (action = "create") then addPushTypeToPayloadIfNeeded n else n).

(** [manageChannels]; the notifications are returned as the call leaves
    them. *)
Definition manageChannels (notifications : one_or_many notification)
    (bundleId action : string) (w : W)
    : W * list notification * completion BatchResult :=
  let notifications := to_array notifications in
  match action_route action with
  | None =>
      (w, notifications,
       Throws
         match VError sprintf ("the action " +:+ dquote +:+ action +:+ dquote
                               +:+ " is not supported") with
         | inl message =>
             VObj (<["error" := VErr message]> {[ "bundleId" := VStr bundleId ]})
         | inr cause => VErr cause     (* the Error that VError throws *)
         end)
  | Some (type, method) =>
      let '(w1, sentNotifications) :=
        allSettled
          (fun n =>
             let n' := prepare action n in
             client_write
               {| Client.headers := headers n'; Client.body := compile n' |}
               bundleId type method)
          notifications w in
      (w1, map (prepare action) notifications,
       collect sentNotifications empty_batch)
  end.

Definition broadcast (notifications : one_or_many notification)
    (bundleId : string) (w : W) : W * completion BatchResult :=
  let notifications := to_array notifications in
  let '(w1, sentNotifications) :=
    allSettled
      (fun n =>
         client_write
           {| Client.headers := headers n; Client.body := compile n |}
           bundleId "broadcasts" "post")
      notifications w in
  (w1, collect sentNotifications empty_batch).

End Dispatcher.

End Provider.

(** ** The provider over the client *)

Module Apn.
Import JS.

Section System.

Variable sprintf : string -> string + string.
Variable JSON_parse : string -> value + string.
Variable ToNumber : value -> option Z.
Variable ToString : value -> string.
Variable sign : Z -> string.
Variable c : Client.config.

Variable notification : Type.
Variable headers : notification -> obj.
Variable compile : notification -> string.
Variable addPushTypeToPayloadIfNeeded : notification -> notification.
Variable removeNonChannelRelatedProperties : notification -> notification.

(** [this.client.write(builtNotification, subDirectory, type, method)],
    without a count, as the entry of [Promise.allSettled] it becomes. *)
Definition client_write (builtNotification : Client.builtNotification)
    (subDirectory type method : string) (w : Client.state)
    : Client.state * Provider.settled :=
  match Client.write sprintf JSON_parse ToNumber ToString sign c
          builtNotification
          subDirectory type method None w with
  | (w1, Client.Resolved v) => (w1, Provider.Fulfilled (VObj v))
  | (w1, Client.Rejected e) => (w1, Provider.RejectedWith (VObj e))
  end.

Definition send :=
  Provider.send Client.state client_write notification headers compile.

Definition manageChannels :=
  Provider.manageChannels sprintf Client.state client_write notification
    headers compile addPushTypeToPayloadIfNeeded
    removeNonChannelRelatedProperties.

Definition broadcast :=
  Provider.broadcast Client.state client_write notification headers compile.

End System.

End Apn.

(** ** A sample engine and sample data, for the examples *)

Module Sample.
Import JS.

(** [{"reason":"<r>"}] *)
Definition reason_document (r : string) : string :=
  "{" +:+ dquote +:+ "reason" +:+ dquote +:+ ":" +:+ dquote +:+ r +:+ dquote
  +:+ "}".

(** [{"status":0}] *)
Definition status_zero_document : string :=
  "{" +:+ dquote +:+ "status" +:+ dquote +:+ ":0}".

(** [{"error":"x","retryAfter":1}] *)
Definition leaking_document : string :=
  "{" +:+ dquote +:+ "error" +:+ dquote +:+ ":" +:+ dquote +:+ "x" +:+ dquote
  +:+ "," +:+ dquote +:+ "retryAfter" +:+ dquote +:+ ":1}".

(** [JSON.parse] on the documents of the examples; any other text here is
    not JSON. *)
Definition JSON_parse (s : string) : value + string :=
  if decide (s = reason_document "BadDeviceToken") then
    inl (VObj {[ "reason" := VStr "BadDeviceToken" ]})
  else if decide (s = reason_document "ExpiredProviderToken") then
    inl (VObj {[ "reason" := VStr "ExpiredProviderToken" ]})
  else if decide (s = reason_document "InternalServerError") then
    inl (VObj {[ "reason" := VStr "InternalServerError" ]})
  else if decide (s = status_zero_document) then
    inl (VObj {[ "status" := VNum 0 ]})
  else if decide (s = leaking_document) then
    inl (VObj (<["error" := VStr "x"]> {[ "retryAfter" := VNum 1 ]}))
  else inr "Unexpected token in JSON".

(** The coercion to a number: booleans; anything else used here is no
    number. *)
Definition ToNumber (v : value) : option Z :=
  match v with
  | VBool true => Some 1
  | VBool false => Some 0
  | _ => None
  end.

Definition ToString (v : value) : string :=
  match v with
  | VUndef => "undefined"
  | VNull => "null"
  | VBool true => "true"
  | VBool false => "false"
  | VNum n => pretty n
  | VStr s => s
  | _ => "[object Object]"
  end.

Definition sign (iat : Z) : string := "jwt-" +:+ pretty iat.

(** [sprintf] on the formats of the examples: a format with the
    conversion [%s] finds no argument for it. *)
Definition sprintf (format : string) : string + string :=
  if includes format "%s" then inr "too few args to sprintf"
  else inl format.

Definition config : Client.config :=
  {| Client.address := "api.push.apple.com";
     Client.manageChannelsAddress := "api-manage-broadcast.push.apple.com";
     Client.proxy := None;
     Client.manageChannelsProxy := None;
     Client.connectionRetryLimit := 3 |}.

(** A fresh client with certificate credentials, and the answers that the
    network has in store. *)
Definition fresh (answers : list Client.exchange) : Client.state :=
  {| Client.isDestroyed := false;
     Client.session := None;
     Client.manageChannelsSession := None;
     Client.token := None;
     Client.now := 1000;
     Client.net := answers;
     Client.dials := [];
     Client.log := [] |}.

(** An answer with a status, a body and nothing else. *)
Definition answer (status_ : Z) (data : string) : Client.exchange :=
  {| Client.events :=
       Client.OnResponse {[ ":status" := VNum status_ ]}
       :: (if String.eqb data "" then [] else [Client.OnData data])
       ++ [Client.OnEnd];
     Client.closes := false |}.

(** A notification is its headers and its compiled body; the two methods
    of channel management leave it alone. *)
Definition note : Type := Client.builtNotification.

Definition send :=
  Apn.send sprintf JSON_parse ToNumber ToString sign config note
    Client.headers Client.body.

Definition manageChannels :=
  Apn.manageChannels sprintf JSON_parse ToNumber ToString sign config note
    Client.headers Client.body id id.

Definition broadcast :=
  Apn.broadcast sprintf JSON_parse ToNumber ToString sign config note
    Client.headers Client.body.

Definition write :=
  Client.write sprintf JSON_parse ToNumber ToString sign config.

Definition a_note : note :=
  {| Client.headers := ∅; Client.body := "payload" |}.

Definition request :=
  Client.request JSON_parse ToString sign.

Definition retryRequest :=
  Client.retryRequest JSON_parse ToString sign config.

(** The failure of a request answered with status 500 and the reason
    InternalServerError. *)
Definition error500 : obj :=
  <["status" := VNum 500]> (<["retryAfter" := VUndef]>
    {[ "error" := VErr "Error 500, stream ended unexpectedly" ]}).

(** A client whose push session was closed under it. *)
Definition closed_under (answers : list Client.exchange) : Client.state :=
  {| Client.isDestroyed := false;
     Client.session :=
       Some {| Client.closed := true; Client.destroyed := true |};
     Client.manageChannelsSession := None;
     Client.token := None;
     Client.now := 1000;
     Client.net := answers;
     Client.dials := [];
     Client.log := [] |}.

End Sample.

(** ** Reading the log *)

Module Log.
Import Client.

(** What a step appended to the log. *)
Definition issued (w w' : state) : list io :=
  drop (length (log w)) (log w').

Definition is_request (e : io) : bool :=
  match e with
  | Request _ _ _ _ _ => true
  | _ => false
  end.

(** The number of requests handed to a session. *)
Definition requests (l : list io) : nat := length (filter is_request l).

(** The events of closing a session. *)
Definition is_closing (e : io) : bool :=
  match e with
  | SessionClose _ | SessionDestroy _ => true
  | _ => false
  end.

(** The text that the [data] events of a stream add up to. *)
Definition received (chunks : list string) : string :=
  fold_left (fun acc d => acc +:+ d) chunks "".

End Log.

(** ** The words of the specification, and the shape of failures *)

Module Spec.
Import JS Client.

(** A failure is retryable iff its status is one of 408, 429, 500, 502,
    503, 504, or its status is 403 and the message of its error is
    ExpiredProviderToken (section 4.5). *)
Definition retryable (e : obj) : Prop :=
  (exists n, get "status" e = VNum n /\ In n [408; 429; 500; 502; 503; 504]) \/
  (get "status" e = VNum 403 /\
   prop (get "error" e) "message" = Some (VStr "ExpiredProviderToken")).

(** The failures of a request: the error they carry, if any, is an error
    object, and it names the expired token only under status 403. *)
Definition request_failure (e : obj) : Prop :=
  get "error" e = VUndef \/
  exists m, get "error" e = VErr m /\
            (m = "ExpiredProviderToken" -> get "status" e = VNum 403).

Definition settled_well (r : request_vars) : Prop :=
  forall e, promise r = Some (Rejected e) -> request_failure e.

(** Every request in [l] goes to session [k] with the given authority,
    path and method. *)
Definition requests_go (k : session_kind) (a p m : string) (l : list io)
    : Prop :=
  Forall (fun e => Log.is_request e = true ->
                   exists hs, e = Request k a p m hs) l.

(** The failure of a client that was shut down. *)
Definition destroyed_failure (label subDirectory : string) : obj :=
  <["error" := VErr "client is destroyed"]> {[ label := VStr subDirectory ]}.

(** What a settled entry carries, and whether the provider pushes it to
    [sent]. *)
Definition payload (o : Provider.settled) : value :=
  match o with
  | Provider.Fulfilled v => v
  | Provider.RejectedWith reason => reason
  end.

Definition lands_in_sent (o : Provider.settled) : bool :=
  match o with
  | Provider.Fulfilled v =>
      match Provider.flagged v with
      | Some false => true
      | _ => false
      end
  | Provider.RejectedWith _ => false
  end.

(** The two lists of a batch, read off the settled entries [outs], one
    per recipient and in their order. *)
Definition partitions (outs : list Provider.settled)
    (b : Provider.BatchResult) : Prop :=
  Provider.sent b = payload <$> filter lands_in_sent outs /\
  Provider.failed b = payload <$> filter (fun o => ~ lands_in_sent o) outs.

(** A batch over [items], each written by [f]: the call returns, the
    entry at each position is the settled write of the item at that
    position, the two lists are read off the entries, their lengths add
    up to the number of items, and together they hold what the entries
    carry, each once. *)
Definition batch_of {W A : Type} (f : A -> W -> W * Provider.settled)
    (items : list A) (w : W)
    (result : Provider.completion Provider.BatchResult) : Prop :=
  let outs := (Provider.allSettled W f items w).2 in
  exists b,
    result = Provider.Returns b /\
    length outs = length items /\
    (forall i x, items !! i = Some x ->
                 exists wi, outs !! i = Some (f x wi).2) /\
    partitions outs b /\
    (length (Provider.sent b) + length (Provider.failed b))%nat
      = length items /\
    Provider.sent b ++ Provider.failed b ≡ₚ payload <$> outs.

(** An entry that the [forEach] of the provider can read. *)
Definition readable (o : Provider.settled) : Prop :=
  match o with
  | Provider.Fulfilled v => Provider.flagged v <> None
  | Provider.RejectedWith _ => True
  end.

(** A rejected entry carries a failure without [retryAfter]. *)
Definition rejected_clean (o : Provider.settled) : Prop :=
  match o with
  | Provider.Fulfilled _ => True
  | Provider.RejectedWith reason =>
      exists e, reason = VObj e /\ e !! "retryAfter" = None
  end.

(** Every entry of [failed] is a failure without [retryAfter], or else
    the value of a fulfilled write that the provider moved there. *)
Definition failed_clean (outs : list Provider.settled)
    (result : Provider.completion Provider.BatchResult) : Prop :=
  forall b f,
    result = Provider.Returns b -> f ∈ Provider.failed b ->
    (exists e, f = VObj e /\ e !! "retryAfter" = None) \/
    Provider.Fulfilled f ∈ outs.

(** The actions of [manageChannels]. *)
Definition supported (action : string) : Prop :=
  action = "create" \/ action = "read" \/ action = "readAll"
  \/ action = "delete".

(** The text that [manageChannels] hands to VError for any other
    action, and the failure that the specification describes. *)
Definition unsupported_message (action : string) : string :=
  "the action " +:+ dquote +:+ action +:+ dquote +:+ " is not supported".

Definition unsupported_failure (bundleId action : string) : value :=
  VObj (<["error" := VErr (unsupported_message action)]>
          {[ "bundleId" := VStr bundleId ]}).

End Spec.

(** ** The pool of clients ([lib/multiclient.js]) *)

Module MultiClient.
Import JS.

(** [this.clients] and [this.clientIndex]; an index of [None] is the NaN
    that the remainder by the length of an empty pool would be. *)
Record pool : Type := {
  clients : list Client.state;
  clientIndex : option nat;
}.

(** The way the constructor ends. *)
Inductive construction : Type :=
  | Built (p : pool)
  | Refused (message : string).

Section Pool.

(** The engine's [parseInt(v, 10)] ([None] is NaN) and its conversion of
    a value inside a template literal. *)
Variable parseInt : value -> option Z.
Variable ToString : value -> string.

(** [new MultiClient(options)]: [clientCount] is [options.clientCount],
    and [new_Client i] the client that the [i]-th [new Client(options)]
    makes. *)
Definition MultiClient (clientCount : value) (new_Client : nat -> Client.state)
    : construction :=
  let refused :=
    Refused ("Expected positive client count but got "
             +:+ ToString clientCount) in
  match parseInt (or_else clientCount (VNum 2)) with
  | None => refused                       (* [!Number.isFinite(count)] *)
  | Some count =>
      if count <? 1 then refused
      else Built {| clients := new_Client <$> seq 0 (Z.to_nat count);
                    clientIndex := Some 0%nat |}
  end.

End Pool.

(** [chooseSingleClient]: the position of the client it returns ([None]
    for [undefined]), and the pool with the index moved on. *)
Definition chooseSingleClient (p : pool) : option nat * pool :=
  let client :=
    match clientIndex p with
    | Some i => if decide (i < length (clients p))%nat then Some i else None
    | None => None
    end in
  let next :=
    match clientIndex p, length (clients p) with
    | Some i, S _ => Some ((i + 1) mod length (clients p))%nat
    | _, _ => None
    end in
  (client, {| clients := clients p; clientIndex := next |}).

(** The index is a position in the pool. *)
Definition pool_ok (p : pool) : Prop :=
  exists i, clientIndex p = Some i /\ (i < length (clients p))%nat.

(** [k] calls of [chooseSingleClient] in a row: what they return, and
    the pool they leave. *)
Fixpoint choices (k : nat) (p : pool) : list (option nat) * pool :=
  match k with
  | O => ([], p)
  | S k' =>
      let '(chosen, p1) := chooseSingleClient p in
      let '(rest, p2) := choices k' p1 in
      (chosen :: rest, p2)
  end.

Section Writing.

Variable sprintf : string -> string + string.
Variable JSON_parse : string -> value + string.
Variable ToNumber : value -> option Z.
Variable ToString : value -> string.
Variable sign : Z -> string.
Variable c : Client.config.

(** [write]: the write of the chosen client, which is changed in place;
    calling [write] on [undefined] is a TypeError. *)
Definition write (notification : Client.builtNotification)
    (subDirectory type method : string) (count : option Z) (p : pool)
    : pool * Client.settlement :=
  let '(chosen, p1) := chooseSingleClient p in
  match chosen with
  | None => (p1, Client.Rejected Client.native_error)
  | Some i =>
      match clients p1 !! i with
      | None => (p1, Client.Rejected Client.native_error)
      | Some w =>
          let '(w', s) :=
            Client.write sprintf JSON_parse ToNumber ToString sign c
              notification subDirectory type method count w in
          ({| clients := <[i := w']> (clients p1);
              clientIndex := clientIndex p1 |}, s)
      end
  end.

End Writing.

Definition is_callback (e : Client.io) : bool :=
  match e with
  | Client.Callback => true
  | _ => false
  end.

(** The counter of [shutdown] and the number of times the callback of
    the caller has run. *)
Record countdown : Type := {
  callCount : nat;
  fired : nat;
}.

(** [multiCallback], for a pool of [n] clients. *)
Definition multiCallback (callback : bool) (n : nat) (cd : countdown)
    : countdown :=
  let callCount := S (callCount cd) in
  {| callCount := callCount;
     fired := if decide (callCount = n)
              then (if callback then S (fired cd) else fired cd)
              else fired cd |}.

(** The loop of [shutdown] over the clients: each is shut down with
    [multiCallback], which runs once for every time that client calls
    its callback. *)
Fixpoint shutdown_each (callback : bool) (n : nat) (ws : list Client.state)
    (cd : countdown) : list Client.state * countdown :=
  match ws with
  | [] => ([], cd)
  | w :: rest =>
      let w' := Client.shutdown true w in
      let calls := length (filter is_callback (Log.issued w w')) in
      let cd' := Nat.iter calls (multiCallback callback n) cd in
      let '(rest', cd'') := shutdown_each callback n rest cd' in
      (w' :: rest', cd'')
  end.

(** [shutdown(callback)]; [callback] tells whether one was passed. *)
Definition shutdown (callback : bool) (p : pool) : pool * countdown :=
  let '(ws, cd) :=
    shutdown_each callback (length (clients p)) (clients p)
      {| callCount := 0; fired := 0 |} in
  ({| clients := ws; clientIndex := clientIndex p |}, cd).

End MultiClient.

(** ** The configuration ([lib/config.js]) *)

Module Config.
Import JS.

Definition EndpointAddress_production : string := "api.push.apple.com".
Definition EndpointAddress_development : string :=
  "api.sandbox.push.apple.com".
Definition ManageChannelsEndpointAddress_production : string :=
  "api-manage-broadcast.push.apple.com".
Definition ManageChannelsEndpointAddress_development : string :=
  "api-manage-broadcast.sandbox.push.apple.com".

(** The properties of the options that the address functions read and
    write. *)
Record options : Type := {
  production : value;
  address : value;
  manageChannelsAddress : value;
  manageChannelsPort : value;
}.

Definition configureAddress (o : options) : options :=
  if negb (truthy (address o)) then
    {| production := production o;
       address :=
         if truthy (production o) then VStr EndpointAddress_production
         else VStr EndpointAddress_development;
       manageChannelsAddress := manageChannelsAddress o;
       manageChannelsPort := manageChannelsPort o |}
  else
    {| production :=
         VBool (strict_eq_str (address o) EndpointAddress_production);
       address := address o;
       manageChannelsAddress := manageChannelsAddress o;
       manageChannelsPort := manageChannelsPort o |}.

Definition configureManageChannelsPort (o : options) : options :=
  if negb (truthy (manageChannelsPort o)) then
    {| production := production o;
       address := address o;
       manageChannelsAddress := manageChannelsAddress o;
       manageChannelsPort :=
         if truthy (production o) then VNum 2196 else VNum 2195 |}
  else o.

Definition configureManageChannelsAddress (o : options) : options :=
  configureManageChannelsPort
    (if negb (truthy (manageChannelsAddress o)) then
       {| production := production o;
          address := address o;
          manageChannelsAddress :=
            if truthy (production o)
            then VStr ManageChannelsEndpointAddress_production
            else VStr ManageChannelsEndpointAddress_development;
          manageChannelsPort := manageChannelsPort o |}
     else o).

(** The two calls of [config], in their order. *)
Definition configureAddresses (o : options) : options :=
  configureManageChannelsAddress (configureAddress o).

(** The way a validation ends: [Invalid m] is [throw new Error(m)]. *)
Inductive validation : Type :=
  | Valid
  | Invalid (message : string).

(** One of the two checks of [validateToken], on the property [name]. *)
Definition validateTokenField (name : string) (v : value) : validation :=
  if negb (truthy v) then Invalid ("token." +:+ name +:+ " is missing")
  else match v with
       | VStr _ => Valid
       | _ => Invalid ("token." +:+ name +:+ " must be a string")
       end.

(** [validateToken(token)], for a token that is an object. *)
Definition validateToken (token : obj) : validation :=
  match validateTokenField "keyId" (get "keyId" token) with
  | Invalid m => Invalid m
  | Valid => validateTokenField "teamId" (get "teamId" token)
  end.

End Config.

(** ** Reading the log and the stream, continued *)

Module Extra.
Import JS Client.

Definition is_sleep (e : io) : bool :=
  match e with
  | Sleep _ => true
  | _ => false
  end.

(** The events of setting up a session. *)
Definition is_connecting (e : io) : bool :=
  match e with
  | Dial _ | Connect _ => true
  | _ => false
  end.

Definition is_end (ev : stream_event) : bool :=
  match ev with
  | OnEnd => true
  | _ => false
  end.

(** What [request] and [retryRequest] add to the log. *)
Definition is_wire (e : io) : bool :=
  match e with
  | Request _ _ _ _ _ | StreamWrite _ | StreamEnd | Sleep _
  | SessionClose _ | SessionDestroy _ => true
  | _ => false
  end.

(** The session [k] is there and open, the client is alive, and no
    answer in store closes the session. *)
Definition steady (k : session_kind) (w : state) : Prop :=
  isDestroyed w = false /\
  (exists s, session_of k w = Some s /\ closed s = false) /\
  Forall (fun ex => closes ex = false) (net w).

(** The properties that a failure of [request] can have. *)
Definition failure_keys : list string :=
  ["apns-unique-id"; "apns-request-id"; "apns-channel-id"; "status";
   "retryAfter"; "response"; "error"].

Definition within_failure_keys (e : obj) : Prop :=
  forall key, key ∉ failure_keys -> e !! key = None.

Definition same_kind (k k' : session_kind) : bool :=
  match k, k' with
  | Push, Push | Manage, Manage => true
  | _, _ => false
  end.

(** The session that [write] uses for a path, and its authority. *)
Definition session_for (path : string) : session_kind :=
  if includes path "/1/apps/" then Manage else Push.

Definition authority_for (c : config) (k : session_kind) : string :=
  match k with
  | Manage => manageChannelsAddress c
  | Push => address c
  end.

(** What connecting adds to the log: nothing when the session is there
    and open, else the dial through the proxy, if one is configured, and
    the connection, unless the dial fails. *)
Definition connecting (c : config) (k : session_kind) (w : state) : list io :=
  if needs_connect (session_of k w) then
    match proxy_of c k with
    | Some _ =>
        match dials w with
        | Some _ :: _ => [Dial k]
        | _ => [Dial k; Connect k]
        end
    | None => [Connect k]
    end
  else [].

(** A dial for the session [k] was refused: the log shows a dial for it
    that no connection follows at once. *)
Fixpoint refused (k : session_kind) (l : list io) : bool :=
  match l with
  | [] => false
  | Dial k' :: rest =>
      (same_kind k' k
       && match rest with
          | Connect k'' :: _ => negb (same_kind k'' k)
          | _ => true
          end)
      || refused k rest
  | _ :: rest => refused k rest
  end.

(** The failure of a dial through the proxy, as [write] throws it. *)
Definition proxy_failure (label subDirectory cause : string) : obj :=
  <["error" :=
      VObj {[ "error" :=
                VErr ("cannot connect to proxy server: " +:+ cause) ]}]>
    {[ label := VStr subDirectory ]}.

(** The events that settle a pending request. *)
Definition is_settling (ev : stream_event) : bool :=
  match ev with
  | OnResponse _ | OnData _ => false
  | _ => true
  end.

(** Every failure that has settled the request stays within the
    properties of a failure. *)
Definition settled_within (r : request_vars) : Prop :=
  forall e, promise r = Some (Rejected e) -> within_failure_keys e.

(** The request is pending, or a bare error has settled it. *)
Definition bare (r : request_vars) : Prop :=
  match promise r with
  | None => True
  | Some s => exists message, s = Rejected {[ "error" := VErr message ]}
  end.

(** The exchange that answers the next request. *)
Definition awaited (w : state) : exchange :=
  match net w with
  | ex :: _ => ex
  | [] => {| events := []; closes := false |}
  end.

(** The status is one of the three markers that the handlers of a
    timeout, an abort and an error set. *)
Definition is_marker (v : value) : bool :=
  strict_eq_str v TIMEOUT_STATUS || strict_eq_str v ABORTED_STATUS
  || strict_eq_str v ERROR_STATUS.

(** The headers of a response carry a status that is no marker. *)
Definition plain_status (ev : stream_event) : Prop :=
  match ev with
  | OnResponse hs => is_marker (get ":status" hs) = false
  | _ => True
  end.

Definition unknown_error : string :=
  "Timeout, aborted, or other unknown error".

(** The settlement is not the failure with the unknown error. *)
Definition fine (s : settlement) : Prop :=
  match s with
  | Resolved _ => True
  | Rejected e => get "error" e <> VErr unknown_error
  end.

(** A pending request has a status that is no marker, and a settled one
    is fine. *)
Definition known (r : request_vars) : Prop :=
  match promise r with
  | None => is_marker (status r) = false
  | Some s => fine s
  end.

(** The number of waits before a retry. *)
Definition sleeps (l : list io) : nat := length (filter is_sleep l).

(** What a settlement carries. *)
Definition thrown (s : settlement) : obj :=
  match s with
  | Resolved v => v
  | Rejected e => e
  end.

End Extra.

(** ** Further scenarios *)

Module Scenario.
Import JS.

(** A configuration that reaches the push endpoint through a proxy. *)
Definition proxied : Client.config :=
  {| Client.address := "api.push.apple.com";
     Client.manageChannelsAddress := "api-manage-broadcast.push.apple.com";
     Client.proxy := Some {| Client.host := "proxy.local"; Client.port := 3128 |};
     Client.manageChannelsProxy := None;
     Client.connectionRetryLimit := 3 |}.

(** A fresh client whose first dial through the proxy is refused. *)
Definition behind_proxy : Client.state :=
  {| Client.isDestroyed := false;
     Client.session := None;
     Client.manageChannelsSession := None;
     Client.token := None;
     Client.now := 1000;
     Client.net := [];
     Client.dials := [Some "ECONNREFUSED"];
     Client.log := [] |}.

(** A client whose push session is open. *)
Definition connected (answers : list Client.exchange) : Client.state :=
  {| Client.isDestroyed := false;
     Client.session :=
       Some {| Client.closed := false; Client.destroyed := false |};
     Client.manageChannelsSession := None;
     Client.token := None;
     Client.now := 1000;
     Client.net := answers;
     Client.dials := [];
     Client.log := [] |}.

(** A stream that times out after its headers and ends later. *)
Definition late_end : list Client.stream_event :=
  [Client.OnResponse {[ ":status" := VNum 200 ]}; Client.OnTimeout;
   Client.OnEnd].

(** A stream that is aborted after its headers. *)
Definition aborted : Client.exchange :=
  {| Client.events :=
       [Client.OnResponse {[ ":status" := VNum 200 ]}; Client.OnAborted];
     Client.closes := false |}.

(** A pool of three clients whose index is at the second. *)
Definition trio : MultiClient.pool :=
  {| MultiClient.clients :=
       [Sample.fresh []; Sample.fresh [Sample.answer 200 ""]; Sample.fresh []];
     MultiClient.clientIndex := Some 1%nat |}.

End Scenario.

(** Decides the comparisons of characters that a goal contains. *)
Ltac compare_chars :=
  repeat match goal with
    | |- context [Ascii.ascii_dec ?a ?b] =>
        destruct (Ascii.ascii_dec a b);
        try discriminate; try congruence; subst
    end.

(** * Properties *)

Import JS.

Section ClientFacts.
Import Client Log Spec Extra.

Variable sprintf : string -> string + string.
Variable JSON_parse : string -> value + string.
Variable ToNumber : value -> option Z.
Variable ToString : value -> string.
Variable sign : Z -> string.
Variable c : config.

Abbreviation request := (Client.request JSON_parse ToString sign).
Abbreviation retryRequest := (Client.retryRequest JSON_parse ToString sign c).
Abbreviation write :=
  (Client.write sprintf JSON_parse ToNumber ToString sign c).
Abbreviation write_on := (Client.write_on JSON_parse ToNumber ToString sign c).

Lemma log_emit e w : log (emit e w) = log w ++ [e].
Proof. reflexivity. Qed.

Lemma destroySession_log k w :
  exists l, log (destroySession k w) = log w ++ l /\ forallb is_closing l = true
            /\ forallb (fun e => negb (is_request e)) l = true.
Proof.
  unfold destroySession. destruct (session_of k w) as [s|].
  - destruct (destroyed s).
    + exists []. by rewrite app_nil_r.
    + exists [SessionDestroy k]. by destruct k.
  - exists []. by rewrite app_nil_r.
Qed.

Lemma closeAndDestroySession_log k w :
  exists l, log (closeAndDestroySession k w) = log w ++ l
            /\ forallb is_closing l = true.
Proof.
  unfold closeAndDestroySession. destruct (session_of k w) as [s|].
  - destruct (closed s).
    + destruct (destroySession_log k w) as (l & -> & H & _). eauto.
    + match goal with |- context [destroySession k ?w1] =>
        destruct (destroySession_log k w1) as (l & -> & H & _) end.
      exists (SessionClose k :: l). split; [|done].
      simpl. destruct k; by rewrite <- app_assoc.
  - exists []. by rewrite app_nil_r.
Qed.


Lemma request_log k a n p m w :
  exists hs closing,
    log (request k a n p m w).1 =
      log w ++ Request k a p m hs
        :: (if String.eqb (body n) "{}" then [] else [StreamWrite (body n)])
        ++ StreamEnd :: closing
    /\ forallb is_closing closing = true.
Proof.
  unfold Client.request.
  set (ex := match net w with e :: _ => e | [] => _ end).
  destruct (token w) as [t|]; simpl.
  all: match goal with |- context [Request _ _ _ _ ?hs] => exists hs end.
  all: destruct (closes ex); simpl.
  all: try (match goal with |- context [closeAndDestroySession ?kk ?w1] =>
              destruct (closeAndDestroySession_log kk w1) as (l & -> & Hl) end;
            exists l; split; [|done]; simpl).
  all: try (exists []; split; [|done]).
  all: destruct (String.eqb (body n) "{}"); simpl;
       rewrite <- ?app_assoc; simpl; reflexivity.
Qed.

Lemma createHeaderObject_lookup u r ch k :
  k <> "apns-unique-id" -> k <> "apns-request-id" -> k <> "apns-channel-id" ->
  createHeaderObject u r ch !! k = None.
Proof.
  intros H1 H2 H3. unfold createHeaderObject.
  destruct (truthy u), (truthy r), (truthy ch);
    rewrite ?lookup_insert_ne by done; apply lookup_empty.
Qed.


Lemma request_failure_plain m :
  m <> "ExpiredProviderToken" ->
  request_failure {[ "error" := VErr m ]}.
Proof.
  intros Hm. right. exists m. split; [|done].
  unfold get. by rewrite lookup_singleton_eq.
Qed.

Lemma status_error_failure r h m :
  (m = "ExpiredProviderToken" -> status r = VNum 403) ->
  forall e, status_error r h m = Rejected e -> request_failure e.
Proof.
  intros Hm e [= <-]. right. exists m. unfold get, spread. split.
  - erewrite lookup_union_Some_l; [done|].
    rewrite lookup_insert_ne by done. rewrite lookup_insert_ne by done.
    by rewrite lookup_singleton_eq.
  - intros E. erewrite lookup_union_Some_l; [|by rewrite lookup_insert_eq].
    simpl. auto.
Qed.


Lemma settle_well s r :
  settled_well r -> (forall e, s = Rejected e -> request_failure e) ->
  settled_well (settle s r).
Proof.
  intros Hr Hs e. unfold settle; simpl.
  destruct (promise r) as [s0|] eqn:E; intros [= ->]; auto.
Qed.

Lemma strict_eq_num_true v n : strict_eq_num v n = true -> v = VNum n.
Proof. destruct v; simpl; try done. intros H. apply Z.eqb_eq in H. by subst. Qed.

Lemma unexpected_failure cause e :
  unexpected cause = Rejected e -> request_failure e.
Proof. intros [= <-]. apply request_failure_plain. simpl. discriminate. Qed.

Lemma on_end_well now_ r :
  settled_well r -> settled_well (on_end JSON_parse ToString sign now_ r).
Proof.
  intros Hr. unfold on_end.
  set (h := createHeaderObject (uniqueId r) (requestId r) (channelId r)).
  destruct (strict_eq_num (status r) 200 || strict_eq_num (status r) 201
            || strict_eq_num (status r) 204).
  { destruct (String.eqb (responseData r) "").
    - apply settle_well; [exact Hr | discriminate].
    - destruct (JSON_parse (responseData r)) as [parsed|cause];
        (apply settle_well; [exact Hr|]);
        [discriminate | apply unexpected_failure]. }
  destruct (strict_eq_str (status r) TIMEOUT_STATUS
            || strict_eq_str (status r) ABORTED_STATUS
            || strict_eq_str (status r) ERROR_STATUS).
  { apply settle_well; [exact Hr|].
    apply status_error_failure. discriminate. }
  destruct (negb (String.eqb (responseData r) "")); cycle 1.
  { apply settle_well; [exact Hr|]. intros e [= <-]. right. eexists.
    unfold get, spread. split.
    - erewrite lookup_union_Some_l; [done|]. by rewrite lookup_singleton_eq.
    - simpl. discriminate. }
  destruct (JSON_parse (responseData r)) as [response|cause]; cycle 1.
  { apply settle_well; [exact Hr | apply unexpected_failure]. }
  assert (settled_well
            (settle (Rejected
               (<["response" := response]> (<["retryAfter" := retryAfter r]>
                  (<["status" := status r]> h)))) r)) as Hother.
  { apply settle_well; [exact Hr|]. intros e [= <-]. left. unfold get.
    rewrite !lookup_insert_ne by done.
    subst h. by rewrite createHeaderObject_lookup. }
  destruct (strict_eq_num (status r) 403) eqn:E403.
  { apply strict_eq_num_true in E403.
    destruct (prop response "reason") as [reason|]; cycle 1.
    { apply settle_well; [exact Hr | apply unexpected_failure]. }
    destruct (strict_eq_str reason "ExpiredProviderToken"); [|exact Hother].
    destruct (live_token r) as [t|].
    - apply settle_well; [exact Hr|].
      apply status_error_failure. by intros _.
    - apply settle_well; [exact Hr | apply unexpected_failure]. }
  destruct (strict_eq_num (status r) 500); [|exact Hother].
  destruct (prop response "reason") as [reason|]; cycle 1.
  { apply settle_well; [exact Hr | apply unexpected_failure]. }
  destruct (strict_eq_str reason "InternalServerError"); [|exact Hother].
  apply settle_well; [exact Hr|].
  apply status_error_failure. discriminate.
Qed.


Lemma handle_well now_ r ev :
  settled_well r -> settled_well (handle JSON_parse ToString sign now_ r ev).
Proof.
  intros Hr. destruct ev; simpl; try exact Hr.
  - by apply on_end_well.
  - apply settle_well; [exact Hr|]. intros e [= <-].
    by apply request_failure_plain.
  - apply settle_well; [exact Hr|]. intros e [= <-].
    by apply request_failure_plain.
  - apply settle_well; [exact Hr|]. intros e [= <-].
    apply request_failure_plain. simpl. discriminate.
  - apply settle_well; [exact Hr|]. intros e [= <-].
    apply request_failure_plain. simpl. discriminate.
Qed.

Lemma fold_handle_well now_ evs r :
  settled_well r ->
  settled_well (fold_left (handle JSON_parse ToString sign now_) evs r).
Proof.
  revert r. induction evs as [|ev evs IH]; intros r Hr; simpl; [done|].
  apply IH. by apply handle_well.
Qed.

Lemma request_rejects_well k a n p m w w1 e :
  request k a n p m w = (w1, Rejected e) -> request_failure e.
Proof.
  unfold Client.request.
  set (ex := match net w with e :: _ => e | [] => _ end).
  destruct (token w) as [t|]; simpl.
  all: match goal with |- context [fold_left ?f ?l ?r0] =>
         assert (Hw : settled_well (fold_left f l r0))
           by (apply fold_handle_well; intros ? [=]);
         destruct (promise (fold_left f l r0)) as [s|] eqn:E end.
  all: intros [= _ H]; subst;
       first [ by apply Hw | by apply request_failure_plain ].
Qed.


Lemma includes_status v :
  existsb (strict_eq_num v) retryStatusCodes = true <->
  exists n, v = VNum n /\ In n [408; 429; 500; 502; 503; 504].
Proof.
  rewrite existsb_exists. split.
  - intros (n & Hin & Hn). apply strict_eq_num_true in Hn. eauto.
  - intros (n & -> & Hin). exists n. split; [done|]. simpl. apply Z.eqb_refl.
Qed.

Lemma is_retryable_spec e :
  request_failure e ->
  is_retryable ToNumber e <> None /\
  (is_retryable ToNumber e = Some true <-> retryable e).
Proof.
  intros He. unfold is_retryable, retryable.
  destruct (existsb _ retryStatusCodes) eqn:Ex.
  - split; [done|]. split; [|done]. intros _. left. by apply includes_status.
  - assert (Hno : ~ exists n, get "status" e = VNum n /\
                     In n [408; 429; 500; 502; 503; 504]).
    { intros H. apply includes_status in H. congruence. }
    destruct He as [Hu | (m & Hm & H403)].
    + rewrite Hu. split; [done|]. split; [done|].
      intros [H | [_ H]]; [done|]. by simpl in H.
    + rewrite Hm. simpl.
      destruct (loose_eq_num ToNumber (get "status" e) 403) eqn:L.
      * split; [done|]. split.
        -- intros [= H]. right. apply String.eqb_eq in H. subst m.
           by rewrite H403.
        -- intros [H | [_ [= ->]]]; [done|]. done.
      * split; [done|]. split; [done|].
        intros [H | [Hs [= ->]]]; [done|].
        rewrite Hs in L. simpl in L. done.
Qed.


Lemma write_known notification subDirectory type method count w path httpMethod :
  makePath type subDirectory = Some path ->
  HTTPMethod method = Some httpMethod ->
  isDestroyed w = false ->
  let k := if includes path "/1/apps/" then Manage else Push in
  let address_ :=
    match k with Manage => manageChannelsAddress c | Push => address c end in
  let info :=
    makeSubDirectoryTypeObject (default type (subDirectoryLabel type))
      subDirectory in
  write notification subDirectory type method count w =
  match (if needs_connect (session_of k w) then connect_session c k w
         else (w, None)) with
  | (w0, Some error) =>
      (w0, Rejected (<["error" := VObj error]> info))
  | (w0, None) =>
      write_on k address_ info notification path httpMethod (default 0 count) w0
  end.
Proof.
  intros Hp Hm Hd. unfold Client.write. rewrite Hp, Hm, Hd.
  destruct (includes path "/1/apps/"); simpl.
  - unfold manageChannelsConnect.
    destruct (if needs_connect _ then _ else _) as [w0 [err|]]; reflexivity.
  - unfold connect.
    destruct (if needs_connect _ then _ else _) as [w0 [err|]] eqn:E; [|reflexivity].
    assert (err !! "retryAfter" = None) as Hn.
    { destruct (needs_connect (session w)); [|by inversion E].
      unfold connect_session, proxy_of, createProxySocket in E.
      destruct (proxy c); [|by inversion E].
      destruct (dials (emit (Dial Push) w)) as [|[cause|] rest];
        inversion E; subst. by rewrite lookup_singleton_ne. }
    by rewrite delete_id.
Qed.

Lemma retryRequest_unfold error k a n p m count w :
  retryRequest error k a n p m count w =
  match is_gone k w with
  | None => (w, Rejected native_error)
  | Some true => (w, closed_or_destroyed)
  | Some false =>
      if decide (connectionRetryLimit c < count + 1) then (w, Rejected error)
      else
        match request k a n p m
                (emit (Sleep (or_else (get "retryAfter" error) (VNum 0))) w) with
        | (w2, Resolved v) => (w2, Resolved v)
        | (w2, Rejected e) => retryRequest e k a n p m (count + 1) w2
        end
  end.
Proof.
  simp retryRequest. destruct (is_gone k w) as [[|]|]; simpl; try reflexivity.
  destruct (decide (connectionRetryLimit c < count + 1)); simpl; [reflexivity|].
  destruct (request _ _ _ _ _ _) as [w2 [v|e]]; reflexivity.
Qed.

(** C3 (amended). In [write], the failure of the first request is handed
    to [retryRequest] exactly when it is retryable in the words of the
    specification (status 408, 429, 500, 502, 503 or 504, or status 403
    with the message ExpiredProviderToken); any other failure of the
    first request is thrown at once, without [retryAfter], in the state
    the request left. The failure of a later attempt is not tested: while
    the session is open and the count allows another attempt, it is
    handed to [retryRequest] again, retryable or not. *)
Theorem write_retries_iff_retryable
    notification subDirectory type method count w path httpMethod w0 w1 e :
  makePath type subDirectory = Some path ->
  HTTPMethod method = Some httpMethod ->
  isDestroyed w = false ->
  let k := if includes path "/1/apps/" then Manage else Push in
  let address_ :=
    match k with Manage => manageChannelsAddress c | Push => address c end in
  let info :=
    makeSubDirectoryTypeObject (default type (subDirectoryLabel type))
      subDirectory in
  (if needs_connect (session_of k w) then connect_session c k w
   else (w, None)) = (w0, None) ->
  request k address_ notification path httpMethod w0 = (w1, Rejected e) ->
  (is_retryable ToNumber e = Some true <-> retryable e) /\
  (retryable e ->
   write notification subDirectory type method count w =
   match retryRequest e k address_ notification path httpMethod
           (default 0 count) w1 with
   | (w2, Resolved v) => (w2, Resolved (spread info v))
   | (w2, Rejected e2) =>
       (if loose_eq_num ToNumber (get "status" e2) 500
        then closeAndDestroySession k w2 else w2,
        Rejected (spread info (delete "retryAfter" e2)))
   end) /\
  (~ retryable e ->
   write notification subDirectory type method count w =
   (w1, Rejected (spread info (delete "retryAfter" e)))) /\
  (retryable e -> is_gone k w1 = Some false ->
   ~ connectionRetryLimit c < default 0 count + 1 ->
   forall w2 e2,
     request k address_ notification path httpMethod
       (emit (Sleep (or_else (get "retryAfter" e) (VNum 0))) w1)
     = (w2, Rejected e2) ->
     write notification subDirectory type method count w =
     match retryRequest e2 k address_ notification path httpMethod
             (default 0 count + 1) w2 with
     | (w3, Resolved v) => (w3, Resolved (spread info v))
     | (w3, Rejected e3) =>
         (if loose_eq_num ToNumber (get "status" e3) 500
          then closeAndDestroySession k w3 else w3,
          Rejected (spread info (delete "retryAfter" e3)))
     end).
Proof.
  intros Hp Hm Hd k address_ info Hc Hr.
  pose proof (request_rejects_well _ _ _ _ _ _ _ _ Hr) as Hshape.
  destruct (is_retryable_spec e Hshape) as [Hsome Hiff].
  split; [exact Hiff|].
  rewrite (write_known _ _ _ _ _ _ _ _ Hp Hm Hd).
  fold k address_ info. rewrite Hc. unfold Client.write_on. rewrite Hr.
  split; [|split]; intros H.
  - apply Hiff in H. rewrite H. reflexivity.
  - destruct (is_retryable ToNumber e) as [[|]|] eqn:E.
    + exfalso. by apply H, Hiff.
    + reflexivity.
    + done.
  - intros Hg Hl w2 e2 Hreq. apply Hiff in H. rewrite H.
    rewrite retryRequest_unfold, Hg.
    destruct (decide _); [done|]. by rewrite Hreq.
Qed.

Lemma requests_app l1 l2 : requests (l1 ++ l2) = (requests l1 + requests l2)%nat.
Proof. unfold requests. by rewrite filter_app, length_app. Qed.

Lemma requests_closing l : forallb is_closing l = true -> requests l = 0%nat.
Proof.
  induction l as [|x l IH]; [done|]. simpl. intros H.
  apply andb_true_iff in H as [Hx Hl]. unfold requests in *.
  destruct x; try done; simpl; rewrite filter_cons; simpl; auto.
Qed.

Lemma requests_request k a n p m w :
  requests (log (request k a n p m w).1) = S (requests (log w)).
Proof.
  destruct (request_log k a n p m w) as (hs & closing & -> & Hc).
  rewrite requests_app. change (Request k a p m hs :: ?l) with ([Request k a p m hs] ++ l).
  rewrite requests_app.
  assert (requests ((if String.eqb (body n) "{}" then [] else [StreamWrite (body n)])
                    ++ StreamEnd :: closing) = 0%nat) as ->.
  { rewrite requests_app.
    change (StreamEnd :: closing) with ([StreamEnd] ++ closing).
    rewrite requests_app, (requests_closing _ Hc).
    by destruct (String.eqb (body n) "{}"). }
  unfold requests at 2. simpl. lia.
Qed.

Lemma retryRequest_requests (budget : nat) :
  forall error k a n p m count w,
    Z.to_nat (connectionRetryLimit c - count) = budget ->
    (requests (log (retryRequest error k a n p m count w).1)
     <= requests (log w) + budget)%nat.
Proof.
  induction budget as [|budget IH]; intros error k a n p m count w Hb;
    rewrite retryRequest_unfold.
  - destruct (is_gone k w) as [[|]|]; simpl; try lia.
    destruct (decide _) as [|Hn]; simpl; lia.
  - destruct (is_gone k w) as [[|]|]; simpl; try lia.
    destruct (decide _) as [|Hn]; simpl; [lia|].
    pose proof (requests_request k a n p m
      (emit (Sleep (or_else (get "retryAfter" error) (VNum 0))) w)) as Hreq.
    rewrite log_emit, requests_app in Hreq.
    change (requests [Sleep _]) with 0%nat in Hreq.
    destruct (request _ _ _ _ _ _) as [w2 [v|e]]; simpl in *.
    + lia.
    + specialize (IH e k a n p m (count + 1) w2 ltac:(lia)). lia.
Qed.


Lemma request_log_grows k a n p m w :
  exists l, log (request k a n p m w).1 = log w ++ l.
Proof. destruct (request_log k a n p m w) as (hs & closing & -> & _). eauto. Qed.

Lemma retryRequest_log_grows (budget : nat) :
  forall error k a n p m count w,
    Z.to_nat (connectionRetryLimit c - count) = budget ->
    exists l, log (retryRequest error k a n p m count w).1 = log w ++ l.
Proof.
  induction budget as [|budget IH]; intros error k a n p m count w Hb;
    rewrite retryRequest_unfold.
  all: destruct (is_gone k w) as [[|]|]; simpl;
       try (exists []; by rewrite app_nil_r).
  all: destruct (decide _) as [|Hn]; simpl;
       try (exists []; by rewrite app_nil_r).
  - lia.
  - destruct (request_log_grows k a n p m
      (emit (Sleep (or_else (get "retryAfter" error) (VNum 0))) w))
      as [l1 Hl1].
    destruct (request _ _ _ _ _ _) as [w2 [v|e]]; simpl in *.
    + eexists. rewrite Hl1. simpl. by rewrite <- app_assoc.
    + destruct (IH e k a n p m (count + 1) w2 ltac:(lia)) as [l2 Hl2].
      eexists. rewrite Hl2, Hl1. simpl. by rewrite <- !app_assoc.
Qed.

Lemma steady_emit k e w : steady k w -> steady k (emit e w).
Proof. intros (Hd & Hs & Hn). by repeat split. Qed.

Lemma steady_alive k w : steady k w -> is_gone k w = Some false.
Proof.
  intros (Hd & (s & Hs & Hc) & _). unfold is_gone. by rewrite Hd, Hs, Hc.
Qed.

Lemma request_now_net k a n p m w :
  now (request k a n p m w).1 = now w /\
  net (request k a n p m w).1 = tail (net w).
Proof.
  assert (forall w0, now (closeAndDestroySession k w0) = now w0
                     /\ net (closeAndDestroySession k w0) = net w0) as Hc.
  { intros w0. unfold closeAndDestroySession, destroySession.
    destruct k; simpl.
    - destruct (session w0) as [[[] []]|] eqn:E; simpl; by rewrite ?E.
    - destruct (manageChannelsSession w0) as [[[] []]|] eqn:E; simpl;
        by rewrite ?E. }
  unfold Client.request.
  destruct (token w) as [t|]; simpl.
  all: destruct (closes _); destruct (String.eqb (body n) "{}").
  all: try match goal with |- context [closeAndDestroySession ?kk ?ww] =>
         destruct (Hc ww) as [-> ->]
       end.
  all: done.
Qed.

Lemma request_steady k a n p m w :
  steady k w -> steady k (request k a n p m w).1.
Proof.
  intros (Hd & (s & Hs & Hc) & Hn). unfold Client.request.
  assert (closes (match net w with
                  | e :: _ => e
                  | [] => {| events := []; closes := false |}
                  end) = false) as Hcl.
  { destruct (net w) as [|ex rest]; [done|]. by inversion Hn. }
  assert (Forall (fun ex => closes ex = false) (tail (net w))) as Ht.
  { destruct (net w) as [|ex rest]; [done|]. by inversion Hn. }
  destruct (token w) as [t|]; simpl; rewrite Hcl; simpl.
  all: unfold steady; destruct (String.eqb (body n) "{}"); simpl.
  all: split; [done|]; split; [|done].
  all: exists s; split; [by destruct k|done].
Qed.

(** On a session that stays open, a call that fails has made one request
    for each attempt it had left, and throws the failure of the last. *)
Lemma retryRequest_last (budget : nat) :
  forall error k a n p m count w w' e,
    Z.to_nat (connectionRetryLimit c - count) = budget ->
    steady k w ->
    retryRequest error k a n p m count w = (w', Rejected e) ->
    match budget with
    | O => w' = w /\ e = error
    | S earlier =>
        requests (log w') = (requests (log w) + S earlier)%nat /\
        steady k w' /\
        exists w1,
          request k a n p m w1 = (w', Rejected e) /\
          net w1 = drop earlier (net w) /\ now w1 = now w
    end.
Proof.
  induction budget as [|budget IH]; intros error k a n p m count w w' e Hb Hw;
    rewrite retryRequest_unfold, (steady_alive _ _ Hw).
  all: destruct (decide _) as [|Hn]; simpl; try lia.
  - by intros [= <- <-].
  - set (w0 := emit (Sleep (or_else (get "retryAfter" error) (VNum 0))) w).
    pose proof (request_steady k a n p m w0 (steady_emit k _ w Hw)) as Hw2.
    pose proof (requests_request k a n p m w0) as Hreq.
    subst w0. rewrite log_emit, requests_app in Hreq.
    change (requests [Sleep _]) with 0%nat in Hreq.
    destruct (request_now_net k a n p m
                (emit (Sleep (or_else (get "retryAfter" error) (VNum 0))) w))
      as [Hnow Hnet].
    destruct (request _ _ _ _ _ _) as [w2 [v|e1]] eqn:Hrequest;
      simpl in *; [done|].
    intros H. apply IH in H; [|lia|done].
    destruct budget as [|earlier].
    + destruct H as [-> ->]. split; [lia|]. split; [done|]. eauto.
    + destruct H as (Hr & Hs & w1 & H1 & Hn1 & Hw1).
      split; [lia|]. split; [done|]. exists w1. split; [done|].
      rewrite Hn1, Hw1, Hnet, Hnow. split; [|done].
      destruct (net w) as [|ex rest]; simpl; [|done].
      by rewrite !drop_nil.
Qed.

(** C4 (amended). [retryRequest] is total, and from attempt count
    [count] it hands at most [connectionRetryLimit - count] further
    requests to the session, hence at most [connectionRetryLimit] when the
    count is not negative. When the client is shut down or the session is
    closed it throws its own failure; otherwise, as soon as [count + 1]
    exceeds the limit, it throws the failure it was given, unchanged,
    without another request. Before that it waits, makes the request,
    and hands the failure of that request, not the one it was given, to
    the next round. On a session that stays open, a call that fails has
    therefore made exactly [connectionRetryLimit - count] requests, and
    what it throws is the failure of the last of them, the request that
    took the answer in that place of the answers in store. *)
Theorem retryRequest_bounded error k a n p m count w :
  (requests (log (retryRequest error k a n p m count w).1)
   <= requests (log w) + Z.to_nat (connectionRetryLimit c - count))%nat /\
  (0 <= count ->
   (requests (log (retryRequest error k a n p m count w).1)
    <= requests (log w) + Z.to_nat (connectionRetryLimit c))%nat) /\
  (is_gone k w = Some false -> connectionRetryLimit c < count + 1 ->
   retryRequest error k a n p m count w = (w, Rejected error)) /\
  (is_gone k w = Some true ->
   retryRequest error k a n p m count w = (w, closed_or_destroyed)) /\
  (is_gone k w = Some false -> ~ connectionRetryLimit c < count + 1 ->
   forall w2 e2,
     request k a n p m
       (emit (Sleep (or_else (get "retryAfter" error) (VNum 0))) w)
     = (w2, Rejected e2) ->
     retryRequest error k a n p m count w
     = retryRequest e2 k a n p m (count + 1) w2) /\
  (steady k w ->
   forall w' e,
     retryRequest error k a n p m count w = (w', Rejected e) ->
     match Z.to_nat (connectionRetryLimit c - count) with
     | O => w' = w /\ e = error
     | S earlier =>
         requests (issued w w') = S earlier /\
         exists w1,
           request k a n p m w1 = (w', Rejected e) /\
           net w1 = drop earlier (net w) /\ now w1 = now w
     end).
Proof.
  pose proof (retryRequest_requests _ error k a n p m count w eq_refl) as Hb.
  split; [exact Hb|]. split; [intros Hc; lia|].
  split; [|split; [|split]].
  - intros Hg Hl. rewrite retryRequest_unfold, Hg.
    destruct (decide _); [reflexivity | lia].
  - intros Hg. by rewrite retryRequest_unfold, Hg.
  - intros Hg Hl w2 e2 Hreq. rewrite retryRequest_unfold, Hg.
    destruct (decide _); [done|]. by rewrite Hreq.
  - intros Hw w' e H.
    pose proof (retryRequest_last _ error k a n p m count w w' e eq_refl Hw H)
      as Hlast.
    destruct (Z.to_nat (connectionRetryLimit c - count)) as [|earlier];
      [exact Hlast|].
    destruct Hlast as (Hr & _ & Hex). split; [|exact Hex].
    destruct (retryRequest_log_grows _ error k a n p m count w eq_refl)
      as [l Hl].
    rewrite H in Hl. simpl in Hl. unfold issued.
    rewrite Hl, drop_app_length. rewrite Hl, requests_app in Hr. lia.
Qed.

Lemma issued_app w w' l : log w' = log w ++ l -> issued w w' = l.
Proof. intros H. unfold issued. rewrite H. apply drop_app_length. Qed.

Lemma closing_not_write l d :
  forallb is_closing l = true -> ~ In (StreamWrite d) l.
Proof.
  intros H Hin. rewrite forallb_forall in H. by apply H in Hin.
Qed.

(** C6 (amended). [request] writes to the stream exactly when the body is
    not the literal [{}], and what it writes is the body: an empty body
    is still passed to [write], and the body [{}] is never written. *)
Theorem request_writes_body k a n p m w d :
  In (StreamWrite d) (issued w (request k a n p m w).1) <->
  d = body n /\ body n <> "{}".
Proof.
  destruct (request_log k a n p m w) as (hs & closing & Hlog & Hc).
  rewrite (issued_app _ _ _ Hlog). simpl.
  destruct (String.eqb (body n) "{}") eqn:E; simpl.
  - apply String.eqb_eq in E. split.
    + intros [H | [H | H]]; try discriminate.
      by apply closing_not_write in H.
    + intros [_ H]. done.
  - apply String.eqb_neq in E. split.
    + intros [H | [H | [H | H]]]; try discriminate.
      * by inversion H.
      * by apply closing_not_write in H.
    + intros [-> _]. right. by left.
Qed.


Lemma fold_handle_data now_ chunks r :
  fold_left (handle JSON_parse ToString sign now_) (map OnData chunks) r =
  {| status := status r; retryAfter := retryAfter r; uniqueId := uniqueId r;
     requestId := requestId r; channelId := channelId r;
     responseData := fold_left (fun acc d => acc +:+ d) chunks (responseData r);
     tokenGeneration := tokenGeneration r; live_token := live_token r;
     promise := promise r |}.
Proof.
  revert r. induction chunks as [|d chunks IH]; intros r; simpl.
  - by destruct r.
  - by rewrite IH.
Qed.

(** C7 (amended). A stream that delivers its headers with status 200, 201
    or 204, then data, then ends, settles the request as follows: with no
    data it resolves to the echoed headers; with data that parses it
    resolves to the echoed headers overlaid with the properties of the
    parsed body; with data that does not parse it rejects with the
    error of an unexpected response. A resolved value has a [status] or
    an [error] property only if the parsed body has it. *)
Theorem request_success k a n p m w hs chunks cl rest :
  net w = {| events := OnResponse hs :: map OnData chunks ++ [OnEnd];
             closes := cl |} :: rest ->
  In (get ":status" hs) [VNum 200; VNum 201; VNum 204] ->
  let echoes :=
    createHeaderObject (get "apns-unique-id" hs) (get "apns-request-id" hs)
      (get "apns-channel-id" hs) in
  (request k a n p m w).2 =
    (if String.eqb (received chunks) "" then Resolved echoes
     else match JSON_parse (received chunks) with
          | inl parsed => Resolved (spread echoes (own_props parsed))
          | inr cause => unexpected cause
          end) /\
  (forall v key, (request k a n p m w).2 = Resolved v ->
     key = "status" \/ key = "error" ->
     v !! key =
       if String.eqb (received chunks) "" then None
       else match JSON_parse (received chunks) with
            | inl parsed => own_props parsed !! key
            | inr _ => None
            end).
Proof.
  intros Hnet Hst echoes.
  assert (Hres : (request k a n p m w).2 =
    (if String.eqb (received chunks) "" then Resolved echoes
     else match JSON_parse (received chunks) with
          | inl parsed => Resolved (spread echoes (own_props parsed))
          | inr cause => unexpected cause
          end)).
  { unfold Client.request. rewrite Hnet.
    destruct (token w) as [t|]; simpl.
    all: rewrite fold_left_app, fold_handle_data; simpl.
    all: unfold on_end; simpl.
    all: assert (strict_eq_num (get ":status" hs) 200
                 || strict_eq_num (get ":status" hs) 201
                 || strict_eq_num (get ":status" hs) 204 = true) as ->
           by (destruct Hst as [<- | [<- | [<- | []]]]; reflexivity).
    all: fold (received chunks).
    all: destruct (String.eqb (received chunks) ""); simpl;
         [ unfold spread; by rewrite (left_id_L ∅ (∪)) |].
    all: destruct (JSON_parse (received chunks)); reflexivity. }
  split; [exact Hres|].
  intros v key Hv Hkey. rewrite Hres in Hv.
  assert (echoes !! key = None) as He.
  { apply createHeaderObject_lookup; destruct Hkey as [-> | ->]; done. }
  destruct (String.eqb (received chunks) "").
  - by inversion Hv; subst.
  - destruct (JSON_parse (received chunks)) as [parsed|cause]; [|done].
    inversion Hv; subst. unfold spread.
    destruct (own_props parsed !! key) eqn:E.
    + by erewrite lookup_union_Some_l.
    + by rewrite lookup_union_r.
Qed.


(** *** Where the requests of [write] go *)

Lemma requests_go_closing k a p m l :
  forallb is_closing l = true -> requests_go k a p m l.
Proof.
  intros H. apply Forall_forall. intros e He Hr.
  rewrite forallb_forall in H. apply list_elem_of_In, H in He.
  by destruct e.
Qed.

Lemma request_goes k a n p m w :
  exists l, log (request k a n p m w).1 = log w ++ l /\ requests_go k a p m l.
Proof.
  destruct (request_log k a n p m w) as (hs & closing & -> & Hc).
  eexists. split; [reflexivity|].
  apply Forall_cons. split; [eauto|].
  apply Forall_app. split.
  - destruct (String.eqb (body n) "{}"); repeat constructor; done.
  - apply Forall_cons. split; [done|]. by apply requests_go_closing.
Qed.

Lemma retryRequest_goes (budget : nat) :
  forall error k a n p m count w,
    Z.to_nat (connectionRetryLimit c - count) = budget ->
    exists l, log (retryRequest error k a n p m count w).1 = log w ++ l
              /\ requests_go k a p m l.
Proof.
  induction budget as [|budget IH]; intros error k a n p m count w Hb;
    rewrite retryRequest_unfold.
  all: destruct (is_gone k w) as [[|]|]; simpl;
       try (exists []; split; [by rewrite app_nil_r | constructor]).
  all: destruct (decide _) as [|Hn]; simpl;
       try (exists []; split; [by rewrite app_nil_r | constructor]).
  - lia.
  - destruct (request_goes k a n p m
      (emit (Sleep (or_else (get "retryAfter" error) (VNum 0))) w))
      as (l1 & Hl1 & Hg1).
    destruct (request _ _ _ _ _ _) as [w2 [v|e]]; simpl in *.
    + exists (Sleep (or_else (get "retryAfter" error) (VNum 0)) :: l1).
      split; [by rewrite Hl1, <- app_assoc|].
      apply Forall_cons. by split.
    + destruct (IH e k a n p m (count + 1) w2 ltac:(lia)) as (l2 & Hl2 & Hg2).
      exists (Sleep (or_else (get "retryAfter" error) (VNum 0)) :: l1 ++ l2).
      split; [by rewrite Hl2, Hl1, <- !app_assoc|].
      apply Forall_cons. split; [done|]. apply Forall_app. by split.
Qed.

Lemma write_on_goes k a info n p m count w :
  exists l, log (write_on k a info n p m count w).1 = log w ++ l
            /\ requests_go k a p m l.
Proof.
  unfold Client.write_on.
  destruct (request_goes k a n p m w) as (l1 & Hl1 & Hg1).
  destruct (request _ _ _ _ _ _) as [w1 [v|e]]; simpl in *; [eauto|].
  destruct (is_retryable ToNumber e) as [[|]|]; simpl; eauto.
  destruct (retryRequest_goes _ e k a n p m count w1 eq_refl)
    as (l2 & Hl2 & Hg2).
  destruct (retryRequest _ _ _ _ _ _ _ _) as [w2 [v|e2]]; simpl in *.
  - exists (l1 ++ l2). split; [by rewrite Hl2, Hl1, app_assoc|].
    apply Forall_app. by split.
  - destruct (loose_eq_num ToNumber (get "status" e2) 500).
    + destruct (closeAndDestroySession_log k w2) as (l3 & -> & Hl3).
      exists (l1 ++ l2 ++ l3). split; [by rewrite Hl2, Hl1, !app_assoc|].
      repeat (apply Forall_app; split); try done.
      by apply requests_go_closing.
    + exists (l1 ++ l2). split; [by rewrite Hl2, Hl1, app_assoc|].
      apply Forall_app. by split.
Qed.

Lemma connect_session_log k w :
  exists l, log (connect_session c k w).1 = log w ++ l
            /\ Forall (fun e => is_request e = false) l.
Proof.
  unfold connect_session, createProxySocket.
  destruct (proxy_of c k); simpl.
  - destruct (dials w) as [|[cause|] rest]; simpl.
    + exists [Dial k; Connect k]. split; [by rewrite <- app_assoc|].
      repeat constructor.
    + exists [Dial k]. split; [done|]. repeat constructor.
    + exists [Dial k; Connect k].
      split; [destruct k; by rewrite <- app_assoc|]. repeat constructor.
  - exists [Connect k]. split; [by destruct k|]. repeat constructor.
Qed.

(** The rule of the code: every request that [write] issues goes to the
    management session, with the management address as authority, when
    the path contains [/1/apps/] anywhere, and to the push session with
    the push address otherwise. *)
Theorem write_routes_by_substring notification subDirectory type method count w e :
  In e (issued w (write notification subDirectory type method count w).1) ->
  is_request e = true ->
  exists path httpMethod hs,
    makePath type subDirectory = Some path /\
    HTTPMethod method = Some httpMethod /\
    e = if includes path "/1/apps/"
        then Request Manage (manageChannelsAddress c) path httpMethod hs
        else Request Push (address c) path httpMethod hs.
Proof.
  destruct (makePath type subDirectory) as [path|] eqn:Hp; cycle 1.
  { unfold Client.write. rewrite Hp. destruct (VError _ _); simpl;
      unfold issued; rewrite drop_all; intros []. }
  destruct (HTTPMethod method) as [httpMethod|] eqn:Hm; cycle 1.
  { unfold Client.write. rewrite Hp, Hm. destruct (VError _ _); simpl;
      unfold issued; rewrite drop_all; intros []. }
  destruct (isDestroyed w) eqn:Hd.
  { unfold Client.write. rewrite Hp, Hm, Hd. simpl. unfold issued.
    rewrite drop_all. intros []. }
  rewrite (write_known _ _ _ _ _ _ _ _ Hp Hm Hd).
  set (k := if includes path "/1/apps/" then Manage else Push).
  set (a := match k with Manage => manageChannelsAddress c | Push => address c end).
  assert (exists l0 w0 failure,
            (if needs_connect (session_of k w) then connect_session c k w
             else (w, None)) = (w0, failure)
            /\ log w0 = log w ++ l0
            /\ Forall (fun e => is_request e = false) l0)
    as (l0 & w0 & failure & -> & Hl0 & Hn0).
  { destruct (needs_connect (session_of k w)).
    - destruct (connect_session_log k w) as (l & Hl & Hn).
      destruct (connect_session c k w) as [w0 failure]. eauto 10.
    - exists [], w, None. rewrite app_nil_r. repeat split; constructor. }
  intros Hin Hreq. exists path, httpMethod.
  assert (exists hs, e = Request k a path httpMethod hs) as [hs ->]; cycle 1.
  { exists hs. repeat split. subst a k. by destruct (includes path "/1/apps/"). }
  destruct failure as [err|].
  - simpl in Hin. rewrite (issued_app _ _ _ Hl0) in Hin.
    rewrite Forall_forall in Hn0. apply list_elem_of_In, Hn0 in Hin. congruence.
  - match goal with H : In e (issued w (?x).1) |- _ =>
      destruct (write_on_goes k a
        (makeSubDirectoryTypeObject (default type (subDirectoryLabel type))
           subDirectory) notification path httpMethod (default 0 count) w0)
        as (l1 & Hl1 & Hg1) end.
    rewrite Hl0, <- app_assoc in Hl1. rewrite (issued_app _ _ _ Hl1) in Hin.
    apply in_app_or in Hin as [Hin | Hin].
    + rewrite Forall_forall in Hn0. apply list_elem_of_In, Hn0 in Hin. congruence.
    + unfold requests_go in Hg1. rewrite Forall_forall in Hg1.
      by apply list_elem_of_In, Hg1 in Hin.
Qed.



(** *** Paths that contain the marker of the management session *)

Lemma index_slash_free s :
  slash_free s = true -> String.index 0 "/1/apps/" s = None.
Proof.
  induction s as [|ch s IH]; [reflexivity|].
  cbn -[Ascii.ascii_dec]. intros H. apply andb_true_iff in H as [Hc Hs].
  rewrite (IH Hs). compare_chars. by simpl in Hc.
Qed.

Lemma prefix_slash_free s :
  slash_free s = true -> String.prefix "1/apps/" s = false.
Proof.
  destruct s as [|ch [|ch2 s]]; cbn -[Ascii.ascii_dec]; try done.
  - intros _. by compare_chars.
  - intros H. apply andb_true_iff in H as [_ H].
    apply andb_true_iff in H as [Hc _].
    compare_chars. by simpl in Hc.
Qed.

Lemma includes_device_slash_free sub :
  slash_free sub = true -> includes ("/3/device/" +:+ sub) "/1/apps/" = false.
Proof.
  intros H. unfold includes, String.append. cbn -[Ascii.ascii_dec].
  compare_chars.
  by rewrite (prefix_slash_free _ H), (index_slash_free _ H).
Qed.

Lemma includes_broadcasts_slash_free sub :
  slash_free sub = true ->
  includes ("/4/broadcasts/apps/" +:+ sub) "/1/apps/" = false.
Proof.
  intros H. unfold includes, String.append. cbn -[Ascii.ascii_dec].
  compare_chars.
  by rewrite (prefix_slash_free _ H), (index_slash_free _ H).
Qed.

Lemma includes_prefix rest :
  includes ("/1/apps/" +:+ rest) "/1/apps/" = true.
Proof.
  unfold includes, String.append. cbn -[Ascii.ascii_dec]. compare_chars.
  by destruct rest.
Qed.

(** Where the claim on routing does hold: the requests for channels and
    all-channels always go to the management session, and those for a
    device or for broadcasts go to the push session when the
    subdirectory has no slash in it. *)
Theorem write_routes_by_type notification subDirectory type method count w e :
  In e (issued w (write notification subDirectory type method count w).1) ->
  is_request e = true ->
  (type = "channels" \/ type = "allChannels" ->
   exists path httpMethod hs,
     e = Request Manage (manageChannelsAddress c) path httpMethod hs) /\
  (type = "device" \/ type = "broadcasts" ->
   slash_free subDirectory = true ->
   exists path httpMethod hs,
     e = Request Push (address c) path httpMethod hs).
Proof.
  intros Hin Hreq.
  destruct (write_routes_by_substring _ _ _ _ _ _ _ Hin Hreq)
    as (path & httpMethod & hs & Hp & _ & He).
  split.
  - intros Ht. exists path, httpMethod, hs.
    assert (includes path "/1/apps/" = true) as Hi.
    { destruct Ht as [-> | ->]; inversion Hp; subst.
      - apply (includes_prefix (subDirectory +:+ "/channels")).
      - apply (includes_prefix (subDirectory +:+ "/all-channels")). }
    by rewrite Hi in He.
  - intros Ht Hs. exists path, httpMethod, hs.
    assert (includes path "/1/apps/" = false) as Hi.
    { destruct Ht as [-> | ->]; inversion Hp; subst.
      - by apply includes_device_slash_free.
      - by apply includes_broadcasts_slash_free. }
    by rewrite Hi in He.
Qed.

Lemma label_known type subDirectory path :
  makePath type subDirectory = Some path ->
  default type (subDirectoryLabel type) = "device" \/
  default type (subDirectoryLabel type) = "bundleId".
Proof.
  unfold makePath, subDirectoryLabel.
  repeat (case_decide; subst; simpl; auto). discriminate.
Qed.

Lemma info_known type subDirectory path :
  makePath type subDirectory = Some path ->
  makeSubDirectoryTypeObject (default type (subDirectoryLabel type))
    subDirectory
  = {[ default type (subDirectoryLabel type) := VStr subDirectory ]}.
Proof.
  intros Hp. unfold makeSubDirectoryTypeObject.
  destruct (label_known _ _ _ Hp) as [-> | ->]; by rewrite decide_False.
Qed.

Lemma info_clean type subDirectory path v :
  makePath type subDirectory = Some path ->
  (<["error" := v]>
     (makeSubDirectoryTypeObject (default type (subDirectoryLabel type))
        subDirectory)) !! "retryAfter" = None.
Proof.
  intros Hp. rewrite lookup_insert_ne by done.
  rewrite (info_known _ _ _ Hp).
  destruct (label_known _ _ _ Hp) as [-> | ->]; by rewrite lookup_singleton_ne.
Qed.

Lemma spread_clean type subDirectory path e :
  makePath type subDirectory = Some path ->
  spread (makeSubDirectoryTypeObject (default type (subDirectoryLabel type))
            subDirectory) (delete "retryAfter" e) !! "retryAfter" = None.
Proof.
  intros Hp. unfold spread. rewrite (info_known _ _ _ Hp).
  apply lookup_union_None. split; [apply lookup_delete_eq|].
  destruct (label_known _ _ _ Hp) as [-> | ->]; by rewrite lookup_singleton_ne.
Qed.

(** No failure that [write] throws for a known type has a [retryAfter]
    property. *)
Lemma write_rejection_clean notification subDirectory type method count w w' e path :
  makePath type subDirectory = Some path ->
  write notification subDirectory type method count w = (w', Rejected e) ->
  e !! "retryAfter" = None.
Proof.
  intros Hp.
  destruct (HTTPMethod method) as [httpMethod|] eqn:Hm; cycle 1.
  { unfold Client.write. rewrite Hp, Hm.
    destruct (VError _ _); intros [= _ <-]; [by eapply info_clean|done]. }
  destruct (isDestroyed w) eqn:Hd.
  { unfold Client.write. rewrite Hp, Hm, Hd. intros [= _ <-]. by eapply info_clean. }
  rewrite (write_known _ _ _ _ _ _ _ _ Hp Hm Hd).
  destruct (if needs_connect _ then _ else _) as [w0 [err|]].
  { intros [= _ <-]. by eapply info_clean. }
  unfold Client.write_on.
  destruct (request _ _ _ _ _ _) as [w1 [v|e1]]; [done|].
  destruct (is_retryable ToNumber e1) as [[|]|].
  - destruct (retryRequest _ _ _ _ _ _ _ _) as [w2 [v|e2]]; [done|].
    intros [= _ <-]. by eapply spread_clean.
  - intros [= _ <-]. by eapply spread_clean.
  - intros [= _ <-]. done.
Qed.

Lemma write_destroyed notification subDirectory type method count w path httpMethod :
  makePath type subDirectory = Some path ->
  HTTPMethod method = Some httpMethod ->
  isDestroyed w = true ->
  write notification subDirectory type method count w =
  (w, Rejected (destroyed_failure (default type (subDirectoryLabel type))
                  subDirectory)).
Proof.
  intros Hp Hm Hd. unfold Client.write, destroyed_failure.
  by rewrite Hp, Hm, Hd, (info_known _ _ _ Hp).
Qed.

Lemma destroySession_isDestroyed k w :
  isDestroyed (destroySession k w) = isDestroyed w.
Proof.
  unfold destroySession. destruct (session_of k w) as [s|]; [|done].
  by destruct (destroyed s).
Qed.

Lemma closeAndDestroySession_isDestroyed k w :
  isDestroyed (closeAndDestroySession k w) = isDestroyed w.
Proof.
  unfold closeAndDestroySession. destruct (session_of k w) as [s|]; [|done].
  rewrite destroySession_isDestroyed. by destruct (closed s).
Qed.

Lemma shutdown_isDestroyed callback w :
  isDestroyed (shutdown callback w) = true.
Proof.
  unfold shutdown. destruct (isDestroyed w) eqn:Hd.
  - by destruct callback.
  - destruct callback; simpl;
      by rewrite !closeAndDestroySession_isDestroyed.
Qed.

End ClientFacts.

Section ProviderFacts.
Import Provider Spec.

Variable W : Type.

Lemma allSettled_length {A : Type} (f : A -> W -> W * settled) items w :
  length (allSettled W f items w).2 = length items.
Proof.
  revert w. induction items as [|x items IH]; intros w; simpl; [done|].
  destruct (f x w) as [w1 o]. specialize (IH w1).
  destruct (allSettled W f items w1) as [w2 os]. simpl in *. by rewrite IH.
Qed.

Lemma allSettled_lookup {A : Type} (f : A -> W -> W * settled) items w i x :
  items !! i = Some x ->
  exists wi, (allSettled W f items w).2 !! i = Some (f x wi).2.
Proof.
  revert w i. induction items as [|y items IH]; intros w i Hi; [done|].
  simpl. destruct (f y w) as [w1 o] eqn:E.
  destruct (allSettled W f items w1) as [w2 os] eqn:E2.
  destruct i as [|i]; simpl in *.
  - inversion Hi; subst. exists w. by rewrite E.
  - destruct (IH w1 i Hi) as [wi Hwi]. rewrite E2 in Hwi. eauto.
Qed.

Lemma allSettled_Forall {A : Type} (f : A -> W -> W * settled)
    (P : settled -> Prop) items w :
  (forall x w0, P (f x w0).2) -> Forall P (allSettled W f items w).2.
Proof.
  intros Hf. revert w. induction items as [|x items IH]; intros w; simpl.
  - constructor.
  - specialize (Hf x w). destruct (f x w) as [w1 o]. specialize (IH w1).
    destruct (allSettled W f items w1) as [w2 os]. simpl in *.
    by constructor.
Qed.


Lemma collect_readable outs acc :
  Forall readable outs ->
  collect outs acc =
  Returns {| sent := sent acc ++ (payload <$> filter lands_in_sent outs);
             failed := failed acc
                       ++ (payload <$> filter (fun o => ~ lands_in_sent o) outs) |}.
Proof.
  intros H. revert acc. induction H as [|o outs Ho _ IH]; intros acc.
  - simpl. rewrite !app_nil_r. by destruct acc.
  - destruct o as [v|reason]; cbn [collect]; cbn [readable] in Ho.
    + destruct (flagged v) as [[|]|] eqn:E; [| |done].
      * rewrite IH.
        rewrite filter_cons_False by (simpl; rewrite E; auto).
        rewrite filter_cons_True by (simpl; rewrite E; auto).
        simpl. by rewrite <- app_assoc.
      * rewrite IH.
        rewrite filter_cons_True by (simpl; rewrite E; auto).
        rewrite filter_cons_False by (simpl; rewrite E; auto).
        simpl. by rewrite <- app_assoc.
    + rewrite IH.
      rewrite filter_cons_False by (simpl; auto).
      rewrite filter_cons_True by (simpl; auto).
      simpl. by rewrite <- app_assoc.
Qed.

Lemma partitions_counts outs b :
  partitions outs b ->
  (length (sent b) + length (failed b))%nat = length outs /\
  sent b ++ failed b ≡ₚ payload <$> outs.
Proof.
  intros [Hs Hf].
  assert (sent b ++ failed b ≡ₚ payload <$> outs) as Hp.
  { rewrite Hs, Hf, <- fmap_app. apply fmap_Permutation.
    apply filter_app_complement. }
  split; [|exact Hp].
  rewrite <- length_app. rewrite Hp. by rewrite length_fmap.
Qed.

Lemma batch_of_collect {A : Type} (f : A -> W -> W * settled) items w :
  (forall x w0, readable (f x w0).2) ->
  batch_of f items w (collect (allSettled W f items w).2 empty_batch).
Proof.
  intros Hf. unfold batch_of.
  pose proof (allSettled_Forall f readable items w Hf) as Hr.
  rewrite (collect_readable _ _ Hr). simpl.
  eexists. split; [reflexivity|].
  assert (partitions (allSettled W f items w).2
            {| sent := payload <$> filter lands_in_sent (allSettled W f items w).2;
               failed := payload <$> filter (fun o => ~ lands_in_sent o)
                                       (allSettled W f items w).2 |}) as Hp
    by (split; reflexivity).
  destruct (partitions_counts _ _ Hp) as [Hc Hperm].
  repeat split; try done.
  - apply allSettled_length.
  - intros i x Hi. by apply allSettled_lookup.
  - rewrite <- (allSettled_length f items w). exact Hc.
Qed.


Lemma allSettled_constant {A : Type} (f : A -> W -> W * settled)
    (g : A -> value) items w :
  (forall x, f x w = (w, RejectedWith (g x))) ->
  allSettled W f items w = (w, (fun x => RejectedWith (g x)) <$> items).
Proof.
  intros Hf. induction items as [|x items IH]; simpl; [done|].
  by rewrite Hf, IH.
Qed.

Lemma collect_rejected {A : Type} (g : A -> value) items acc :
  collect ((fun x => RejectedWith (g x)) <$> items) acc =
  Returns {| sent := sent acc; failed := failed acc ++ (g <$> items) |}.
Proof.
  revert acc. induction items as [|x items IH]; intros acc; simpl.
  - rewrite app_nil_r. by destruct acc.
  - rewrite IH. simpl. by rewrite <- app_assoc.
Qed.

End ProviderFacts.



Section SystemFacts.
Import Provider Spec.

Variable sprintf : string -> string + string.
Variable JSON_parse : string -> value + string.
Variable ToNumber : value -> option Z.
Variable ToString : value -> string.
Variable sign : Z -> string.
Variable c : Client.config.
Variable notification : Type.
Variable headers : notification -> obj.
Variable compile : notification -> string.
Variable addPushTypeToPayloadIfNeeded : notification -> notification.
Variable removeNonChannelRelatedProperties : notification -> notification.

Abbreviation write :=
  (Client.write sprintf JSON_parse ToNumber ToString sign c).
Abbreviation client_write :=
  (Apn.client_write sprintf JSON_parse ToNumber ToString sign c).
Abbreviation send :=
  (Apn.send sprintf JSON_parse ToNumber ToString sign c notification headers
     compile).
Abbreviation broadcast :=
  (Apn.broadcast sprintf JSON_parse ToNumber ToString sign c notification
     headers compile).
Abbreviation manageChannels :=
  (Apn.manageChannels sprintf JSON_parse ToNumber ToString sign c notification
     headers compile addPushTypeToPayloadIfNeeded
     removeNonChannelRelatedProperties).
Abbreviation prepare :=
  (Provider.prepare notification addPushTypeToPayloadIfNeeded
     removeNonChannelRelatedProperties).
Abbreviation built :=
  (fun n => {| Client.headers := headers n; Client.body := compile n |}).

Lemma flagged_object o :
  flagged (VObj o) = Some (truthy (get "status" o) || truthy (get "error" o)).
Proof. unfold flagged. simpl. by destruct (truthy (get "status" o)). Qed.

Lemma client_write_readable b sub type method w :
  readable (client_write b sub type method w).2.
Proof.
  unfold Apn.client_write. destruct (write _ _ _ _ _ _) as [w1 [v|e]]; simpl; [|done].
  by rewrite flagged_object.
Qed.

Lemma send_result n rs w :
  (send n rs w).2 =
  collect (allSettled Client.state
             (fun token => client_write (built n) token "device" "post")
             (to_array rs) w).2 empty_batch.
Proof.
  unfold Apn.send, Provider.send.
  by destruct (allSettled _ _ _ _) as [w1 outs].
Qed.

Lemma broadcast_result ns id w :
  (broadcast ns id w).2 =
  collect (allSettled Client.state
             (fun n => client_write (built n) id "broadcasts" "post")
             (to_array ns) w).2 empty_batch.
Proof.
  unfold Apn.broadcast, Provider.broadcast.
  by destruct (allSettled _ _ _ _) as [w1 outs].
Qed.

Lemma manageChannels_result ns id action type method w :
  action_route action = Some (type, method) ->
  (manageChannels ns id action w).2 =
  collect (allSettled Client.state
             (fun n => client_write (built (prepare action n)) id type method)
             (to_array ns) w).2 empty_batch.
Proof.
  intros H. unfold Apn.manageChannels, Provider.manageChannels. rewrite H.
  by destruct (allSettled _ _ _ _) as [w1 outs].
Qed.

Lemma send_batch n rs w :
  batch_of (fun token => client_write (built n) token "device" "post")
    (to_array rs) w (send n rs w).2.
Proof.
  rewrite send_result. apply batch_of_collect.
  intros x w0. apply client_write_readable.
Qed.

Lemma broadcast_batch ns id w :
  batch_of (fun n => client_write (built n) id "broadcasts" "post")
    (to_array ns) w (broadcast ns id w).2.
Proof.
  rewrite broadcast_result. apply batch_of_collect.
  intros x w0. apply client_write_readable.
Qed.

Lemma manageChannels_batch ns id action type method w :
  action_route action = Some (type, method) ->
  batch_of (fun n => client_write (built (prepare action n)) id type method)
    (to_array ns) w (manageChannels ns id action w).2.
Proof.
  intros H. rewrite (manageChannels_result _ _ _ _ _ _ H).
  apply batch_of_collect. intros x w0. apply client_write_readable.
Qed.

(** C1 (amended). Each of [send], [broadcast] and [manageChannels] with a
    supported action returns a batch over its recipients (or
    notifications): one settled entry per item, in order; the lengths of
    [sent] and [failed] add up to the number of items, and the two lists
    together hold what the entries carry, each once. An entry goes to
    [sent] iff it is fulfilled with an object whose [status] and [error]
    are both falsy (absent, or present with a falsy value), and to
    [failed] otherwise, rejected entries included. *)
Theorem batch_result_partitions :
  (forall n rs w,
     batch_of (fun token => client_write (built n) token "device" "post")
       (to_array rs) w (send n rs w).2) /\
  (forall ns id w,
     batch_of (fun n => client_write (built n) id "broadcasts" "post")
       (to_array ns) w (broadcast ns id w).2) /\
  (forall ns id action type method w,
     action_route action = Some (type, method) ->
     batch_of (fun n => client_write (built (prepare action n)) id type method)
       (to_array ns) w (manageChannels ns id action w).2) /\
  (forall o,
     lands_in_sent (Fulfilled (VObj o)) = true <->
     truthy (get "status" o) = false /\ truthy (get "error" o) = false) /\
  (forall reason, lands_in_sent (RejectedWith reason) = false).
Proof.
  split; [exact send_batch|]. split; [exact broadcast_batch|].
  split; [exact manageChannels_batch|]. split; [|reflexivity].
  intros o. simpl. rewrite flagged_object.
  destruct (truthy (get "status" o)), (truthy (get "error" o)); simpl;
    split; try done; intros [? ?]; done.
Qed.



Lemma client_write_clean b sub type method w path :
  Client.makePath type sub = Some path ->
  rejected_clean (client_write b sub type method w).2.
Proof.
  intros Hp. unfold Apn.client_write.
  destruct (write _ _ _ _ _ _) as [w1 [v|e]] eqn:E; simpl; [done|].
  exists e. split; [done|].
  by eapply write_rejection_clean.
Qed.

Lemma failed_clean_collect outs :
  Forall readable outs -> Forall rejected_clean outs ->
  failed_clean outs (collect outs empty_batch).
Proof.
  intros Hr Hc b f Hb Hf. rewrite (collect_readable _ _ Hr) in Hb.
  inversion Hb; subst; clear Hb. simpl in Hf.
  apply list_elem_of_fmap in Hf as (o & -> & Ho).
  apply list_elem_of_filter in Ho as [_ Ho].
  rewrite Forall_forall in Hc. specialize (Hc o Ho).
  destruct o as [v|reason]; simpl in *; [by right | by left].
Qed.

Lemma action_route_known action type method sub :
  action_route action = Some (type, method) ->
  exists path, Client.makePath type sub = Some path.
Proof.
  unfold action_route. repeat case_decide; intros [= <- <-]; by eexists.
Qed.

(** C2 (amended). No failure that [write] throws for a known type has a
    [retryAfter] property, on the retried path and on the other one; so
    every entry of [failed] that comes from a rejected write has none. An
    entry of [failed] that is the value of a fulfilled write keeps the
    properties of the response body. *)
Theorem failures_without_retryAfter :
  (forall n sub type method count w w' e path,
     Client.makePath type sub = Some path ->
     write n sub type method count w = (w', Client.Rejected e) ->
     e !! "retryAfter" = None) /\
  (forall n rs w,
     failed_clean
       (allSettled Client.state
          (fun token => client_write (built n) token "device" "post")
          (to_array rs) w).2
       (send n rs w).2) /\
  (forall ns id w,
     failed_clean
       (allSettled Client.state
          (fun n => client_write (built n) id "broadcasts" "post")
          (to_array ns) w).2
       (broadcast ns id w).2) /\
  (forall ns id action type method w,
     action_route action = Some (type, method) ->
     failed_clean
       (allSettled Client.state
          (fun n => client_write (built (prepare action n)) id type method)
          (to_array ns) w).2
       (manageChannels ns id action w).2).
Proof.
  repeat split.
  - intros n sub type method count w w' e path Hp Hw.
    by eapply write_rejection_clean.
  - intros n rs w. rewrite send_result. apply failed_clean_collect.
    + apply allSettled_Forall. intros. apply client_write_readable.
    + apply allSettled_Forall. intros. by eapply client_write_clean.
  - intros ns id w. rewrite broadcast_result. apply failed_clean_collect.
    + apply allSettled_Forall. intros. apply client_write_readable.
    + apply allSettled_Forall. intros. by eapply client_write_clean.
  - intros ns id action type method w H.
    rewrite (manageChannels_result _ _ _ _ _ _ H).
    destruct (action_route_known _ _ _ id H) as [path Hp].
    apply failed_clean_collect.
    + apply allSettled_Forall. intros. apply client_write_readable.
    + apply allSettled_Forall. intros. by eapply client_write_clean.
Qed.

Lemma action_route_supported action :
  supported action <-> exists route, action_route action = Some route.
Proof.
  unfold supported, action_route. split.
  - intros [-> | [-> | [-> | ->]]]; by eexists.
  - intros [route H]. repeat case_decide; auto. discriminate.
Qed.


(** C9. [send] with one recipient and [send] with the array of that one
    recipient are the same call: same resulting client, same batch. Both
    are the one write for that recipient, collected. *)
Theorem send_one_is_send_singleton n (r : string) w :
  send n (One r) w = send n (Many [r]) w /\
  send n (Many [r]) w =
  (let '(w1, o) := client_write (built n) r "device" "post" w in
   (w1, collect [o] empty_batch)).
Proof.
  split; [reflexivity|].
  unfold Apn.send, Provider.send. simpl.
  by destruct (client_write _ r "device" "post" w) as [w1 o].
Qed.

Lemma client_write_destroyed b sub type method w path httpMethod :
  Client.makePath type sub = Some path ->
  Client.HTTPMethod method = Some httpMethod ->
  Client.isDestroyed w = true ->
  client_write b sub type method w =
  (w, RejectedWith
        (VObj (destroyed_failure
                 (default type (Client.subDirectoryLabel type)) sub))).
Proof.
  intros Hp Hm Hd. unfold Apn.client_write.
  by rewrite (write_destroyed sprintf JSON_parse ToNumber ToString sign c b sub type
                method None w path httpMethod Hp Hm Hd).
Qed.

(** C10 (amended). After [shutdown] the client is destroyed, and every
    [write] with a known type and a supported method throws the failure
    [{label: recipient, error: client is destroyed}] and leaves the
    client as it is: no session is opened and nothing is sent. So [send],
    [broadcast] and [manageChannels] with a supported action return a
    batch with nothing sent and that failure once per recipient. *)
Theorem destroyed_client_fails_every_recipient callback w0 :
  let w := Client.shutdown callback w0 in
  Client.isDestroyed w = true /\
  (forall n sub type method count path httpMethod,
     Client.makePath type sub = Some path ->
     Client.HTTPMethod method = Some httpMethod ->
     write n sub type method count w =
     (w, Client.Rejected
           (destroyed_failure (default type (Client.subDirectoryLabel type))
              sub))) /\
  (forall n rs,
     send n rs w =
     (w, Returns {| sent := [];
                    failed := (fun r => VObj (destroyed_failure "device" r))
                              <$> to_array rs |})) /\
  (forall ns id,
     broadcast ns id w =
     (w, Returns {| sent := [];
                    failed := (fun _ => VObj (destroyed_failure "bundleId" id))
                              <$> to_array ns |})) /\
  (forall ns id action,
     supported action ->
     manageChannels ns id action w =
     (w, prepare action <$> to_array ns,
      Returns {| sent := [];
                 failed := (fun _ => VObj (destroyed_failure "bundleId" id))
                           <$> to_array ns |})).
Proof.
  intros w. assert (Hd : Client.isDestroyed w = true)
    by apply shutdown_isDestroyed.
  repeat split.
  - exact Hd.
  - intros n sub type method count path httpMethod Hp Hm.
    by eapply write_destroyed.
  - intros n rs. unfold Apn.send, Provider.send.
    rewrite (allSettled_constant _ _
               (fun r => VObj (destroyed_failure "device" r))).
    + by rewrite collect_rejected.
    + intros x. by erewrite client_write_destroyed.
  - intros ns id. unfold Apn.broadcast, Provider.broadcast.
    rewrite (allSettled_constant _ _
               (fun _ => VObj (destroyed_failure "bundleId" id))).
    + by rewrite collect_rejected.
    + intros x. by erewrite client_write_destroyed.
  - intros ns id action Hsup.
    unfold Apn.manageChannels, Provider.manageChannels.
    apply action_route_supported in Hsup as [[type method] H]. rewrite H.
    rewrite (allSettled_constant _ _
               (fun _ => VObj (destroyed_failure "bundleId" id))).
    + by rewrite collect_rejected.
    + intros x. unfold action_route in H.
      repeat case_decide; inversion H; subst;
        by erewrite client_write_destroyed.
Qed.

End SystemFacts.

(** ** The theorems at work on sample data *)

(** C3, on a request answered with 500 and InternalServerError: the
    failure is retryable and [write] hands it to [retryRequest]. *)
Lemma write_retries_iff_retryable_witness :
  Client.is_retryable Sample.ToNumber Sample.error500 = Some true /\
  Spec.retryable Sample.error500.
Proof.
  pose (w := Sample.fresh
               [Sample.answer 500 (Sample.reason_document "InternalServerError")]).
  pose (w0 := (Client.connect_session Sample.config Client.Push w).1).
  pose (w1 := (Sample.request Client.Push "api.push.apple.com" Sample.a_note
                 "/3/device/abcd1234" "POST" w0).1).
  destruct (write_retries_iff_retryable Sample.sprintf Sample.JSON_parse Sample.ToNumber
              Sample.ToString Sample.sign Sample.config Sample.a_note
              "abcd1234" "device" "post" None w "/3/device/abcd1234" "POST"
              w0 w1 Sample.error500) as [Hiff _];
    try (vm_compute; reflexivity).
  assert (Spec.retryable Sample.error500) as Hr.
  { left. exists 500. split; [vm_compute; reflexivity | simpl; auto]. }
  split; [by apply Hiff | exact Hr].
Defined.

(** C3 as stated fails for the failure of a later attempt: the first
    request is answered with 500 and InternalServerError, the next ones
    with 400 and BadDeviceToken, which is not retryable; [write] makes
    four requests all the same, and throws the failure of the last. *)
Lemma later_failure_is_retried_untested :
  let bad := Sample.answer 400 (Sample.reason_document "BadDeviceToken") in
  let w :=
    Sample.fresh
      [Sample.answer 500 (Sample.reason_document "InternalServerError");
       bad; bad; bad] in
  let r := Sample.write Sample.a_note "abcd1234" "device" "post" None w in
  Log.requests (Client.log r.1) = 4%nat /\
  exists e,
    r.2 = Client.Rejected e /\
    get "status" e = VNum 400 /\
    Client.is_retryable Sample.ToNumber e = Some false /\
    (Sample.request Client.Push "api.push.apple.com" Sample.a_note
       "/3/device/abcd1234" "POST" (Scenario.connected [bad])).2
    = Client.Rejected (delete "device" (<["retryAfter" := VUndef]> e)).
Proof.
  split; [vm_compute; reflexivity|]. eexists.
  split; [vm_compute; reflexivity|].
  split; [vm_compute; reflexivity|].
  split; vm_compute; reflexivity.
Qed.

(** C4, on an open session, from attempt count 1 with the limit of 3: the
    call is given the failure of status 500, makes two requests, answered
    with 500 and with 400, and throws the failure of the second. *)
Lemma retryRequest_bounded_witness :
  let w :=
    Scenario.connected
      [Sample.answer 500 (Sample.reason_document "InternalServerError");
       Sample.answer 400 (Sample.reason_document "BadDeviceToken")] in
  Extra.steady Client.Push w /\
  exists w' e,
    Sample.retryRequest Sample.error500 Client.Push "api.push.apple.com"
      Sample.a_note "/3/device/abcd1234" "POST" 1 w = (w', Client.Rejected e) /\
    get "status" e = VNum 400 /\
    Log.requests (Log.issued w w') = 2%nat /\
    exists w1,
      Sample.request Client.Push "api.push.apple.com" Sample.a_note
        "/3/device/abcd1234" "POST" w1 = (w', Client.Rejected e) /\
      Client.net w1 = drop 1 (Client.net w) /\ Client.now w1 = Client.now w.
Proof.
  intros w.
  assert (Extra.steady Client.Push w) as Hw.
  { split; [reflexivity|]. split; [by eexists|]. by repeat constructor. }
  split; [exact Hw|]. eexists _, _.
  split; [vm_compute; reflexivity|].
  split; [vm_compute; reflexivity|].
  destruct (retryRequest_bounded Sample.JSON_parse Sample.ToString Sample.sign
              Sample.config Sample.error500 Client.Push "api.push.apple.com"
              Sample.a_note "/3/device/abcd1234" "POST" 1 w)
    as (_ & _ & _ & _ & _ & Hlast).
  exact (Hlast Hw _ _ ltac:(vm_compute; reflexivity)).
Defined.

(** C4 as stated fails when the session was closed: with the count
    exhausted, [retryRequest] throws its own failure and not the one it
    was given. *)
Lemma exhausted_retry_on_closed_session :
  Client.connectionRetryLimit Sample.config < 3 + 1 /\
  (Sample.retryRequest Sample.error500 Client.Push "api.push.apple.com"
     Sample.a_note "/3/device/abcd1234" "POST" 3 (Sample.closed_under [])).2
  = Client.closed_or_destroyed /\
  Client.closed_or_destroyed <> Client.Rejected Sample.error500.
Proof.
  split; [vm_compute; reflexivity|]. split; [vm_compute; reflexivity|].
  intros H. apply (f_equal (fun s => match s with
                                    | Client.Rejected e => e !! "status"
                                    | Client.Resolved _ => None
                                    end)) in H.
  vm_compute in H. discriminate.
Qed.

(** C6 as stated fails on the empty body, which is passed to the stream. *)
Lemma empty_body_is_written :
  Client.body {| Client.headers := ∅; Client.body := "" |} = "" /\
  In (Client.StreamWrite "")
     (Log.issued (Sample.fresh [])
        (Sample.request Client.Push "api.push.apple.com"
           {| Client.headers := ∅; Client.body := "" |}
           "/3/device/abcd1234" "POST" (Sample.fresh [])).1).
Proof. split; [reflexivity|]. vm_compute. right. by left. Qed.

(** C7, on a stream with status 200 and no data. *)
Lemma request_success_witness :
  (Sample.request Client.Push "api.push.apple.com" Sample.a_note
     "/3/device/abcd1234" "POST" (Sample.fresh [Sample.answer 200 ""])).2
  = Client.Resolved ∅.
Proof.
  assert (Client.net (Sample.fresh [Sample.answer 200 ""]) =
          {| Client.events :=
               Client.OnResponse {[ ":status" := VNum 200 ]}
               :: map Client.OnData [] ++ [Client.OnEnd];
             Client.closes := false |} :: []) as Hnet by reflexivity.
  assert (In (get ":status" {[ ":status" := VNum 200 ]})
             [VNum 200; VNum 201; VNum 204]) as Hst
    by (left; vm_compute; reflexivity).
  destruct (request_success Sample.JSON_parse Sample.ToString Sample.sign
              Client.Push "api.push.apple.com" Sample.a_note
              "/3/device/abcd1234" "POST" _ _ _ _ _ Hnet Hst) as [H _].
  unfold Sample.request. rewrite H. vm_compute. reflexivity.
Defined.

(** C7 as stated fails on a body that is not JSON (the request rejects)
    and on a body with a status of its own (the value carries it). *)
Lemma success_status_does_not_make_a_success :
  (Sample.request Client.Push "api.push.apple.com" Sample.a_note
     "/3/device/abcd1234" "POST" (Sample.fresh [Sample.answer 200 "oops"])).2
  = Client.unexpected "Unexpected token in JSON" /\
  (Sample.request Client.Push "api.push.apple.com" Sample.a_note
     "/3/device/abcd1234" "POST"
     (Sample.fresh [Sample.answer 200 Sample.status_zero_document])).2
  = Client.Resolved {[ "status" := VNum 0 ]}.
Proof. split; vm_compute; reflexivity. Qed.

(** C5 fails on a device token that contains [/1/apps/]: the request for
    [/3/device/1/apps/x] goes to the management session, with the
    management address as authority. *)
Lemma device_token_routed_to_management :
  Client.makePath "device" "1/apps/x" = Some "/3/device/1/apps/x" /\
  exists hs,
    In (Client.Request Client.Manage "api-manage-broadcast.push.apple.com"
          "/3/device/1/apps/x" "POST" hs)
       (Client.log
          (Sample.send Sample.a_note (Provider.One "1/apps/x")
             (Sample.fresh [Sample.answer 200 ""])).1).
Proof.
  split; [reflexivity|]. eexists. vm_compute. right. left. reflexivity.
Qed.

(** C1 as stated fails on a fulfilled value with a falsy status: it
    carries a [status] property and is pushed to [sent]. *)
Lemma sent_can_carry_status :
  exists b o,
    (Sample.send Sample.a_note (Provider.One "abcd1234")
       (Sample.fresh [Sample.answer 200 Sample.status_zero_document])).2
    = Provider.Returns b /\
    In (VObj o) (Provider.sent b) /\ o !! "status" = Some (VNum 0).
Proof.
  eexists. eexists. split; [vm_compute; reflexivity|].
  split; [left; reflexivity | vm_compute; reflexivity].
Qed.

(** C2 as stated fails on a fulfilled value that the provider moves to
    [failed]: it keeps the [retryAfter] of the response body. *)
Lemma failed_can_carry_retryAfter :
  exists b o,
    (Sample.send Sample.a_note (Provider.One "abcd1234")
       (Sample.fresh [Sample.answer 200 Sample.leaking_document])).2
    = Provider.Returns b /\
    In (VObj o) (Provider.failed b) /\ o !! "retryAfter" = Some (VNum 1).
Proof.
  eexists. eexists. split; [vm_compute; reflexivity|].
  split; [left; reflexivity | vm_compute; reflexivity].
Qed.

(** C10 as stated fails on a type that has no path: the destroyed client
    throws the failure of the path, not that of its destruction. *)
Lemma destroyed_client_checks_the_path_first :
  Client.isDestroyed (Client.shutdown true (Sample.fresh [])) = true /\
  (Sample.write Sample.a_note "abcd1234" "hello" "post" None
     (Client.shutdown true (Sample.fresh []))).2
  = Client.Rejected
      (<["error" := VErr "could not make a path for hello and abcd1234"]>
         {[ "hello" := VStr "abcd1234" ]}).
Proof. split; vm_compute; reflexivity. Qed.

(** ** The scenarios of the specification *)

(** S1: a single success. *)
Example scenario_single_success :
  (Sample.send Sample.a_note (Provider.One "abcd1234")
     (Sample.fresh [Sample.answer 200 ""])).2
  = Provider.Returns
      {| Provider.sent := [VObj {[ "device" := VStr "abcd1234" ]}];
         Provider.failed := [] |}.
Proof. vm_compute. reflexivity. Qed.

(** S2: a rejection by the server; the retry hint of the failure does
    not leave the client. *)
Example scenario_server_rejection :
  (Sample.send Sample.a_note (Provider.One "abcd1234")
     (Sample.fresh
        [Sample.answer 400 (Sample.reason_document "BadDeviceToken")])).2
  = Provider.Returns
      {| Provider.sent := [];
         Provider.failed :=
           [VObj (<["device" := VStr "abcd1234"]>
                    (<["status" := VNum 400]>
                       {[ "response" :=
                            VObj {[ "reason" := VStr "BadDeviceToken" ]} ]}))] |}.
Proof. vm_compute. reflexivity. Qed.

(** S4: an unknown action. *)
Example scenario_unknown_action :
  Sample.manageChannels (Provider.One Sample.a_note) "abcd1234" "hello"
    (Sample.fresh [])
  = (Sample.fresh [], [Sample.a_note],
     Provider.Throws (Spec.unsupported_failure "abcd1234" "hello")).
Proof. vm_compute. reflexivity. Qed.

(** S5: creating a channel is one POST of the channels path on the
    management session. *)
Example scenario_channel_create :
  filter Log.is_request
    (Client.log
       (Sample.manageChannels (Provider.One Sample.a_note) "abcd1234" "create"
          (Sample.fresh [Sample.answer 201 ""])).1.1)
  = [Client.Request Client.Manage "api-manage-broadcast.push.apple.com"
       "/1/apps/abcd1234/channels" "POST"
       (<[":scheme" := VStr "https"]> (<[":method" := VStr "POST"]>
          (<[":authority" := VStr "api-manage-broadcast.push.apple.com"]>
             {[ ":path" := VStr "/1/apps/abcd1234/channels" ]})))].
Proof. vm_compute. reflexivity. Qed.

(** S6: a broadcast goes to the broadcasts path on the push session. *)
Example scenario_broadcast :
  filter Log.is_request
    (Client.log
       (Sample.broadcast (Provider.One Sample.a_note) "abcd1234"
          (Sample.fresh [Sample.answer 200 ""])).1)
  = [Client.Request Client.Push "api.push.apple.com"
       "/4/broadcasts/apps/abcd1234" "POST"
       (<[":scheme" := VStr "https"]> (<[":method" := VStr "POST"]>
          (<[":authority" := VStr "api.push.apple.com"]>
             {[ ":path" := VStr "/4/broadcasts/apps/abcd1234" ]})))].
Proof. vm_compute. reflexivity. Qed.



(** C10, on a broadcast of two notifications after [shutdown]. *)
Lemma destroyed_client_fails_every_recipient_witness :
  (Sample.broadcast (Provider.Many [Sample.a_note; Sample.a_note]) "abcd1234"
     (Client.shutdown true (Sample.fresh []))).2
  = Provider.Returns
      {| Provider.sent := [];
         Provider.failed :=
           [VObj (Spec.destroyed_failure "bundleId" "abcd1234");
            VObj (Spec.destroyed_failure "bundleId" "abcd1234")] |}.
Proof.
  destruct (destroyed_client_fails_every_recipient Sample.sprintf Sample.JSON_parse
              Sample.ToNumber Sample.ToString Sample.sign Sample.config
              Sample.note Client.headers Client.body id id true
              (Sample.fresh [])) as (_ & _ & _ & Hb & _).
  unfold Sample.broadcast. by rewrite Hb.
Defined.

(** C2, on a request rejected with status 400: the failure that [write]
    throws has no [retryAfter]. *)
Lemma failures_without_retryAfter_witness :
  match (Sample.write Sample.a_note "abcd1234" "device" "post" None
           (Sample.fresh
              [Sample.answer 400 (Sample.reason_document "BadDeviceToken")])).2
  with
  | Client.Rejected e => e !! "retryAfter" = None
  | Client.Resolved _ => False
  end.
Proof.
  destruct (failures_without_retryAfter Sample.sprintf Sample.JSON_parse Sample.ToNumber
              Sample.ToString Sample.sign Sample.config Sample.note
              Client.headers Client.body id id) as [Hw _].
  destruct (Sample.write Sample.a_note "abcd1234" "device" "post" None
              (Sample.fresh
                 [Sample.answer 400 (Sample.reason_document "BadDeviceToken")]))
    as [w' [v|e]] eqn:E.
  - vm_compute in E. discriminate E.
  - simpl. eapply Hw; [|exact E]. reflexivity.
Defined.

(** C1, on a batch of two device tokens, one accepted and one refused. *)
Lemma batch_result_partitions_witness :
  exists b,
    (Sample.send Sample.a_note (Provider.Many ["abcd1234"; "adfe5969"])
       (Sample.fresh
          [Sample.answer 200 "";
           Sample.answer 400 (Sample.reason_document "BadDeviceToken")])).2
    = Provider.Returns b /\
    (length (Provider.sent b) + length (Provider.failed b))%nat = 2%nat.
Proof.
  destruct (batch_result_partitions Sample.sprintf Sample.JSON_parse Sample.ToNumber
              Sample.ToString Sample.sign Sample.config Sample.note
              Client.headers Client.body id id) as [Hs _].
  destruct (Hs Sample.a_note (Provider.Many ["abcd1234"; "adfe5969"])
              (Sample.fresh
                 [Sample.answer 200 "";
                  Sample.answer 400 (Sample.reason_document "BadDeviceToken")]))
    as (b & Hb & _ & _ & _ & Hn & _).
  exists b. split; [exact Hb | exact Hn].
Defined.

(** * Further properties of the code *)

(** The equation of [retryRequest], under a name that the sections below
    can use whatever they import. *)
Lemma retry_step JSON_parse ToString sign c error k a n p m count w :
  Client.retryRequest JSON_parse ToString sign c error k a n p m count w =
  match Client.is_gone k w with
  | None => (w, Client.Rejected Client.native_error)
  | Some true => (w, Client.closed_or_destroyed)
  | Some false =>
      if decide (Client.connectionRetryLimit c < count + 1)
      then (w, Client.Rejected error)
      else
        match Client.request JSON_parse ToString sign k a n p m
                (Client.emit
                   (Client.Sleep (or_else (get "retryAfter" error) (VNum 0)))
                   w) with
        | (w2, Client.Resolved v) => (w2, Client.Resolved v)
        | (w2, Client.Rejected e) =>
            Client.retryRequest JSON_parse ToString sign c e k a n p m
              (count + 1) w2
        end
  end.
Proof. apply retryRequest_unfold. Qed.

Section SessionFacts.
Import Client Log.

Lemma issued_same w : issued w w = [].
Proof. unfold issued. apply drop_all. Qed.



Lemma closeAndDestroySession_sessions k w :
  needs_connect (session_of k (closeAndDestroySession k w)) = true /\
  (forall k', k' <> k ->
     session_of k' (closeAndDestroySession k w) = session_of k' w).
Proof.
  unfold closeAndDestroySession, destroySession.
  destruct k; simpl.
  - destruct (session w) as [[[] []]|] eqn:Hs; simpl; rewrite ?Hs; simpl;
      rewrite ?Hs; (split; [done|]); by intros [].
  - destruct (manageChannelsSession w) as [[[] []]|] eqn:Hs; simpl;
      rewrite ?Hs; simpl; rewrite ?Hs; (split; [done|]); by intros [].
Qed.





End SessionFacts.

Section PathFacts.
Import Client.

Lemma append_cons ch s t : String ch s +:+ t = String ch (s +:+ t).
Proof. reflexivity. Qed.

Lemma length_append s t :
  String.length (s +:+ t) = (String.length s + String.length t)%nat.
Proof.
  induction s as [|ch s IH]; [done|]. rewrite append_cons. simpl.
  by rewrite IH.
Qed.

Lemma append_assoc s t u : (s +:+ t) +:+ u = s +:+ (t +:+ u).
Proof.
  induction s as [|ch s IH]; [done|]. rewrite !append_cons. by rewrite IH.
Qed.

Lemma append_inj_suffix s t u v :
  String.length u = String.length v -> s +:+ u = t +:+ v -> s = t /\ u = v.
Proof.
  revert t. induction s as [|ch s IH]; intros [|ch' t] Hl H.
  - done.
  - change ("" +:+ u) with u in H. subst u.
    rewrite append_cons in Hl. simpl in Hl. rewrite length_append in Hl. lia.
  - change ("" +:+ v) with v in H. subst v.
    rewrite append_cons in Hl. simpl in Hl. rewrite length_append in Hl. lia.
  - rewrite !append_cons in H. injection H as -> H.
    destruct (IH t Hl H) as [-> ->]. done.
Qed.

(** X3. The path tells the type and the subdirectory: two calls of
    [makePath] that give the same path were given the same type and the
    same subdirectory. *)
Theorem makePath_injective type type' a b path :
  makePath type a = Some path -> makePath type' b = Some path ->
  type = type' /\ a = b.
Proof.
  unfold makePath. intros H H'.
  repeat case_decide; subst; try discriminate;
    injection H as <-; injection H' as H'.
  all: try (apply (f_equal (String.get 1)) in H'; vm_compute in H';
            discriminate H').
  all: try apply (inj (String.app _)) in H'.
  all: try (split; [reflexivity|]).
  all: try done.
  all: try (exfalso; change "/all-channels" with ("/all" +:+ "-channels") in H';
            rewrite <- append_assoc in H';
            match type of H' with
            | ?s +:+ ?u = ?t +:+ ?v =>
                apply (append_inj_suffix s t u v eq_refl) in H' as [_ H'];
                discriminate H'
            end).
  all: match type of H' with
       | ?s +:+ ?u = ?t +:+ ?v =>
           apply (append_inj_suffix s t u v eq_refl) in H' as [-> _]; done
       end.
Qed.

(** X4. The two switches on the type agree: a type has a path exactly
    when it has a label, so the fallback of [write] to the type as a
    label is only ever used for a type without a path. *)
Theorem makePath_iff_label type subDirectory :
  is_Some (makePath type subDirectory) <-> is_Some (subDirectoryLabel type).
Proof.
  unfold makePath, subDirectoryLabel.
  repeat case_decide; subst; split; intros [x Hx]; try discriminate; eauto.
Qed.

End PathFacts.

Section FailureFacts.
Import Client Log Spec Extra.

Lemma failure_key_cases key :
  key ∉ failure_keys ->
  key <> "apns-unique-id" /\ key <> "apns-request-id"
  /\ key <> "apns-channel-id" /\ key <> "status" /\ key <> "retryAfter"
  /\ key <> "response" /\ key <> "error".
Proof. unfold failure_keys. rewrite !not_elem_of_cons. tauto. Qed.

Lemma within_empty : within_failure_keys ∅.
Proof. intros key _. apply lookup_empty. Qed.

Lemma within_error v : within_failure_keys {[ "error" := v ]}.
Proof.
  intros key Hk. apply failure_key_cases in Hk.
  destruct Hk as (_ & _ & _ & _ & _ & _ & Hk).
  apply lookup_singleton_ne. congruence.
Qed.

Lemma within_header u r ch : within_failure_keys (createHeaderObject u r ch).
Proof.
  intros key Hk. apply failure_key_cases in Hk.
  destruct Hk as (H1 & H2 & H3 & _). by apply createHeaderObject_lookup.
Qed.

Lemma within_insert key v e :
  key ∈ failure_keys -> within_failure_keys e ->
  within_failure_keys (<[key := v]> e).
Proof.
  intros Hin He key' Hk. rewrite lookup_insert_ne; [by apply He|].
  by intros ->.
Qed.

Lemma within_spread h e :
  within_failure_keys h -> within_failure_keys e ->
  within_failure_keys (spread h e).
Proof.
  intros Hh He key Hk. unfold spread. apply lookup_union_None. auto.
Qed.

Lemma within_delete key e :
  within_failure_keys e -> within_failure_keys (delete key e).
Proof. intros He key' Hk. apply lookup_delete_None. auto. Qed.

Lemma within_status_error r h message :
  within_failure_keys h ->
  forall e, status_error r h message = Rejected e -> within_failure_keys e.
Proof.
  intros Hh e [= <-]. apply within_spread; [done|].
  apply within_insert; [repeat constructor|].
  apply within_insert; [repeat constructor|]. apply within_error.
Qed.

Lemma within_unexpected cause e :
  unexpected cause = Rejected e -> within_failure_keys e.
Proof. intros [= <-]. apply within_error. Qed.

Lemma settle_within s r :
  settled_within r -> (forall e, s = Rejected e -> within_failure_keys e) ->
  settled_within (settle s r).
Proof.
  intros Hr Hs e. unfold settle; simpl.
  destruct (promise r) as [s0|] eqn:E; intros [= ->]; auto.
Qed.

Lemma get_spread_l key h x v :
  x !! key = Some v -> get key (spread h x) = v.
Proof. intros H. unfold get, spread. by erewrite lookup_union_Some_l. Qed.

Lemma lookup_spread_r key h x :
  x !! key = None -> spread h x !! key = h !! key.
Proof. intros H. unfold spread. by rewrite lookup_union_r. Qed.

Lemma settle_keeps s0 s r :
  promise r = Some s0 -> promise (settle s r) = Some s0.
Proof. intros H. simpl. by rewrite H. Qed.

Lemma settle_settled s r : promise (settle s r) <> None.
Proof. simpl. by destruct (promise r). Qed.

Lemma within_response h (response retryAfter_ status_ : value) :
  within_failure_keys h ->
  within_failure_keys
    (<["response" := response]> (<["retryAfter" := retryAfter_]>
       (<["status" := status_]> h))).
Proof.
  intros Hh. repeat (apply within_insert; [repeat constructor|]). exact Hh.
Qed.

Lemma label_outside type label :
  subDirectoryLabel type = Some label -> label ∉ failure_keys.
Proof.
  unfold subDirectoryLabel, failure_keys.
  repeat destruct (decide _); intros [= <-]; rewrite !not_elem_of_cons;
    repeat split; try done; apply not_elem_of_nil.
Qed.

Lemma label_has_path type label subDirectory :
  subDirectoryLabel type = Some label ->
  exists path, makePath type subDirectory = Some path.
Proof.
  unfold subDirectoryLabel, makePath.
  repeat destruct (decide _); intros [= <-]; eauto.
Qed.

Lemma fine_error message :
  message <> unknown_error -> fine (Rejected {[ "error" := VErr message ]}).
Proof.
  intros Hm. simpl. unfold get. rewrite lookup_singleton_eq. simpl.
  by intros [= H].
Qed.

Lemma fine_status_error r h message :
  message <> unknown_error -> fine (status_error r h message).
Proof.
  intros Hm. simpl. rewrite (get_spread_l "error" h _ (VErr message)).
  - by intros [= H].
  - rewrite !lookup_insert_ne by done. apply lookup_singleton_eq.
Qed.

Lemma fine_unexpected cause : fine (unexpected cause).
Proof. apply fine_error. unfold unknown_error. simpl. discriminate. Qed.

Lemma settle_known s r r0 :
  promise r = promise r0 -> known r0 -> fine s -> known (settle s r).
Proof.
  intros Hp Hr Hs. unfold known in *. simpl. rewrite Hp.
  by destruct (promise r0).
Qed.

Lemma settled_known r r0 s :
  promise r0 = Some s -> promise r = promise r0 -> known r0 -> known r.
Proof. unfold known. intros Hs ->. by rewrite Hs. Qed.

End FailureFacts.

Section StreamFacts.
Import Client Log Spec Extra.

Variable JSON_parse : string -> value + string.
Variable ToNumber : value -> option Z.
Variable ToString : value -> string.
Variable sign : Z -> string.

Abbreviation on_end := (Client.on_end JSON_parse ToString sign).
Abbreviation handle := (Client.handle JSON_parse ToString sign).
Abbreviation request := (Client.request JSON_parse ToString sign).

Lemma on_end_keeps now_ r s :
  promise r = Some s -> promise (on_end now_ r) = Some s.
Proof.
  intros H. unfold Client.on_end.
  repeat case_match; by apply settle_keeps.
Qed.

Lemma on_end_settles now_ r : promise (on_end now_ r) <> None.
Proof.
  unfold Client.on_end. repeat case_match; apply settle_settled.
Qed.

Lemma handle_keeps now_ r ev s :
  promise r = Some s -> promise (handle now_ r ev) = Some s.
Proof.
  intros H. destruct ev; simpl; try done; try by rewrite H.
  by apply on_end_keeps.
Qed.

Lemma fold_handle_keeps now_ evs r s :
  promise r = Some s -> promise (fold_left (handle now_) evs r) = Some s.
Proof.
  revert r. induction evs as [|ev evs IH]; intros r H; [done|].
  simpl. by apply IH, handle_keeps.
Qed.

Lemma handle_settling now_ r ev :
  is_settling ev = true -> promise (handle now_ r ev) <> None.
Proof.
  destruct ev; simpl; try done; intros _;
    try (by destruct (promise r)).
  apply on_end_settles.
Qed.

(** X12. The first event that settles a request decides its outcome:
    whatever the stream emits after an [end], a timeout, an abort, an
    error or a frame error changes nothing of what [request] returns. *)
Theorem request_first_settlement_wins k a n p m w ev evs1 evs2 cl rest :
  is_settling ev = true ->
  net w = {| events := evs1 ++ ev :: evs2; closes := cl |} :: rest ->
  (request k a n p m w).2 =
  (request k a n p m
     (set_net ({| events := evs1 ++ [ev]; closes := cl |} :: rest) w)).2.
Proof.
  intros Hev Hnet. unfold Client.request. rewrite Hnet. simpl.
  destruct (token w) as [t|]; simpl.
  all: rewrite !fold_left_app; simpl.
  all: match goal with
       | |- context [fold_left ?h ?l (?h0 ?r ?e)] =>
           destruct (promise (h0 r e)) as [s|] eqn:Hs;
           [rewrite (fold_handle_keeps _ l _ s Hs); by rewrite ?Hs
           |by apply handle_settling in Hs]
       end.
Qed.

Lemma on_end_within now_ r : settled_within r -> settled_within (on_end now_ r).
Proof.
  intros Hr. unfold Client.on_end.
  pose proof (within_header (uniqueId r) (requestId r) (channelId r)) as Hh.
  destruct (strict_eq_num (status r) 200 || strict_eq_num (status r) 201
            || strict_eq_num (status r) 204).
  { destruct (String.eqb (responseData r) "").
    - apply settle_within; [exact Hr | discriminate].
    - destruct (JSON_parse (responseData r)) as [parsed|cause];
        (apply settle_within; [exact Hr|]);
        [discriminate | apply within_unexpected]. }
  destruct (strict_eq_str (status r) TIMEOUT_STATUS
            || strict_eq_str (status r) ABORTED_STATUS
            || strict_eq_str (status r) ERROR_STATUS).
  { apply settle_within; [exact Hr|]. by apply within_status_error. }
  destruct (negb (String.eqb (responseData r) "")); cycle 1.
  { apply settle_within; [exact Hr|]. intros e [= <-].
    apply within_spread; [exact Hh|apply within_error]. }
  destruct (JSON_parse (responseData r)) as [response|cause]; cycle 1.
  { apply settle_within; [exact Hr | apply within_unexpected]. }
  assert (settled_within
            (settle (Rejected
               (<["response" := response]> (<["retryAfter" := retryAfter r]>
                  (<["status" := status r]>
                     (createHeaderObject (uniqueId r) (requestId r)
                        (channelId r)))))) r)) as Hother.
  { apply settle_within; [exact Hr|]. intros e [= <-].
    by apply within_response. }
  destruct (strict_eq_num (status r) 403).
  { destruct (prop response "reason") as [reason|]; cycle 1.
    { apply settle_within; [exact Hr | apply within_unexpected]. }
    destruct (strict_eq_str reason "ExpiredProviderToken"); [|exact Hother].
    destruct (live_token r) as [t|].
    - apply settle_within; [exact Hr|]. by apply within_status_error.
    - apply settle_within; [exact Hr | apply within_unexpected]. }
  destruct (strict_eq_num (status r) 500); [|exact Hother].
  destruct (prop response "reason") as [reason|]; cycle 1.
  { apply settle_within; [exact Hr | apply within_unexpected]. }
  destruct (strict_eq_str reason "InternalServerError"); [|exact Hother].
  apply settle_within; [exact Hr|]. by apply within_status_error.
Qed.

Lemma handle_within now_ r ev :
  settled_within r -> settled_within (handle now_ r ev).
Proof.
  intros Hr. destruct ev; simpl; try exact Hr.
  - by apply on_end_within.
  - apply settle_within; [exact Hr|]. intros e [= <-]. apply within_error.
  - apply settle_within; [exact Hr|]. intros e [= <-]. apply within_error.
  - apply settle_within; [exact Hr|]. intros e [= <-]. apply within_error.
  - apply settle_within; [exact Hr|]. intros e [= <-]. apply within_error.
Qed.

Lemma fold_handle_within now_ evs r :
  settled_within r -> settled_within (fold_left (handle now_) evs r).
Proof.
  revert r. induction evs as [|ev evs IH]; intros r Hr; simpl; [done|].
  apply IH. by apply handle_within.
Qed.

Lemma request_failure_within k a n p m w w1 e :
  request k a n p m w = (w1, Rejected e) -> within_failure_keys e.
Proof.
  unfold Client.request.
  set (ex := match net w with e :: _ => e | [] => _ end).
  destruct (token w) as [t|]; simpl.
  all: match goal with |- context [fold_left ?f ?l ?r0] =>
         assert (Hw : settled_within (fold_left f l r0))
           by (apply fold_handle_within; intros ? [=]);
         destruct (promise (fold_left f l r0)) as [s|] eqn:E end.
  all: intros [= _ H]; subst;
       first [ by apply Hw | by apply within_error ].
Qed.

Lemma bare_not_retryable message :
  is_retryable ToNumber {[ "error" := VErr message ]} = Some false.
Proof.
  unfold is_retryable, get. rewrite lookup_singleton_ne by done. simpl.
  by rewrite lookup_singleton_eq.
Qed.

Lemma handle_bare now_ r ev :
  is_end ev = false -> bare r -> bare (handle now_ r ev).
Proof.
  destruct ev; simpl; try done; intros _; unfold bare; simpl;
    destruct (promise r); eauto.
Qed.

Lemma fold_handle_bare now_ evs r :
  Forall (fun ev => is_end ev = false) evs -> bare r ->
  bare (fold_left (handle now_) evs r).
Proof.
  intros Hevs. revert r.
  induction Hevs as [|ev evs Hev _ IH]; intros r Hr; simpl; [done|].
  by apply IH, handle_bare.
Qed.

(** X14. A request whose stream never ends, whether it times out, is
    aborted, fails, has a frame error or stays silent, is rejected with
    a bare error: no status and no header comes with it, and [write]
    does not take it for retryable. *)
Theorem request_without_end_fails_bare k a n p m w :
  Forall (fun ev => is_end ev = false) (events (awaited w)) ->
  exists message,
    (request k a n p m w).2 = Rejected {[ "error" := VErr message ]} /\
    is_retryable ToNumber {[ "error" := VErr message ]} = Some false.
Proof.
  intros Hevs. unfold Client.request. fold (awaited w).
  destruct (token w) as [t|]; simpl.
  all: match goal with |- context [fold_left ?f ?l ?r0] =>
         assert (Hb : bare (fold_left f l r0))
           by (by apply fold_handle_bare);
         unfold bare in Hb;
         destruct (promise (fold_left f l r0)) as [s|];
         [destruct Hb as [message ->]|]
       end.
  all: eexists; split; [reflexivity|apply bare_not_retryable].
Qed.

(** What [request] returns on a stream that delivers its headers, then
    data, then ends: the settlement of the handler of [end]. *)
Lemma request_answered k a n p m w hs chunks cl rest :
  net w = {| events := OnResponse hs :: map OnData chunks ++ [OnEnd];
             closes := cl |} :: rest ->
  exists tk g,
    (token w = None -> tk = None) /\
    (token w <> None -> tk <> None) /\
    promise (on_end (now w)
      {| status := get ":status" hs;
         retryAfter := get "Retry-After" hs;
         uniqueId := get "apns-unique-id" hs;
         requestId := get "apns-request-id" hs;
         channelId := get "apns-channel-id" hs;
         responseData := received chunks;
         tokenGeneration := g; live_token := tk; promise := None |})
    = Some (request k a n p m w).2.
Proof.
  intros Hnet. unfold Client.request. rewrite Hnet.
  destruct (token w) as [t|]; simpl.
  all: rewrite fold_left_app, fold_handle_data; simpl.
  all: fold (received chunks).
  all: match goal with |- context [Client.on_end _ _ _ _ ?r0] =>
         exists (live_token r0), (tokenGeneration r0);
         (split; [done|]); (split; [done|]);
         destruct (promise (on_end (now w) r0)) eqn:E;
         [done|by apply on_end_settles in E]
       end.
Qed.

(** X9. An answer with a numeric status other than 200, 201 and 204 and
    no body fails the request with an error that carries the echoed
    headers but not the status; [write] therefore never retries it, not
    even when the status is one of the retryable ones. *)
Theorem empty_body_failure_not_retried k a n p m w hs chunks cl rest code :
  net w = {| events := OnResponse hs :: map OnData chunks ++ [OnEnd];
             closes := cl |} :: rest ->
  get ":status" hs = VNum code ->
  code <> 200 -> code <> 201 -> code <> 204 ->
  received chunks = "" ->
  let e :=
    spread
      (createHeaderObject (get "apns-unique-id" hs) (get "apns-request-id" hs)
         (get "apns-channel-id" hs))
      {[ "error" := VErr ("stream ended unexpectedly with status "
                          +:+ ToString (VNum code) +:+ " and empty body") ]} in
  (request k a n p m w).2 = Rejected e /\
  e !! "status" = None /\
  is_retryable ToNumber e = Some false.
Proof.
  intros Hnet Hst H200 H201 H204 Hdata e.
  assert (e !! "status" = None) as Hs.
  { subst e. rewrite lookup_spread_r by done.
    by apply createHeaderObject_lookup. }
  split; [|split; [exact Hs|]].
  - destruct (request_answered k a n p m w hs chunks cl rest Hnet)
      as (tk & g & _ & _ & H).
    revert H. unfold Client.on_end. simpl. rewrite Hst, Hdata. simpl.
    rewrite (proj2 (Z.eqb_neq code 200) H200), (proj2 (Z.eqb_neq code 201) H201),
      (proj2 (Z.eqb_neq code 204) H204). simpl.
    intros [= H]. by rewrite <- H.
  - assert (get "status" e = VUndef) as Hs' by (unfold get; by rewrite Hs).
    assert (exists message, get "error" e = VErr message) as [message He]
      by (eexists; apply get_spread_l, lookup_singleton_eq).
    unfold is_retryable. by rewrite Hs', He.
Qed.

(** X11. An answer with status 403 and the reason ExpiredProviderToken:
    a client that holds a token fails the request with status 403 and
    the error ExpiredProviderToken, which [write] takes for retryable; a
    client without a token fails it with the error of an unexpected
    response, which [write] does not retry. *)
Theorem expired_token_answer k a n p m w hs chunks cl rest parsed :
  net w = {| events := OnResponse hs :: map OnData chunks ++ [OnEnd];
             closes := cl |} :: rest ->
  get ":status" hs = VNum 403 ->
  received chunks <> "" ->
  JSON_parse (received chunks) = inl parsed ->
  prop parsed "reason" = Some (VStr "ExpiredProviderToken") ->
  match token w with
  | Some _ =>
      exists e,
        (request k a n p m w).2 = Rejected e /\
        get "status" e = VNum 403 /\
        get "error" e = VErr "ExpiredProviderToken" /\
        is_retryable ToNumber e = Some true
  | None =>
      (request k a n p m w).2 =
        unexpected "Cannot read properties of null (reading 'regenerate')" /\
      is_retryable ToNumber
        {[ "error" :=
             VErr ("Unexpected error processing APNs response: "
                   +:+ "Cannot read properties of null (reading 'regenerate')")
        ]} = Some false
  end.
Proof.
  intros Hnet Hst Hdata Hparse Hreason.
  destruct (request_answered k a n p m w hs chunks cl rest Hnet)
    as (tk & g & Hnone & Hsome & H).
  revert H. unfold Client.on_end. simpl.
  rewrite Hst, Hparse, Hreason. simpl.
  apply String.eqb_neq in Hdata. rewrite Hdata. simpl.
  destruct (token w) as [t|].
  - destruct tk as [t1|]; [|by destruct Hsome]. simpl. intros [= <-].
    eexists. split; [reflexivity|].
    assert (forall h x, get "status" (spread h (<["status" := VNum 403]> x))
                        = VNum 403) as Hs.
    { intros h x. apply get_spread_l. by rewrite lookup_insert_eq. }
    assert (forall h (v1 v2 : value),
              get "error"
                (spread h (<["status" := v1]> (<["retryAfter" := v2]>
                   {[ "error" := VErr "ExpiredProviderToken" ]})))
              = VErr "ExpiredProviderToken") as He.
    { intros h v1 v2. apply get_spread_l.
      rewrite !lookup_insert_ne by done. by rewrite lookup_singleton_eq. }
    split; [apply Hs|]. split; [apply He|].
    unfold is_retryable. rewrite Hs, He. reflexivity.
  - rewrite (Hnone eq_refl). simpl. intros [= <-].
    split; [reflexivity|apply bare_not_retryable].
Qed.

Lemma on_end_known now_ r : known r -> known (on_end now_ r).
Proof.
  intros Hr.
  destruct (promise r) as [s|] eqn:Hs.
  { apply (settled_known _ r s Hs); [|done]. rewrite Hs.
    by apply on_end_keeps. }
  assert (is_marker (status r) = false) as Hm
    by (unfold known in Hr; by rewrite Hs in Hr).
  unfold is_marker in Hm. unfold Client.on_end. rewrite Hm.
  pose proof (within_header (uniqueId r) (requestId r) (channelId r)) as Hh.
  destruct (strict_eq_num (status r) 200 || strict_eq_num (status r) 201
            || strict_eq_num (status r) 204).
  { destruct (String.eqb (responseData r) "").
    - by apply (settle_known _ _ r).
    - destruct (JSON_parse (responseData r)) as [parsed|cause];
        (apply (settle_known _ _ r); [done|done|]);
        [done|apply fine_unexpected]. }
  destruct (negb (String.eqb (responseData r) "")); cycle 1.
  { apply (settle_known _ _ r); [done|done|]. simpl.
    erewrite get_spread_l by apply lookup_singleton_eq.
    unfold unknown_error. simpl. discriminate. }
  destruct (JSON_parse (responseData r)) as [response|cause]; cycle 1.
  { apply (settle_known _ _ r); [done|done|]. apply fine_unexpected. }
  assert (known
            (settle (Rejected
               (<["response" := response]> (<["retryAfter" := retryAfter r]>
                  (<["status" := status r]>
                     (createHeaderObject (uniqueId r) (requestId r)
                        (channelId r)))))) r)) as Hother.
  { apply (settle_known _ _ r); [done|done|]. simpl. unfold get.
    rewrite !lookup_insert_ne by done.
    by rewrite createHeaderObject_lookup. }
  destruct (strict_eq_num (status r) 403).
  { destruct (prop response "reason") as [reason|]; cycle 1.
    { apply (settle_known _ _ r); [done|done|]. apply fine_unexpected. }
    destruct (strict_eq_str reason "ExpiredProviderToken"); [|exact Hother].
    destruct (live_token r) as [t|].
    - apply (settle_known _ _ r); [done|done|]. by apply fine_status_error.
    - apply (settle_known _ _ r); [done|done|]. apply fine_unexpected. }
  destruct (strict_eq_num (status r) 500); [|exact Hother].
  destruct (prop response "reason") as [reason|]; cycle 1.
  { apply (settle_known _ _ r); [done|done|]. apply fine_unexpected. }
  destruct (strict_eq_str reason "InternalServerError"); [|exact Hother].
  apply (settle_known _ _ r); [done|done|]. by apply fine_status_error.
Qed.

Lemma handle_known now_ r ev :
  plain_status ev -> known r -> known (handle now_ r ev).
Proof.
  intros Hev Hr. destruct ev; simpl.
  - unfold known in *. simpl. by destruct (promise r).
  - exact Hr.
  - by apply on_end_known.
  - apply (settle_known _ _ r); [done|done|]. by apply fine_error.
  - apply (settle_known _ _ r); [done|done|]. by apply fine_error.
  - apply (settle_known _ _ r); [done|done|]. apply fine_error.
    unfold unknown_error. simpl. discriminate.
  - apply (settle_known _ _ r); [done|done|]. apply fine_error.
    unfold unknown_error. simpl. discriminate.
Qed.

Lemma fold_handle_known now_ evs r :
  Forall plain_status evs -> known r ->
  known (fold_left (handle now_) evs r).
Proof.
  intros Hevs. revert r.
  induction Hevs as [|ev evs Hev _ IH]; intros r Hr; simpl; [done|].
  by apply IH, handle_known.
Qed.

(** X13. The failure with the error "Timeout, aborted, or other unknown
    error" is never what [request] throws, as long as the headers of the
    response do not carry one of the three status markers themselves:
    the handlers that set a marker have settled the request before the
    handler of [end] can look at it. *)
Theorem unknown_error_is_never_thrown k a n p m w e :
  Forall plain_status (events (awaited w)) ->
  (request k a n p m w).2 = Rejected e ->
  get "error" e <> VErr unknown_error.
Proof.
  intros Hevs. unfold Client.request. fold (awaited w).
  destruct (token w) as [t|]; simpl.
  all: match goal with |- context [fold_left ?f ?l ?r0] =>
         assert (Hk : known (fold_left f l r0))
           by (by apply fold_handle_known);
         unfold known in Hk;
         destruct (promise (fold_left f l r0)) as [s|]
       end.
  all: first [ intros ->; exact Hk
             | intros [= <-]; by apply (fine_error "apn write timeout") ].
Qed.

End StreamFacts.

Section RetryFacts.
Import Client Log Spec Extra.

Variable JSON_parse : string -> value + string.
Variable ToString : value -> string.
Variable sign : Z -> string.
Variable c : config.

Abbreviation request := (Client.request JSON_parse ToString sign).
Abbreviation retryRequest := (Client.retryRequest JSON_parse ToString sign c).

Lemma sleeps_app l1 l2 : sleeps (l1 ++ l2) = (sleeps l1 + sleeps l2)%nat.
Proof. unfold sleeps. by rewrite filter_app, length_app. Qed.

Lemma sleeps_closing l : forallb is_closing l = true -> sleeps l = 0%nat.
Proof.
  induction l as [|x l IH]; [done|]. simpl. intros H.
  apply andb_true_iff in H as [Hx Hl]. unfold sleeps in *.
  destruct x; try done; simpl; rewrite filter_cons; simpl; auto.
Qed.

Lemma request_issues k a n p m w :
  exists l, log (request k a n p m w).1 = log w ++ l
            /\ requests l = 1%nat /\ sleeps l = 0%nat.
Proof.
  destruct (request_log JSON_parse ToString sign k a n p m w)
    as (hs & closing & Hl & Hc).
  eexists. split; [exact Hl|].
  change (Request k a p m hs :: ?l) with ([Request k a p m hs] ++ l).
  change (StreamEnd :: closing) with ([StreamEnd] ++ closing).
  rewrite !requests_app, !sleeps_app, (requests_closing _ Hc),
    (sleeps_closing _ Hc).
  by destruct (String.eqb (body n) "{}").
Qed.

Lemma retryRequest_issues (budget : nat) :
  forall error k a n p m count w,
    Z.to_nat (connectionRetryLimit c - count) = budget ->
    exists l, log (retryRequest error k a n p m count w).1 = log w ++ l
              /\ sleeps l = requests l
              /\ (l <> [] ->
                  head l = Some (Sleep (or_else (get "retryAfter" error)
                                                (VNum 0)))).
Proof.
  induction budget as [|budget IH]; intros error k a n p m count w Hb;
    rewrite retry_step.
  all: destruct (is_gone k w) as [[|]|]; simpl;
       try (exists []; split; [by rewrite app_nil_r | done]).
  all: destruct (decide _) as [|Hn]; simpl;
       try (exists []; split; [by rewrite app_nil_r | done]).
  - lia.
  - destruct (request_issues k a n p m
      (emit (Sleep (or_else (get "retryAfter" error) (VNum 0))) w))
      as (l1 & Hl1 & Hr1 & Hs1).
    destruct (request _ _ _ _ _ _) as [w2 [v|e]]; simpl in *.
    + exists (Sleep (or_else (get "retryAfter" error) (VNum 0)) :: l1).
      split; [rewrite Hl1; simpl; by rewrite <- ?app_assoc|].
      split; [|done].
      change (?x :: l1) with ([x] ++ l1).
      rewrite sleeps_app, requests_app, Hr1, Hs1. reflexivity.
    + destruct (IH e k a n p m (count + 1) w2 ltac:(lia))
        as (l2 & Hl2 & Hsr & _).
      exists (Sleep (or_else (get "retryAfter" error) (VNum 0)) :: l1 ++ l2).
      split; [rewrite Hl2, Hl1; simpl; by rewrite <- ?app_assoc|].
      split; [|done].
      change (?x :: l1 ++ l2) with ([x] ++ l1 ++ l2).
      rewrite !sleeps_app, !requests_app, Hr1, Hs1, Hsr. reflexivity.
Qed.

(** X15. [retryRequest] waits before every request it makes: what it
    adds to the log holds as many waits as requests, and begins, if it
    holds anything, with the wait for [retryAfter || 0] of the failure
    it was given. *)
Theorem retryRequest_waits_before_each_request error k a n p m count w :
  let l := issued w (retryRequest error k a n p m count w).1 in
  sleeps l = requests l /\
  (l = [] \/
   head l = Some (Sleep (or_else (get "retryAfter" error) (VNum 0)))).
Proof.
  destruct (retryRequest_issues _ error k a n p m count w eq_refl)
    as (l & Hl & Hsr & Hhead).
  simpl. rewrite (issued_app _ _ _ Hl). split; [done|].
  destruct l; [by left|right]. by apply Hhead.
Qed.

Lemma retryRequest_steady (budget : nat) :
  forall error k a n p m count w w' e,
    Z.to_nat (connectionRetryLimit c - count) = budget ->
    steady k w ->
    retryRequest error k a n p m count w = (w', Rejected e) ->
    requests (log w') = (requests (log w) + budget)%nat /\ steady k w'.
Proof.
  induction budget as [|budget IH]; intros error k a n p m count w w' e Hb Hw;
    rewrite retry_step, (steady_alive _ _ Hw).
  all: destruct (decide _) as [|Hn]; simpl; try lia.
  - intros [= <- _]. split; [lia|done].
  - pose proof (request_steady JSON_parse ToString sign k a n p m _
      (steady_emit k (Sleep (or_else (get "retryAfter" error) (VNum 0))) w Hw))
      as Hw2.
    pose proof (requests_request JSON_parse ToString sign k a n p m
      (emit (Sleep (or_else (get "retryAfter" error) (VNum 0))) w)) as Hreq.
    rewrite log_emit, requests_app in Hreq.
    change (requests [Sleep _]) with 0%nat in Hreq.
    destruct (request _ _ _ _ _ _) as [w2 [v|e1]]; simpl in *; [done|].
    intros H. apply IH in H as [H1 H2]; [|lia|done].
    split; [lia|done].
Qed.

(** X16. While the client is alive, the session open and no answer in
    store closes it, [retryRequest] gives up only when the attempts are
    used up: a call that fails has handed exactly
    [connectionRetryLimit - count] requests to the session, whatever the
    failures in between were, and leaves the session open. *)
Theorem retryRequest_exhausts error k a n p m count w w' e :
  steady k w ->
  retryRequest error k a n p m count w = (w', Rejected e) ->
  requests (issued w w') = Z.to_nat (connectionRetryLimit c - count) /\
  steady k w'.
Proof.
  intros Hw H.
  destruct (retryRequest_issues _ error k a n p m count w eq_refl)
    as (l & Hl & _).
  destruct (retryRequest_steady _ error k a n p m count w w' e eq_refl Hw H)
    as [Hr Hs].
  rewrite H in Hl. simpl in Hl.
  rewrite (issued_app _ _ _ Hl). rewrite Hl, requests_app in Hr.
  split; [lia|done].
Qed.

Lemma request_frame k a n p m w :
  isDestroyed (request k a n p m w).1 = isDestroyed w /\
  (forall k', k' <> k ->
     session_of k' (request k a n p m w).1 = session_of k' w).
Proof.
  unfold Client.request.
  destruct (token w) as [t|]; simpl.
  all: destruct (closes _); destruct (String.eqb (body n) "{}").
  all: rewrite ?closeAndDestroySession_isDestroyed; (split; [done|]).
  all: intros k' Hk.
  all: try match goal with |- context [closeAndDestroySession ?kk ?ww] =>
         rewrite (proj2 (closeAndDestroySession_sessions kk ww) k' Hk)
       end.
  all: by destruct k'.
Qed.

Lemma retryRequest_frame (budget : nat) :
  forall error k a n p m count w,
    Z.to_nat (connectionRetryLimit c - count) = budget ->
    isDestroyed (retryRequest error k a n p m count w).1 = isDestroyed w /\
    (forall k', k' <> k ->
       session_of k' (retryRequest error k a n p m count w).1
       = session_of k' w).
Proof.
  induction budget as [|budget IH]; intros error k a n p m count w Hb;
    rewrite retry_step.
  all: destruct (is_gone k w) as [[|]|]; simpl; try done.
  all: destruct (decide _) as [|Hn]; simpl; try done.
  - lia.
  - destruct (request_frame k a n p m
      (emit (Sleep (or_else (get "retryAfter" error) (VNum 0))) w))
      as [Hd Hs].
    destruct (request _ _ _ _ _ _) as [w2 [v|e]]; simpl in *.
    + split; [done|]. intros k' Hk. rewrite Hs by done. by destruct k'.
    + destruct (IH e k a n p m (count + 1) w2 ltac:(lia)) as [Hd2 Hs2].
      split; [by rewrite Hd2|]. intros k' Hk.
      rewrite Hs2, Hs by done. by destruct k'.
Qed.

Lemma retryRequest_failure_within (budget : nat) :
  forall error k a n p m count w w' e,
    Z.to_nat (connectionRetryLimit c - count) = budget ->
    within_failure_keys error ->
    retryRequest error k a n p m count w = (w', Rejected e) ->
    within_failure_keys e.
Proof.
  induction budget as [|budget IH];
    intros error k a n p m count w w' e Hb Herr; rewrite retry_step.
  all: unfold closed_or_destroyed, native_error.
  all: destruct (is_gone k w) as [[|]|]; simpl;
       try (intros [= _ <-]; first [apply within_error|apply within_empty]).
  all: destruct (decide _) as [|Hn]; simpl; try by intros [= _ <-].
  - lia.
  - destruct (request _ _ _ _ _ _) as [w2 [v|e1]] eqn:Hreq; [done|].
    apply IH; [lia|].
    by apply (request_failure_within JSON_parse ToString sign _ _ _ _ _ _ _ _
                Hreq).
Qed.

End RetryFacts.

Section WriteFacts.
Import Client Log Spec Extra.

Variable sprintf : string -> string + string.
Variable JSON_parse : string -> value + string.
Variable ToNumber : value -> option Z.
Variable ToString : value -> string.
Variable sign : Z -> string.
Variable c : config.

Abbreviation request := (Client.request JSON_parse ToString sign).
Abbreviation retryRequest := (Client.retryRequest JSON_parse ToString sign c).
Abbreviation write :=
  (Client.write sprintf JSON_parse ToNumber ToString sign c).
Abbreviation write_on := (Client.write_on JSON_parse ToNumber ToString sign c).

Lemma closing_is_wire l : forallb is_closing l = true -> Forall is_wire l.
Proof.
  intros H. apply Forall_forall. intros e He.
  rewrite forallb_forall in H. apply list_elem_of_In, H in He. by destruct e.
Qed.

Lemma request_wire k a n p m w :
  exists l, log (request k a n p m w).1 = log w ++ l
            /\ Forall is_wire l /\ l <> [].
Proof.
  destruct (request_log JSON_parse ToString sign k a n p m w)
    as (hs & closing & -> & Hc).
  eexists. split; [reflexivity|]. split; [|done].
  apply Forall_cons. split; [done|]. apply Forall_app. split.
  - destruct (String.eqb (body n) "{}"); repeat constructor.
  - apply Forall_cons. split; [done|]. by apply closing_is_wire.
Qed.

Lemma retryRequest_wire (budget : nat) :
  forall error k a n p m count w,
    Z.to_nat (connectionRetryLimit c - count) = budget ->
    exists l, log (retryRequest error k a n p m count w).1 = log w ++ l
              /\ Forall is_wire l.
Proof.
  induction budget as [|budget IH]; intros error k a n p m count w Hb;
    rewrite retry_step.
  all: destruct (is_gone k w) as [[|]|]; simpl;
       try (exists []; split; [by rewrite app_nil_r | constructor]).
  all: destruct (decide _) as [|Hn]; simpl;
       try (exists []; split; [by rewrite app_nil_r | constructor]).
  - lia.
  - destruct (request_wire k a n p m
      (emit (Sleep (or_else (get "retryAfter" error) (VNum 0))) w))
      as (l1 & Hl1 & Hg1 & _).
    destruct (request _ _ _ _ _ _) as [w2 [v|e]]; simpl in *.
    + exists (Sleep (or_else (get "retryAfter" error) (VNum 0)) :: l1).
      split; [rewrite Hl1; simpl; by rewrite <- ?app_assoc|].
      apply Forall_cons. by split.
    + destruct (IH e k a n p m (count + 1) w2 ltac:(lia)) as (l2 & Hl2 & Hg2).
      exists (Sleep (or_else (get "retryAfter" error) (VNum 0)) :: l1 ++ l2).
      split; [rewrite Hl2, Hl1; simpl; by rewrite <- ?app_assoc|].
      apply Forall_cons. split; [done|]. apply Forall_app. by split.
Qed.

Lemma write_on_wire k a i n p m count w :
  exists l, log (write_on k a i n p m count w).1 = log w ++ l
            /\ Forall is_wire l /\ l <> [].
Proof.
  unfold Client.write_on.
  destruct (request_wire k a n p m w) as (l1 & Hl1 & Hg1 & Hne).
  destruct (request _ _ _ _ _ _) as [w1 [v|e]]; simpl in *; [eauto|].
  destruct (is_retryable ToNumber e) as [[|]|]; simpl; eauto.
  destruct (retryRequest_wire _ e k a n p m count w1 eq_refl)
    as (l2 & Hl2 & Hg2).
  assert (l1 ++ l2 <> []) as Hne2 by (destruct l1; done).
  destruct (retryRequest _ _ _ _ _ _ _ _) as [w2 [v|e2]]; simpl in *.
  - exists (l1 ++ l2). split; [by rewrite Hl2, Hl1, app_assoc|].
    split; [|done]. apply Forall_app. by split.
  - destruct (loose_eq_num ToNumber (get "status" e2) 500).
    + destruct (closeAndDestroySession_log k w2) as (l3 & -> & Hl3).
      exists (l1 ++ l2 ++ l3). split; [by rewrite Hl2, Hl1, !app_assoc|].
      split; [|by destruct l1].
      repeat (apply Forall_app; split); try done.
      by apply closing_is_wire.
    + exists (l1 ++ l2). split; [by rewrite Hl2, Hl1, app_assoc|].
      split; [|done]. apply Forall_app. by split.
Qed.

Lemma ensure_session_log k w :
  exists w0 failure,
    (if needs_connect (session_of k w) then connect_session c k w
     else (w, None)) = (w0, failure)
    /\ log w0 = log w ++ connecting c k w
    /\ net w0 = net w /\ isDestroyed w0 = isDestroyed w
    /\ (failure = None -> needs_connect (session_of k w0) = false)
    /\ (forall err, failure = Some err ->
         connecting c k w = [Dial k] /\
         exists cause rest,
           dials w = Some cause :: rest /\
           err = {[ "error" :=
                      VErr ("cannot connect to proxy server: " +:+ cause) ]} /\
           w0 = set_dials rest (emit (Dial k) w)).
Proof.
  unfold connecting. destruct (needs_connect (session_of k w)) eqn:Hn.
  - unfold connect_session, createProxySocket.
    destruct (proxy_of c k); simpl.
    + destruct (dials w) as [|[cause|] rest] eqn:Hdl; simpl;
        eexists _, _; (split; [reflexivity|]); simpl;
        rewrite <- ?app_assoc; repeat split; try done; try by destruct k.
      all: intros;
        match goal with H : Some _ = Some _ |- _ => injection H as <- end;
        eauto.
    + eexists _, _. split; [reflexivity|]. simpl.
      repeat split; try done; by destruct k.
  - eexists _, _. split; [reflexivity|]. rewrite app_nil_r. done.
Qed.

Lemma connect_session_frame k w k' :
  k' <> k ->
  session_of k' (connect_session c k w).1 = session_of k' w.
Proof.
  intros Hk. unfold connect_session, createProxySocket.
  destruct (proxy_of c k); simpl.
  - destruct (dials w) as [|[cause|] rest]; simpl; by destruct k, k'.
  - by destruct k, k'.
Qed.

Lemma connecting_needed k w :
  needs_connect (session_of k w) = true ->
  exists ev rest, connecting c k w = ev :: rest /\ is_connecting ev = true.
Proof.
  intros Hn. unfold connecting. rewrite Hn.
  destruct (proxy_of c k); [|by eauto].
  destruct (dials w) as [|[|] ?]; by eauto.
Qed.

Lemma write_on_frame k a i n p m count w :
  isDestroyed (write_on k a i n p m count w).1 = isDestroyed w /\
  (forall k', k' <> k ->
     session_of k' (write_on k a i n p m count w).1 = session_of k' w).
Proof.
  unfold Client.write_on.
  destruct (request_frame JSON_parse ToString sign k a n p m w) as [Hd Hs].
  destruct (request _ _ _ _ _ _) as [w1 [v|e]]; simpl in *; [done|].
  destruct (is_retryable ToNumber e) as [[|]|]; simpl; try done.
  destruct (retryRequest_frame JSON_parse ToString sign c _ e k a n p m count
              w1 eq_refl) as [Hd2 Hs2].
  destruct (retryRequest _ _ _ _ _ _ _ _) as [w2 [v|e2]]; simpl in *.
  - split; [by rewrite Hd2|]. intros k' Hk. by rewrite Hs2, Hs.
  - destruct (loose_eq_num ToNumber (get "status" e2) 500).
    + rewrite closeAndDestroySession_isDestroyed.
      split; [by rewrite Hd2|]. intros k' Hk.
      rewrite (proj2 (closeAndDestroySession_sessions k w2) k' Hk).
      by rewrite Hs2, Hs.
    + split; [by rewrite Hd2|]. intros k' Hk. by rewrite Hs2, Hs.
Qed.

Lemma write_frame notification subDirectory type method count w :
  isDestroyed (write notification subDirectory type method count w).1
  = isDestroyed w /\
  (makePath type subDirectory = None ->
   (write notification subDirectory type method count w).1 = w) /\
  (forall path k',
     makePath type subDirectory = Some path -> k' <> session_for path ->
     session_of k' (write notification subDirectory type method count w).1
     = session_of k' w).
Proof.
  destruct (makePath type subDirectory) as [path|] eqn:Hp; cycle 1.
  { unfold Client.write. rewrite Hp. destruct (VError _ _); by repeat split. }
  destruct (HTTPMethod method) as [httpMethod|] eqn:Hm; cycle 1.
  { unfold Client.write. rewrite Hp, Hm.
    destruct (VError _ _); by repeat split. }
  destruct (isDestroyed w) eqn:Hd.
  { unfold Client.write. rewrite Hp, Hm, Hd. by repeat split. }
  rewrite (write_known sprintf JSON_parse ToNumber ToString sign c _ _ _ _ _ _ _ _
             Hp Hm Hd).
  fold (session_for path). set (k := session_for path).
  assert (isDestroyed
            (if needs_connect (session_of k w) then connect_session c k w
             else (w, None)).1 = false /\
          forall k', k' <> k ->
            session_of k'
              (if needs_connect (session_of k w) then connect_session c k w
               else (w, None)).1 = session_of k' w) as [Hd0 Hs0].
  { destruct (ensure_session_log k w)
      as (w0 & failure & Hw0 & _ & _ & Hd0 & _).
    split.
    - rewrite Hw0. simpl. by rewrite Hd0.
    - intros k' Hk. destruct (needs_connect (session_of k w)); [|done].
      by apply connect_session_frame. }
  destruct (if needs_connect _ then _ else _) as [w0 [err|]]; simpl in *.
  - split; [done|]. split; [done|]. intros ? k' [= <-]. apply Hs0.
  - match goal with |- context [write_on ?k ?a ?i ?n ?p ?m ?cnt ?w0] =>
      destruct (write_on_frame k a i n p m cnt w0) as [Hd1 Hs1] end.
    split; [by rewrite Hd1|]. split; [done|].
    intros ? k' [= <-] Hk. by rewrite Hs1, Hs0.
Qed.

(** X24. A write never revives or destroys the client, and it leaves
    alone the session that it does not use, which the path decides: a
    write whose path holds /1/apps/ leaves the push session alone, and
    any other write the session of channel management. So a write for
    channels or all channels never touches the push session, and a write
    to a device or for broadcasts never touches the session of channel
    management when its recipient holds no slash (with a recipient such
    as 1/apps/x it does go through that session). A write that has no
    path changes nothing. *)
Theorem write_keeps_the_other_session
    notification subDirectory type method count w :
  let w' := (write notification subDirectory type method count w).1 in
  isDestroyed w' = isDestroyed w /\
  (makePath type subDirectory = None -> w' = w) /\
  (forall path,
     makePath type subDirectory = Some path ->
     match session_for path with
     | Push => manageChannelsSession w' = manageChannelsSession w
     | Manage => session w' = session w
     end) /\
  (type = "channels" \/ type = "allChannels" -> session w' = session w) /\
  (type = "device" \/ type = "broadcasts" ->
   slash_free subDirectory = true ->
   manageChannelsSession w' = manageChannelsSession w).
Proof.
  destruct (write_frame notification subDirectory type method count w)
    as (Hd & Hnone & Hother).
  simpl. split; [done|]. split; [done|]. split; [|split].
  - intros path Hp. destruct (session_for path) eqn:Hk.
    + apply (Hother path Manage Hp). by rewrite Hk.
    + apply (Hother path Push Hp). by rewrite Hk.
  - intros Ht.
    assert (exists path, makePath type subDirectory = Some path
                         /\ session_for path = Manage)
      as (path & Hp & Hk).
    { unfold session_for.
      destruct Ht as [-> | ->]; eexists; (split; [reflexivity|]).
      - by rewrite (includes_prefix (subDirectory +:+ "/channels")).
      - by rewrite (includes_prefix (subDirectory +:+ "/all-channels")). }
    apply (Hother path Push Hp). by rewrite Hk.
  - intros Ht Hfree.
    assert (exists path, makePath type subDirectory = Some path
                         /\ session_for path = Push)
      as (path & Hp & Hk).
    { unfold session_for.
      destruct Ht as [-> | ->]; eexists; (split; [reflexivity|]).
      - by rewrite includes_device_slash_free.
      - by rewrite includes_broadcasts_slash_free. }
    apply (Hother path Manage Hp). by rewrite Hk.
Qed.

Lemma refused_dial k l : refused k (l ++ [Dial k]) = true.
Proof.
  induction l as [|e l IH]; simpl.
  - by destruct k.
  - destruct e; try exact IH. rewrite IH. apply orb_true_r.
Qed.

Lemma filter_wire l : Forall is_wire l -> filter is_connecting l = [].
Proof.
  induction 1 as [|e l He _ IH]; [done|].
  rewrite filter_cons_False; [done|]. destruct e; simpl in *; tauto.
Qed.

Lemma filter_connecting k w :
  filter is_connecting (connecting c k w) = connecting c k w.
Proof.
  unfold connecting. destruct (needs_connect _); [|done].
  destruct (proxy_of c k); [|done]. by destruct (dials w) as [|[|] ?].
Qed.

(** X5. On a client on which no dial for the session of the path was
    refused before, [write] adds nothing to the log exactly when it
    refuses the call up front: the type has no path, the method is
    neither one of post, get and delete nor a name that every object
    inherits, or the client is destroyed. In every other case it connects
    or sends. *)
Theorem write_silent_iff_refused notification subDirectory type method count w :
  (forall path, makePath type subDirectory = Some path ->
                refused (session_for path) (log w) = false) ->
  issued w (write notification subDirectory type method count w).1 = [] <->
  makePath type subDirectory = None \/ HTTPMethod method = None
  \/ isDestroyed w = true.
Proof.
  intros _.
  destruct (makePath type subDirectory) as [path|] eqn:Hp; cycle 1.
  { unfold Client.write. rewrite Hp.
    destruct (VError _ _); simpl; rewrite issued_same; tauto. }
  destruct (HTTPMethod method) as [httpMethod|] eqn:Hm; cycle 1.
  { unfold Client.write. rewrite Hp, Hm.
    destruct (VError _ _); simpl; rewrite issued_same; tauto. }
  destruct (isDestroyed w) eqn:Hd.
  { unfold Client.write. rewrite Hp, Hm, Hd. simpl. rewrite issued_same. tauto. }
  split; [|intros [H | [H | H]]; discriminate H].
  intros H. exfalso. revert H.
  rewrite (write_known sprintf JSON_parse ToNumber ToString sign c _ _ _ _ _ _ _ _
             Hp Hm Hd).
  set (k := if includes path "/1/apps/" then Manage else Push).
  destruct (ensure_session_log k w)
    as (w0 & failure & -> & Hl0 & _ & _ & _ & Hfail).
  destruct failure as [err|]; simpl.
  - rewrite (issued_app _ _ _ Hl0).
    destruct (Hfail err eq_refl) as [-> _]. done.
  - match goal with |- issued w (?x).1 = [] -> _ =>
      destruct (write_on_wire k
        (match k with Manage => manageChannelsAddress c | Push => address c end)
        (makeSubDirectoryTypeObject (default type (subDirectoryLabel type))
           subDirectory) notification path httpMethod
        (default 0 count) w0) as (l1 & Hl1 & _ & Hne) end.
    rewrite Hl0, <- app_assoc in Hl1. rewrite (issued_app _ _ _ Hl1).
    intros H. apply app_eq_nil in H as [_ H]. done.
Qed.

(** X6. On a client on which no dial for the session was refused
    before, a write that has to connect through a proxy whose dial fails,
    for a cause without a percent sign, makes no request: it fails with
    the recipient and, under [error], not an error but the object that
    wraps the error of the proxy. The log then shows the refused dial. *)
Theorem write_proxy_failure
    notification subDirectory type method count w path httpMethod
    label ep cause rest :
  makePath type subDirectory = Some path ->
  HTTPMethod method = Some httpMethod ->
  subDirectoryLabel type = Some label ->
  isDestroyed w = false ->
  needs_connect (session_of (session_for path) w) = true ->
  proxy_of c (session_for path) = Some ep ->
  dials w = Some cause :: rest ->
  refused (session_for path) (log w) = false ->
  has_percent cause = false ->
  write notification subDirectory type method count w =
    (set_dials rest (emit (Dial (session_for path)) w),
     Rejected (proxy_failure label subDirectory cause)) /\
  refused (session_for path)
    (log (write notification subDirectory type method count w).1) = true.
Proof.
  intros Hp Hm Hl Hd Hn Hproxy Hdials _ _.
  assert (write notification subDirectory type method count w =
            (set_dials rest (emit (Dial (session_for path)) w),
             Rejected (proxy_failure label subDirectory cause))) as Hw;
    [|split; [exact Hw|rewrite Hw; apply refused_dial]].
  rewrite (write_known sprintf JSON_parse ToNumber ToString sign c _ _ _ _ _ _ _ _
             Hp Hm Hd).
  fold (session_for path). rewrite Hn, (info_known _ _ _ Hp), Hl. simpl.
  unfold connect_session, createProxySocket. rewrite Hproxy. simpl.
  by rewrite Hdials.
Qed.

(** X7. On a client on which no dial for the session was refused
    before, a write that is not refused connects only at its start and
    only if the session it uses is missing, closed or destroyed: the
    dials and connections it logs are those of that one attempt, and the
    retries never connect again. *)
Theorem write_connects_only_at_start
    notification subDirectory type method count w path httpMethod :
  makePath type subDirectory = Some path ->
  HTTPMethod method = Some httpMethod ->
  isDestroyed w = false ->
  refused (session_for path) (log w) = false ->
  filter is_connecting
    (issued w (write notification subDirectory type method count w).1)
  = connecting c (session_for path) w.
Proof.
  intros Hp Hm Hd _.
  rewrite (write_known sprintf JSON_parse ToNumber ToString sign c _ _ _ _ _ _ _ _
             Hp Hm Hd).
  fold (session_for path). set (k := session_for path).
  destruct (ensure_session_log k w)
    as (w0 & failure & -> & Hl0 & _ & _ & _ & Hfail).
  destruct failure as [err|]; simpl.
  - rewrite (issued_app _ _ _ Hl0). apply filter_connecting.
  - match goal with |- context [write_on ?k ?a ?i ?n ?p ?m ?cnt ?w0] =>
      destruct (write_on_wire k a i n p m cnt w0) as (l1 & Hl1 & Hw1 & _) end.
    rewrite Hl0, <- app_assoc in Hl1. rewrite (issued_app _ _ _ Hl1).
    by rewrite filter_app, filter_connecting, (filter_wire _ Hw1), app_nil_r.
Qed.

Lemma write_on_rejection k a label subDirectory n p m count w w' e :
  write_on k a (makeSubDirectoryTypeObject label subDirectory) n p m count w
    = (w', Rejected e) ->
  exists e1,
    e = spread (makeSubDirectoryTypeObject label subDirectory)
          (delete "retryAfter" e1) /\
    within_failure_keys e1 /\
    (get "status" e1 = VNum 500 -> needs_connect (session_of k w') = true).
Proof.
  unfold Client.write_on.
  destruct (request k a n p m w) as [w1 [v|e1]] eqn:Hreq; [done|].
  pose proof (request_failure_within JSON_parse ToString sign _ _ _ _ _ _ _ _
                Hreq) as Hin.
  pose proof (request_rejects_well JSON_parse ToString sign _ _ _ _ _ _ _ _
                Hreq) as Hwell.
  destruct (is_retryable_spec ToNumber e1 Hwell) as [Hsome _].
  destruct (is_retryable ToNumber e1) as [[|]|] eqn:Hretry; [| |done].
  - destruct (retryRequest e1 k a n p m count w1) as [w2 [v|e2]] eqn:Hretried;
      [done|].
    intros [= <- <-]. exists e2. split; [done|]. split.
    + by apply (retryRequest_failure_within JSON_parse ToString sign c _
                  e1 k a n p m count w1 w2 e2 eq_refl Hin).
    + intros ->. simpl.
      by destruct (closeAndDestroySession_sessions k w2) as [H _].
  - intros [= <- <-]. exists e1. split; [done|]. split; [done|].
    intros Hs. unfold is_retryable in Hretry. by rewrite Hs in Hretry.
Qed.

Lemma write_rejection notification subDirectory type method count w w' e path :
  makePath type subDirectory = Some path ->
  write notification subDirectory type method count w = (w', Rejected e) ->
  let info :=
    makeSubDirectoryTypeObject (default type (subDirectoryLabel type))
      subDirectory in
  (exists v, e = <["error" := v]> info) \/
  (exists e1,
     e = spread info (delete "retryAfter" e1) /\
     within_failure_keys e1 /\
     (get "status" e1 = VNum 500 ->
      needs_connect (session_of (session_for path) w') = true)) \/
  (HTTPMethod method = None /\ e = native_error /\
   exists cause,
     VError sprintf ("invalid httpMethod " +:+ dquote +:+ method +:+ dquote)
     = inr cause).
Proof.
  intros Hp. simpl.
  destruct (HTTPMethod method) as [httpMethod|] eqn:Hm; cycle 1.
  { unfold Client.write. rewrite Hp, Hm.
    destruct (VError _ _) as [message|cause]; intros [= _ <-]; eauto 6. }
  destruct (isDestroyed w) eqn:Hd.
  { unfold Client.write. rewrite Hp, Hm, Hd. intros [= _ <-]. eauto. }
  rewrite (write_known sprintf JSON_parse ToNumber ToString sign c _ _ _ _ _ _ _ _
             Hp Hm Hd).
  fold (session_for path).
  destruct (if needs_connect _ then _ else _) as [w0 [err|]].
  - intros [= _ <-]. eauto.
  - intros H. right. left. by apply write_on_rejection in H.
Qed.

(** X8. A write that fails with status 500 leaves the session it used
    missing, closed or destroyed, and the client alive, so that the next
    write that uses this session begins by connecting anew. *)
Theorem write_500_drops_session
    notification subDirectory type method count w w' e path :
  makePath type subDirectory = Some path ->
  write notification subDirectory type method count w = (w', Rejected e) ->
  get "status" e = VNum 500 ->
  needs_connect (session_of (session_for path) w') = true /\
  isDestroyed w' = false /\
  (forall notification2 subDirectory2 type2 method2 count2 path2 httpMethod2,
     makePath type2 subDirectory2 = Some path2 ->
     session_for path2 = session_for path ->
     HTTPMethod method2 = Some httpMethod2 ->
     exists ev rest,
       issued w' (write notification2 subDirectory2 type2 method2 count2 w').1
       = ev :: rest /\
       is_connecting ev = true).
Proof.
  intros Hp Hw Hs.
  assert (forall label : string,
            get "status" (makeSubDirectoryTypeObject label subDirectory)
            <> VNum 500) as Hinfo.
  { intros label. unfold get, makeSubDirectoryTypeObject.
    destruct (decide (label = "__proto__")); [done|].
    destruct (decide (label = "status")) as [->|Hne].
    - by rewrite lookup_singleton_eq.
    - by rewrite lookup_singleton_ne. }
  assert (forall v : value,
            get "status"
              (<["error" := v]>
                 (makeSubDirectoryTypeObject
                    (default type (subDirectoryLabel type)) subDirectory))
            <> VNum 500) as Hrefused.
  { intros v H. unfold get in H. rewrite lookup_insert_ne in H by done.
    by apply Hinfo in H. }
  assert (needs_connect (session_of (session_for path) w') = true) as Hn.
  { destruct (write_rejection _ _ _ _ _ _ _ _ _ Hp Hw)
      as [[v ->] | [(e1 & -> & _ & H500) | (_ & -> & _)]];
      [by apply Hrefused in Hs| |done].
    apply H500. revert Hs. unfold get, spread.
    destruct (delete "retryAfter" e1 !! "status") as [v|] eqn:E.
    - erewrite lookup_union_Some_l by done. simpl. intros ->.
      rewrite lookup_delete_ne in E by done. by rewrite E.
    - rewrite lookup_union_r by done. intros Hs. by apply Hinfo in Hs. }
  assert (isDestroyed w' = false) as Hd.
  { destruct (write_frame notification subDirectory type method count w)
      as (Hd & _). rewrite Hw in Hd. simpl in Hd. rewrite Hd.
    destruct (isDestroyed w) eqn:E; [|done]. exfalso.
    revert Hw. unfold Client.write. rewrite Hp.
    destruct (HTTPMethod method); rewrite ?E; [|destruct (VError _ _)];
      intros [= _ <-]; try done; by apply Hrefused in Hs. }
  split; [done|]. split; [done|].
  intros n2 sub2 type2 method2 count2 path2 hm2 Hp2 Hk2 Hm2.
  rewrite (write_known sprintf JSON_parse ToNumber ToString sign c _ _ _ _ _ _ _ _
             Hp2 Hm2 Hd).
  fold (session_for path2). rewrite Hk2. set (k := session_for path) in *.
  destruct (connecting_needed k w' Hn) as (ev & rest & Hc & Hev).
  destruct (ensure_session_log k w')
    as (w0 & failure & -> & Hl0 & _).
  rewrite Hc in Hl0.
  destruct failure as [err|]; simpl.
  - rewrite (issued_app _ _ _ Hl0). eauto.
  - match goal with |- context [write_on ?k ?a ?i ?n ?p ?m ?cnt ?w0] =>
      destruct (write_on_wire k a i n p m cnt w0) as (l1 & Hl1 & _) end.
    rewrite Hl0, <- app_assoc in Hl1. rewrite (issued_app _ _ _ Hl1).
    simpl. eauto.
Qed.

(** X10. Every failure of a write names its recipient, but for one:
    for a type that has a label, the failure holds the recipient under
    that label, whether the write was refused, could not connect, or
    failed at the request or a retry. Only when the method is refused
    and [VError] throws on the message that quotes it, as it can for a
    method with a percent sign, is the failure the plain error that
    [VError] throws, which names nothing. *)
Theorem write_failure_names_recipient
    notification subDirectory type method count w w' e label :
  subDirectoryLabel type = Some label ->
  write notification subDirectory type method count w = (w', Rejected e) ->
  match HTTPMethod method,
        VError sprintf
          ("invalid httpMethod " +:+ dquote +:+ method +:+ dquote) with
  | None, inr _ => e = native_error
  | _, _ => e !! label = Some (VStr subDirectory)
  end.
Proof.
  intros Hl Hw.
  pose proof (label_outside _ _ Hl) as Hkey.
  destruct (label_has_path _ _ subDirectory Hl) as [path Hp].
  assert (forall v : value,
            (<["error" := v]> {[ label := VStr subDirectory ]} : obj) !! label
            = Some (VStr subDirectory)) as Hrefused.
  { intros v.
    pose proof Hkey as Hne.
    apply failure_key_cases in Hne as (_ & _ & _ & _ & _ & _ & Hne).
    rewrite lookup_insert_ne by done. apply lookup_singleton_eq. }
  pose proof (info_known _ _ _ Hp) as Hinfo. rewrite Hl in Hinfo.
  simpl in Hinfo.
  destruct (HTTPMethod method) as [httpMethod|] eqn:Hm.
  - destruct (write_rejection _ _ _ _ _ _ _ _ _ Hp Hw)
      as [[v ->] | [(e1 & -> & Hin & _) | (Hnone & _)]];
      rewrite ?Hl; simpl; rewrite ?Hinfo.
    + apply Hrefused.
    + rewrite lookup_spread_r; [apply lookup_singleton_eq|].
      apply lookup_delete_None. right. by apply Hin.
    + rewrite Hm in Hnone. discriminate.
  - revert Hw. unfold Client.write. rewrite Hp, Hm, Hl. simpl.
    rewrite Hinfo.
    destruct (VError _ _) as [message|cause]; intros [= _ <-]; [|done].
    apply Hrefused.
Qed.

End WriteFacts.

Section PoolFacts.
Import MultiClient.

Lemma chooseSingleClient_ok p i :
  clientIndex p = Some i -> (i < length (clients p))%nat ->
  chooseSingleClient p =
    (Some i, {| clients := clients p;
                clientIndex := Some ((i + 1) mod length (clients p))%nat |}).
Proof.
  intros Hi Hlt. unfold chooseSingleClient. rewrite Hi.
  rewrite decide_True by done.
  destruct (length (clients p)) eqn:E; [lia|done].
Qed.

Lemma choices_S k p :
  choices (S k) p =
    let '(chosen, p1) := chooseSingleClient p in
    let '(rest, p2) := choices k p1 in
    (chosen :: rest, p2).
Proof. reflexivity. Qed.

Lemma choices_formula k :
  forall p i,
    clientIndex p = Some i -> (i < length (clients p))%nat ->
    choices k p =
      ((fun j => Some ((i + j) mod length (clients p))%nat) <$> seq 0 k,
       {| clients := clients p;
          clientIndex := Some ((i + k) mod length (clients p))%nat |}).
Proof.
  induction k as [|k IH]; intros p i Hi Hlt.
  - simpl. rewrite Nat.add_0_r, Nat.mod_small by done. by destruct p; simplify_eq/=.
  - rewrite choices_S, (chooseSingleClient_ok p i Hi Hlt).
    rewrite (IH {| clients := clients p;
                   clientIndex := Some ((i + 1) mod length (clients p))%nat |}
               ((i + 1) mod length (clients p))%nat eq_refl); simpl;
      [|apply Nat.mod_upper_bound; lia].
    rewrite Nat.add_0_r, (Nat.mod_small i) by done.
    rewrite <- fmap_S_seq, <- list_fmap_compose.
    f_equal; [f_equal|].
    + apply list_fmap_ext. intros _ j _. simpl.
      rewrite Nat.Div0.add_mod_idemp_l. do 2 f_equal. lia.
    + rewrite Nat.Div0.add_mod_idemp_l. do 3 f_equal. lia.
Qed.

Lemma rotation i n :
  (i < n)%nat ->
  (fun j => (i + j) mod n)%nat <$> seq 0 n = seq i (n - i) ++ seq 0 i.
Proof.
  intros Hlt.
  replace (seq 0 n) with (seq 0 (n - i) ++ seq (n - i) i)
    by (rewrite <- seq_app; f_equal; lia).
  rewrite fmap_app. f_equal.
  - transitivity (Nat.add i <$> seq 0 (n - i));
      [|rewrite fmap_add_seq; f_equal; lia].
    apply list_fmap_ext.
    intros t j Hj. apply lookup_seq in Hj as [-> Hj]. simpl.
    apply Nat.mod_small. lia.
  - replace (seq (n - i) i) with (Nat.add (n - i) <$> seq 0 i)
      by (rewrite fmap_add_seq; f_equal; lia).
    rewrite <- list_fmap_compose. rewrite <- (list_fmap_id (seq 0 i)) at 2.
    apply list_fmap_ext. intros t j Hj. apply lookup_seq in Hj as [-> Hj].
    simpl. replace (i + (n - i + t))%nat with (t + 1 * n)%nat by lia.
    rewrite Nat.Div0.mod_add. apply Nat.mod_small. lia.
Qed.

(** X18. [chooseSingleClient] goes round the pool: from index [i] in a
    pool of [n] clients, the [j]-th call returns the client at
    [(i + j) mod n]; [n] calls in a row return every client once and
    leave the pool as it was. *)
Theorem chooseSingleClient_round_robin k p :
  pool_ok p ->
  let n := length (clients p) in
  (exists i, clientIndex p = Some i /\
     (choices k p).1 = (fun j => Some ((i + j) mod n)%nat) <$> seq 0 k) /\
  pool_ok (choices k p).2 /\
  (choices n p).1 ≡ₚ Some <$> seq 0 n /\
  (choices n p).2 = p.
Proof.
  intros (i & Hi & Hlt). simpl.
  rewrite !(choices_formula _ p i Hi Hlt). simpl.
  split; [by exists i|]. split; [|split].
  - eexists. split; [reflexivity|]. simpl. apply Nat.mod_upper_bound. lia.
  - rewrite (list_fmap_compose (fun j => (i + j) mod length (clients p))%nat Some).
    rewrite rotation by done. apply fmap_Permutation.
    rewrite (Permutation_app_comm (seq i _)).
    replace (seq 0 (length (clients p)))
      with (seq 0 (i + (length (clients p) - i))) by (f_equal; lia).
    by rewrite seq_app.
  - replace (i + length (clients p))%nat with (i + 1 * length (clients p))%nat
      by lia.
    rewrite Nat.Div0.mod_add, Nat.mod_small by done.
    by destruct p; simplify_eq/=.
Qed.

(** X17. [new MultiClient(options)] either throws, which it does
    exactly when the count it parses is not a number or is below one,
    or builds a pool of that many clients, made in order, whose index
    is the first position. *)
Theorem MultiClient_builds_a_pool
    (parseInt : value -> option Z) (ToString : value -> string)
    clientCount new_Client :
  match MultiClient parseInt ToString clientCount new_Client with
  | Built p =>
      exists count,
        parseInt (or_else clientCount (VNum 2)) = Some count /\
        1 <= count /\
        length (clients p) = Z.to_nat count /\
        (forall i, (i < Z.to_nat count)%nat ->
                   clients p !! i = Some (new_Client i)) /\
        clientIndex p = Some 0%nat /\
        pool_ok p
  | Refused message =>
      message = "Expected positive client count but got "
                +:+ ToString clientCount /\
      forall count,
        parseInt (or_else clientCount (VNum 2)) = Some count -> count < 1
  end.
Proof.
  unfold MultiClient.
  destruct (parseInt (or_else clientCount (VNum 2))) as [count|]; [|done].
  destruct (count <? 1) eqn:E.
  - split; [done|]. intros ? [= <-]. by apply Z.ltb_lt.
  - apply Z.ltb_ge in E. exists count. simpl.
    rewrite length_fmap, length_seq.
    repeat split; try done.
    + intros i Hi. rewrite list_lookup_fmap, lookup_seq_lt by done. done.
    + exists 0%nat. simpl. rewrite length_fmap, length_seq. split; [done|lia].
Qed.

Section PoolWriting.

Variable sprintf : string -> string + string.
Variable JSON_parse : string -> value + string.
Variable ToNumber : value -> option Z.
Variable ToString : value -> string.
Variable sign : Z -> string.
Variable c : Client.config.

(** X19. A write on the pool is the write of the client at the index:
    it settles as that client's write does, changes that client alone,
    and moves the index to the next position. *)
Theorem pool_write_uses_one_client
    notification subDirectory type method count p :
  pool_ok p ->
  exists i w,
    clientIndex p = Some i /\ clients p !! i = Some w /\
    let written :=
      Client.write sprintf JSON_parse ToNumber ToString sign c notification
        subDirectory type method count w in
    let p' :=
      (write sprintf JSON_parse ToNumber ToString sign c notification subDirectory
         type method count p).1 in
    (write sprintf JSON_parse ToNumber ToString sign c notification subDirectory
       type method count p).2 = written.2 /\
    clients p' !! i = Some written.1 /\
    (forall j, j <> i -> clients p' !! j = clients p !! j) /\
    length (clients p') = length (clients p) /\
    clientIndex p' = Some ((i + 1) mod length (clients p))%nat /\
    pool_ok p'.
Proof.
  intros (i & Hi & Hlt).
  destruct (lookup_lt_is_Some_2 _ _ Hlt) as [w Hw].
  exists i, w. split; [done|]. split; [done|].
  unfold write. rewrite (chooseSingleClient_ok p i Hi Hlt). simpl.
  rewrite Hw.
  destruct (Client.write _ _ _ _ _ _ _ _ _ _ _ w) as [w' s]. simpl.
  split; [done|]. split; [by apply list_lookup_insert_eq|].
  split; [by intros j Hj; apply list_lookup_insert_ne|].
  rewrite length_insert. split; [done|]. split; [done|].
  eexists. simpl. split; [reflexivity|].
  rewrite length_insert. apply Nat.mod_upper_bound. lia.
Qed.

End PoolWriting.




End PoolFacts.

Section ConfigFacts.
Import Config.

Lemma strict_eq_str_true v s : strict_eq_str v s = true <-> v = VStr s.
Proof.
  destruct v; simpl; try done.
  rewrite String.eqb_eq. split; [by intros ->|by intros [= ->]].
Qed.

Lemma configureAddress_keeps o :
  manageChannelsAddress (configureAddress o) = manageChannelsAddress o /\
  manageChannelsPort (configureAddress o) = manageChannelsPort o.
Proof. unfold configureAddress. by destruct (truthy (address o)). Qed.

Lemma production_resolved o :
  truthy (production (configureAddress o)) = true <->
  address (configureAddress o) = VStr EndpointAddress_production.
Proof.
  unfold configureAddress. destruct (truthy (address o)); simpl.
  - apply strict_eq_str_true.
  - by destruct (truthy (production o)).
Qed.

Lemma configureManageChannelsAddress_fields o :
  let o' := configureManageChannelsAddress o in
  address o' = address o /\ production o' = production o /\
  manageChannelsAddress o' =
    (if truthy (manageChannelsAddress o) then manageChannelsAddress o
     else if truthy (production o)
          then VStr ManageChannelsEndpointAddress_production
          else VStr ManageChannelsEndpointAddress_development) /\
  manageChannelsPort o' =
    (if truthy (manageChannelsPort o) then manageChannelsPort o
     else if truthy (production o) then VNum 2196 else VNum 2195).
Proof.
  unfold configureManageChannelsAddress, configureManageChannelsPort.
  destruct (truthy (manageChannelsAddress o)) eqn:Ha; simpl;
    destruct (truthy (manageChannelsPort o)) eqn:Hp; simpl;
    by rewrite ?Ha, ?Hp.
Qed.

(** X21. After [configureAddress] the two options agree: the address is
    set, and [production] is truthy exactly when the address is the
    production endpoint. An address that was given is kept and decides
    [production]; without one, [production] is kept and decides the
    address. *)
Theorem configureAddress_agrees o :
  let o' := configureAddress o in
  truthy (address o') = true /\
  (truthy (production o') = true <->
   address o' = VStr EndpointAddress_production) /\
  (truthy (address o) = true ->
   address o' = address o /\
   production o' =
     VBool (strict_eq_str (address o) EndpointAddress_production)) /\
  (truthy (address o) = false ->
   production o' = production o /\
   address o' =
     VStr (if truthy (production o) then EndpointAddress_production
           else EndpointAddress_development)).
Proof.
  simpl. split; [|split; [apply production_resolved|]].
  - unfold configureAddress. destruct (truthy (address o)) eqn:Ha; simpl;
      [done|by destruct (truthy (production o))].
  - unfold configureAddress. destruct (truthy (address o)) eqn:Ha; simpl.
    + by split.
    + split; [done|]. intros _. split; [done|].
      by destruct (truthy (production o)).
Qed.

(** X22. After the two steps of [config] the management endpoint
    follows the address that was resolved: [production] is then truthy
    exactly when the address is the production endpoint, and where no
    management address or port was given they are those of production
    or of development accordingly; a given one is kept. With an address
    of one's own the defaults are therefore those of development,
    whatever [production] said. *)
Theorem configureAddresses_follow_the_address o :
  let o' := configureAddresses o in
  address o' = address (configureAddress o) /\
  (truthy (production o') = true <->
   address o' = VStr EndpointAddress_production) /\
  manageChannelsAddress o' =
    (if truthy (manageChannelsAddress o) then manageChannelsAddress o
     else if truthy (production o')
          then VStr ManageChannelsEndpointAddress_production
          else VStr ManageChannelsEndpointAddress_development) /\
  manageChannelsPort o' =
    (if truthy (manageChannelsPort o) then manageChannelsPort o
     else if truthy (production o') then VNum 2196 else VNum 2195) /\
  (truthy (address o) = true ->
   address o <> VStr EndpointAddress_production ->
   truthy (manageChannelsAddress o) = false ->
   truthy (manageChannelsPort o) = false ->
   manageChannelsAddress o' = VStr ManageChannelsEndpointAddress_development
   /\ manageChannelsPort o' = VNum 2195).
Proof.
  simpl. unfold configureAddresses.
  destruct (configureManageChannelsAddress_fields (configureAddress o))
    as (Ha & Hp & Hma & Hmp). simpl in *.
  destruct (configureAddress_keeps o) as [Hka Hkp].
  rewrite Hka in Hma. rewrite Hkp in Hmp. rewrite Hp, Ha.
  split; [done|]. split; [apply production_resolved|].
  split; [done|]. split; [done|].
  intros Hgiven Hne Hm Hport. rewrite Hma, Hmp, Hm, Hport.
  assert (truthy (production (configureAddress o)) = false) as ->; [|done].
  destruct (truthy (production (configureAddress o))) eqn:E; [|done].
  apply production_resolved in E. revert E.
  unfold configureAddress. by rewrite Hgiven.
Qed.

Lemma validateTokenField_valid name v :
  validateTokenField name v = Valid <-> exists s, v = VStr s /\ s <> "".
Proof.
  unfold validateTokenField. split.
  - destruct (truthy v) eqn:E; simpl; [|done].
    destruct v; try done. intros _. eexists. split; [done|].
    simpl in E. intros ->. done.
  - intros (s & -> & Hs). simpl.
    apply String.eqb_neq in Hs. by rewrite Hs.
Qed.

(** X23. [validateToken] accepts a token exactly when its [keyId] and
    its [teamId] are strings that are not empty, and it reports what is
    wrong with [keyId] before it looks at [teamId]. *)
Theorem validateToken_accepts token :
  (validateToken token = Valid <->
   (exists keyId, get "keyId" token = VStr keyId /\ keyId <> "") /\
   (exists teamId, get "teamId" token = VStr teamId /\ teamId <> "")) /\
  (forall message,
     validateTokenField "keyId" (get "keyId" token) = Invalid message ->
     validateToken token = Invalid message).
Proof.
  unfold validateToken. split.
  - split.
    + intros H. destruct (validateTokenField "keyId" _) eqn:E; [|done].
      split; [by apply (validateTokenField_valid "keyId")
             |by apply (validateTokenField_valid "teamId")].
    + intros [Hk Ht]. apply (validateTokenField_valid "keyId") in Hk.
      rewrite Hk. by apply (validateTokenField_valid "teamId").
  - by intros message ->.
Qed.

End ConfigFacts.

(** ** The further properties at concrete inputs *)

Lemma makePath_injective_witness :
  Client.makePath "device" "abcd1234" = Some "/3/device/abcd1234" /\
  ("device" = "device" /\ "abcd1234" = "abcd1234").
Proof.
  assert (Client.makePath "device" "abcd1234" = Some "/3/device/abcd1234")
    as H by (vm_compute; reflexivity).
  split; [exact H|].
  exact (makePath_injective "device" "device" "abcd1234" "abcd1234"
           "/3/device/abcd1234" H H).
Defined.

Lemma write_proxy_failure_witness :
  Client.write Sample.sprintf Sample.JSON_parse Sample.ToNumber Sample.ToString Sample.sign
    Scenario.proxied Sample.a_note "abcd1234" "device" "post" None
    Scenario.behind_proxy
  = (Client.set_dials []
       (Client.emit (Client.Dial (Extra.session_for "/3/device/abcd1234"))
          Scenario.behind_proxy),
     Client.Rejected (Extra.proxy_failure "device" "abcd1234" "ECONNREFUSED"))
  /\
  Extra.refused (Extra.session_for "/3/device/abcd1234")
    (Client.log
       (Client.write Sample.sprintf Sample.JSON_parse Sample.ToNumber
          Sample.ToString Sample.sign Scenario.proxied Sample.a_note
          "abcd1234" "device" "post" None Scenario.behind_proxy).1) = true.
Proof.
  apply (write_proxy_failure Sample.sprintf Sample.JSON_parse Sample.ToNumber Sample.ToString
           Sample.sign Scenario.proxied Sample.a_note "abcd1234" "device"
           "post" None Scenario.behind_proxy "/3/device/abcd1234" "POST"
           "device" {| Client.host := "proxy.local"; Client.port := 3128 |}
           "ECONNREFUSED" []);
    vm_compute; reflexivity.
Defined.

Lemma write_silent_iff_refused_witness :
  Extra.refused (Extra.session_for "/3/device/abcd1234")
    (Client.log (Sample.fresh [])) = false /\
  (Log.issued (Sample.fresh [])
     (Sample.write Sample.a_note "abcd1234" "device" "put" None
        (Sample.fresh [])).1 = [] <->
   Client.makePath "device" "abcd1234" = None
   \/ Client.HTTPMethod "put" = None
   \/ Client.isDestroyed (Sample.fresh []) = true).
Proof.
  split; [reflexivity|].
  apply (write_silent_iff_refused Sample.sprintf Sample.JSON_parse
           Sample.ToNumber Sample.ToString Sample.sign Sample.config
           Sample.a_note "abcd1234" "device" "put" None (Sample.fresh [])).
  intros path [= <-]. reflexivity.
Defined.

Lemma write_connects_only_at_start_witness :
  filter Extra.is_connecting
    (Log.issued (Sample.fresh [Sample.answer 200 ""])
       (Sample.write Sample.a_note "abcd1234" "device" "post" None
          (Sample.fresh [Sample.answer 200 ""])).1)
  = Extra.connecting Sample.config (Extra.session_for "/3/device/abcd1234")
      (Sample.fresh [Sample.answer 200 ""]).
Proof.
  apply (write_connects_only_at_start Sample.sprintf Sample.JSON_parse Sample.ToNumber
           Sample.ToString Sample.sign Sample.config Sample.a_note "abcd1234"
           "device" "post" None (Sample.fresh [Sample.answer 200 ""])
           "/3/device/abcd1234" "POST");
    vm_compute; reflexivity.
Defined.

Lemma write_500_drops_session_witness :
  let w :=
    Sample.fresh
      (repeat (Sample.answer 500 (Sample.reason_document "InternalServerError"))
         4) in
  let written := Sample.write Sample.a_note "abcd1234" "device" "post" None w in
  get "status" (Extra.thrown written.2) = VNum 500 /\
  Client.needs_connect
    (Client.session_of (Extra.session_for "/3/device/abcd1234") written.1)
  = true /\
  Client.isDestroyed written.1 = false.
Proof.
  intros w written.
  assert (get "status" (Extra.thrown written.2) = VNum 500) as Hs
    by (vm_compute; reflexivity).
  split; [exact Hs|].
  destruct (write_500_drops_session Sample.sprintf Sample.JSON_parse Sample.ToNumber
              Sample.ToString Sample.sign Sample.config Sample.a_note
              "abcd1234" "device" "post" None w written.1
              (Extra.thrown written.2) "/3/device/abcd1234")
    as (Hn & Hd & _);
    [vm_compute; reflexivity | vm_compute; reflexivity | exact Hs |].
  by split.
Defined.

Lemma empty_body_failure_not_retried_witness :
  Client.is_retryable Sample.ToNumber
    (Extra.thrown
       (Sample.request Client.Push "api.push.apple.com" Sample.a_note
          "/3/device/abcd1234" "POST" (Sample.fresh [Sample.answer 503 ""])).2)
  = Some false.
Proof.
  destruct (empty_body_failure_not_retried Sample.JSON_parse Sample.ToNumber
              Sample.ToString Sample.sign Client.Push "api.push.apple.com"
              Sample.a_note "/3/device/abcd1234" "POST"
              (Sample.fresh [Sample.answer 503 ""])
              {[ ":status" := VNum 503 ]} [] false [] 503)
    as (Hr & _ & Hn);
    [vm_compute; reflexivity | vm_compute; reflexivity
    | done | done | done | reflexivity |].
  unfold Sample.request. by rewrite Hr.
Defined.

Lemma write_failure_names_recipient_witness :
  Extra.thrown
    (Sample.write Sample.a_note "abcd1234" "device" "post" None
       (Sample.fresh
          [Sample.answer 400 (Sample.reason_document "BadDeviceToken")])).2
  !! "device" = Some (VStr "abcd1234").
Proof.
  apply (write_failure_names_recipient Sample.sprintf Sample.JSON_parse Sample.ToNumber
           Sample.ToString Sample.sign Sample.config Sample.a_note "abcd1234"
           "device" "post" None
           (Sample.fresh
              [Sample.answer 400 (Sample.reason_document "BadDeviceToken")])
           (Sample.write Sample.a_note "abcd1234" "device" "post" None
              (Sample.fresh
                 [Sample.answer 400
                    (Sample.reason_document "BadDeviceToken")])).1);
    vm_compute; reflexivity.
Defined.

Lemma expired_token_answer_witness :
  (Sample.request Client.Push "api.push.apple.com" Sample.a_note
     "/3/device/abcd1234" "POST"
     (Sample.fresh
        [Sample.answer 403 (Sample.reason_document "ExpiredProviderToken")])).2
  = Client.unexpected "Cannot read properties of null (reading 'regenerate')".
Proof.
  pose (w := Sample.fresh
               [Sample.answer 403
                  (Sample.reason_document "ExpiredProviderToken")]).
  pose (chunks := [Sample.reason_document "ExpiredProviderToken"]).
  assert (Client.net w =
          {| Client.events :=
               Client.OnResponse {[ ":status" := VNum 403 ]}
               :: map Client.OnData chunks ++ [Client.OnEnd];
             Client.closes := false |} :: []) as Hnet
    by (vm_compute; reflexivity).
  assert (get ":status" ({[ ":status" := VNum 403 ]} : obj) = VNum 403)
    as Hst by (vm_compute; reflexivity).
  assert (Log.received chunks <> "") as Hdata by (vm_compute; discriminate).
  assert (Sample.JSON_parse (Log.received chunks)
          = inl (VObj {[ "reason" := VStr "ExpiredProviderToken" ]}))
    as Hparse by (vm_compute; reflexivity).
  assert (prop (VObj {[ "reason" := VStr "ExpiredProviderToken" ]}) "reason"
          = Some (VStr "ExpiredProviderToken")) as Hreason
    by (vm_compute; reflexivity).
  pose proof (expired_token_answer Sample.JSON_parse Sample.ToNumber
                Sample.ToString Sample.sign Client.Push "api.push.apple.com"
                Sample.a_note "/3/device/abcd1234" "POST" w _ _ _ _ _
                Hnet Hst Hdata Hparse Hreason) as H.
  exact (proj1 H).
Defined.

Lemma request_first_settlement_wins_witness :
  (Sample.request Client.Push "api.push.apple.com" Sample.a_note
     "/3/device/abcd1234" "POST"
     (Sample.fresh
        [{| Client.events := Scenario.late_end; Client.closes := false |}])).2
  = Client.Rejected {[ "error" := VErr "apn write timeout" ]}.
Proof.
  unfold Sample.request.
  rewrite (request_first_settlement_wins Sample.JSON_parse Sample.ToString
             Sample.sign Client.Push "api.push.apple.com" Sample.a_note
             "/3/device/abcd1234" "POST"
             (Sample.fresh
                [{| Client.events := Scenario.late_end;
                    Client.closes := false |}])
             Client.OnTimeout
             [Client.OnResponse {[ ":status" := VNum 200 ]}] [Client.OnEnd]
             false [] eq_refl eq_refl).
  vm_compute. reflexivity.
Defined.

Lemma unknown_error_is_never_thrown_witness :
  let w :=
    Sample.fresh
      [Sample.answer 500 (Sample.reason_document "InternalServerError")] in
  let failure :=
    Extra.thrown
      (Sample.request Client.Push "api.push.apple.com" Sample.a_note
         "/3/device/abcd1234" "POST" w).2 in
  Forall Extra.plain_status (Client.events (Extra.awaited w)) /\
  get "error" failure <> VErr Extra.unknown_error.
Proof.
  intros w failure.
  assert (Forall Extra.plain_status (Client.events (Extra.awaited w))) as Hevs.
  { repeat constructor. }
  split; [exact Hevs|].
  apply (unknown_error_is_never_thrown Sample.JSON_parse Sample.ToString
           Sample.sign Client.Push "api.push.apple.com" Sample.a_note
           "/3/device/abcd1234" "POST" w failure Hevs).
  vm_compute. reflexivity.
Defined.

Lemma request_without_end_fails_bare_witness :
  exists message,
    (Sample.request Client.Push "api.push.apple.com" Sample.a_note
       "/3/device/abcd1234" "POST" (Sample.fresh [Scenario.aborted])).2
    = Client.Rejected {[ "error" := VErr message ]} /\
    Client.is_retryable Sample.ToNumber {[ "error" := VErr message ]}
    = Some false.
Proof.
  apply (request_without_end_fails_bare Sample.JSON_parse Sample.ToNumber
           Sample.ToString Sample.sign Client.Push "api.push.apple.com"
           Sample.a_note "/3/device/abcd1234" "POST"
           (Sample.fresh [Scenario.aborted])).
  repeat constructor.
Defined.

Lemma retryRequest_exhausts_witness :
  let w :=
    Scenario.connected
      (repeat (Sample.answer 400 (Sample.reason_document "BadDeviceToken"))
         3) in
  let retried :=
    Sample.retryRequest Sample.error500 Client.Push "api.push.apple.com"
      Sample.a_note "/3/device/abcd1234" "POST" 0 w in
  Extra.steady Client.Push w /\
  Log.requests (Log.issued w retried.1)
  = Z.to_nat (Client.connectionRetryLimit Sample.config - 0).
Proof.
  intros w retried.
  assert (Extra.steady Client.Push w) as Hw.
  { split; [reflexivity|]. split; [by eexists|]. repeat constructor. }
  split; [exact Hw|].
  apply (retryRequest_exhausts Sample.JSON_parse Sample.ToString Sample.sign
           Sample.config Sample.error500 Client.Push "api.push.apple.com"
           Sample.a_note "/3/device/abcd1234" "POST" 0 w retried.1
           (Extra.thrown retried.2) Hw).
  vm_compute. reflexivity.
Defined.

Lemma chooseSingleClient_round_robin_witness :
  MultiClient.pool_ok Scenario.trio /\
  (MultiClient.choices 3 Scenario.trio).1 = [Some 1; Some 2; Some 0]%nat /\
  (MultiClient.choices (length (MultiClient.clients Scenario.trio))
     Scenario.trio).2 = Scenario.trio.
Proof.
  assert (MultiClient.pool_ok Scenario.trio) as Hok.
  { exists 1%nat. split; [reflexivity|]. simpl. lia. }
  split; [exact Hok|].
  destruct (chooseSingleClient_round_robin 3 Scenario.trio Hok)
    as ((i & Hi & Hc) & _ & _ & Hback).
  split; [|exact Hback].
  injection Hi as <-. exact Hc.
Defined.

Lemma pool_write_uses_one_client_witness :
  MultiClient.pool_ok Scenario.trio /\
  MultiClient.pool_ok
    (MultiClient.write Sample.sprintf Sample.JSON_parse Sample.ToNumber Sample.ToString
       Sample.sign Sample.config Sample.a_note "abcd1234" "device" "post" None
       Scenario.trio).1.
Proof.
  assert (MultiClient.pool_ok Scenario.trio) as Hok.
  { exists 1%nat. split; [reflexivity|]. simpl. lia. }
  split; [exact Hok|].
  destruct (pool_write_uses_one_client Sample.sprintf Sample.JSON_parse Sample.ToNumber
              Sample.ToString Sample.sign Sample.config Sample.a_note
              "abcd1234" "device" "post" None Scenario.trio Hok)
    as (i & w & _ & _ & _ & _ & _ & _ & _ & H).
  exact H.
Defined.
